(** * KCachegrind: the Callgrind/Cachegrind profile loader

    A shallow embedding of [kcachegrind/cachegrindloader.cpp]: the format
    detection [canLoadTrace], the position parser [parsePosition], the
    compression dictionary [compressedObject] / [compressedFile] /
    [compressedFunction], the cursor setters and the line loop of
    [loadTraceInternal], followed by the properties of the loader that the
    specification states.

    Conventions.  A C++ [uint] is a [Z] kept in [0, 2^32) by [wrap32]; a
    [uint64], a [SubCost] and an [Addr] are [Z] kept in [0, 2^64) by
    [wrap64].  A [char] is an [ascii] compared through its signed value
    [char_val].  A nullable pointer is an [option].  The loader object is
    the record [CachegrindLoader], passed explicitly; [kdWarning], [kdError]
    and [kdDebug] append to its [kdLog].  A call that can dereference a
    null pointer returns an [Outcome]: [Done] with its value and the loader
    after it, or [Fault] with the loader as it was at the dereference. *)

From Stdlib Require Import ZArith Ascii String List Bool Lia.
From stdpp Require Import prelude strings.

Local Open Scope string_scope.
Local Open Scope Z_scope.

(* ================================================================== *)
(** ** Machine integers and characters *)

Definition wrap32 (z : Z) : Z := z mod 2 ^ 32.
Definition wrap64 (z : Z) : Z := z mod 2 ^ 64.

(** [char] is signed on the platforms KCachegrind is built for. *)
Definition char_val (c : ascii) : Z :=
  let n := Z.of_N (N_of_ascii c) in
  if n <? 128 then n else n - 256.

Definition char_le (a b : ascii) : bool := char_val a <=? char_val b.
Definition char_lt (a b : ascii) : bool := char_val a <? char_val b.

Definition isDigit (c : ascii) : bool := char_le "0" c && char_le c "9".
Definition digitVal (c : ascii) : Z := char_val c - 48.

(** [QChar::isSpace] on the ASCII range: blank, TAB, LF, VT, FF, CR. *)
Definition isSpace (c : ascii) : bool :=
  let n := char_val c in (n =? 32) || ((9 <=? n) && (n <=? 13)).

Definition isAlpha (c : ascii) : bool :=
  (char_le "a" c && char_le c "z") || (char_le "A" c && char_le c "Z").

(* ================================================================== *)
(** ** Strings: the [QString] and [Q3CString] operations the loader uses *)

Definition slen (s : string) : Z := Z.of_nat (String.length s).

(** [s[i]]; the terminating NUL beyond the last character. *)
Fixpoint strAt (i : nat) (s : string) : ascii :=
  match s, i with
  | EmptyString, _ => "000"%char
  | String c _, O => c
  | String _ s', S i' => strAt i' s'
  end.

Fixpoint dropStr (n : nat) (s : string) : string :=
  match n, s with
  | O, _ => s
  | S n', String _ s' => dropStr n' s'
  | S _, EmptyString => EmptyString
  end.

Fixpoint takeStr (n : nat) (s : string) : string :=
  match n, s with
  | S n', String c s' => String c (takeStr n' s')
  | _, _ => EmptyString
  end.

(** [s.mid(pos, len)] and [s.mid(pos)]. *)
Definition mid (pos len : Z) (s : string) : string :=
  takeStr (Z.to_nat len) (dropStr (Z.to_nat pos) s).
Definition midFrom (pos : Z) (s : string) : string := dropStr (Z.to_nat pos) s.

Fixpoint isPrefix (p s : string) : bool :=
  match p, s with
  | EmptyString, _ => true
  | String a p', String b s' => Ascii.eqb a b && isPrefix p' s'
  | String _ _, EmptyString => false
  end.

(** [s.find(pat)]: index of the first occurrence, or -1. *)
Fixpoint findFrom (pat s : string) (i : Z) : Z :=
  if isPrefix pat s then i
  else match s with
       | EmptyString => -1
       | String _ s' => findFrom pat s' (i + 1)
       end.
Definition find (pat s : string) : Z := findFrom pat s 0.

(** [s.find(c)] for a single character. *)
Definition findChar (c : ascii) (s : string) : Z := find (String c EmptyString) s.

Fixpoint dropWhile (f : ascii -> bool) (s : string) : string :=
  match s with
  | String c s' => if f c then dropWhile f s' else s
  | EmptyString => EmptyString
  end.

Fixpoint revStr (s acc : string) : string :=
  match s with
  | EmptyString => acc
  | String c s' => revStr s' (String c acc)
  end.

(** [QString::stripWhiteSpace]: white space removed at both ends. *)
Definition stripWhiteSpace (s : string) : string :=
  revStr (dropWhile isSpace (revStr (dropWhile isSpace s) EmptyString)) EmptyString.

Fixpoint allDigits (s : string) : bool :=
  match s with
  | EmptyString => true
  | String c s' => isDigit c && allDigits s'
  end.

(** The number a string of decimal digits denotes. *)
Fixpoint decimalAcc (v : Z) (s : string) : Z :=
  match s with
  | EmptyString => v
  | String c s' => decimalAcc (10 * v + digitVal c) s'
  end.
Definition decimalValue (s : string) : Z := decimalAcc 0 s.

(** [QString::toUInt]: surrounding white space is ignored, the rest has to
    be a decimal number that fits an [unsigned int]; 0 when the conversion
    fails. *)
Definition toUInt (s : string) : Z :=
  let t := stripWhiteSpace s in
  let t := match t with String "+" t' => t' | _ => t end in
  match t with
  | EmptyString => 0
  | _ => if allDigits t && (decimalValue t <? 2 ^ 32) then decimalValue t else 0
  end.

(** [QString::toInt]: as [toUInt] with an optional sign and the range of
    [int]; 0 when the conversion fails. *)
Definition toInt (s : string) : Z :=
  let t := stripWhiteSpace s in
  let '(neg, t) := match t with
                   | String "-" t' => (true, t')
                   | String "+" t' => (false, t')
                   | _ => (false, t)
                   end in
  match t with
  | EmptyString => 0
  | _ => if allDigits t
         then let v := if neg then - decimalValue t else decimalValue t in
              if (- 2 ^ 31 <=? v) && (v <? 2 ^ 31) then v else 0
         else 0
  end.

(* ================================================================== *)
(** ** FixString *)

(** Modelled from the spec: the FixString reader of utils.h/utils.cpp, which
    is not part of the sources at hand.  A FixString is a view
    (pointer, length) into the line buffer; the view is the string that is
    left.  Following the spec, [stripUInt] and [stripUInt64] decode an
    unsigned decimal and [stripSpaces] consumes blanks; a failed [stripUInt]
    stores 0 and consumes nothing. *)
Definition FixString := string.

Definition first (s : FixString) : option ascii :=
  match s with
  | EmptyString => None
  | String c _ => Some c
  end.

Definition stripFirst (s : FixString) : option (ascii * FixString) :=
  match s with
  | EmptyString => None
  | String c s' => Some (c, s')
  end.

(** The view after one byte was consumed with [stripFirst(c)] where the
    result is not tested. *)
Definition tailStr (s : FixString) : FixString :=
  match s with
  | EmptyString => EmptyString
  | String _ s' => s'
  end.

Fixpoint stripPrefix (p : string) (s : FixString) : option FixString :=
  match p with
  | EmptyString => Some s
  | String a p' =>
      match s with
      | String b s' => if Ascii.eqb a b then stripPrefix p' s' else None
      | EmptyString => None
      end
  end.

Definition stripSpaces (s : FixString) : FixString :=
  dropWhile (Ascii.eqb " ") s.

Definition stripSurroundingSpaces (s : FixString) : FixString :=
  revStr (dropWhile (Ascii.eqb " ") (revStr (stripSpaces s) EmptyString)) EmptyString.

Fixpoint digitsAcc (wrap : Z -> Z) (v : Z) (s : FixString) : Z * FixString :=
  match s with
  | String c s' =>
      if isDigit c then digitsAcc wrap (wrap (10 * v + digitVal c)) s'
      else (v, s)
  | EmptyString => (v, s)
  end.

Definition stripUIntW (wrap : Z -> Z) (skipSpaces : bool) (s : FixString)
  : bool * Z * FixString :=
  match s with
  | String c _ =>
      if isDigit c
      then let '(v, r) := digitsAcc wrap 0 s in
           (true, v, if skipSpaces then stripSpaces r else r)
      else (false, 0, s)
  | EmptyString => (false, 0, s)
  end.

Definition stripUInt := stripUIntW wrap32.
Definition stripUInt64 := stripUIntW wrap64.

Fixpoint spanStr (f : ascii -> bool) (s : string) : string * string :=
  match s with
  | String c s' =>
      if f c then let '(a, b) := spanStr f s' in (String c a, b)
      else (EmptyString, s)
  | EmptyString => (EmptyString, EmptyString)
  end.

(** [stripName]: an identifier, a letter or underscore followed by letters,
    digits and underscores. *)
Definition stripName (s : FixString) : option (FixString * FixString) :=
  match s with
  | String c _ =>
      if isAlpha c || Ascii.eqb c "_"
      then Some (spanStr (fun x => isAlpha x || isDigit x || Ascii.eqb x "_") s)
      else None
  | EmptyString => None
  end.

(** [stripUntil(ch)]: the slice up to [ch], which is consumed as well. *)
Definition stripUntil (ch : ascii) (s : FixString) : FixString * FixString :=
  let '(a, b) := spanStr (fun x => negb (Ascii.eqb x ch)) s in (a, tailStr b).

(* ================================================================== *)
(** ** Data model *)

(** [PositionSpec] of tracedata.h: a line range ([uint]) and an address
    range ([Addr]). *)
Record PositionSpec := mkPositionSpec {
  fromLine : Z;
  toLine : Z;
  fromAddr : Z;
  toAddr : Z
}.

Definition set_fromLine (v : Z) (r : PositionSpec) : PositionSpec :=
  mkPositionSpec v (toLine r) (fromAddr r) (toAddr r).
Definition set_toLine (v : Z) (r : PositionSpec) : PositionSpec :=
  mkPositionSpec (fromLine r) v (fromAddr r) (toAddr r).
Definition set_fromAddr (v : Z) (r : PositionSpec) : PositionSpec :=
  mkPositionSpec (fromLine r) (toLine r) v (toAddr r).
Definition set_toAddr (v : Z) (r : PositionSpec) : PositionSpec :=
  mkPositionSpec (fromLine r) (toLine r) (fromAddr r) v.

Definition PositionSpec0 : PositionSpec := mkPositionSpec 0 0 0 0.

Inductive lineType := SelfCost | CallCost | BoringJump | CondJump.

(** Modelled from the spec: the entities of the graph store (tracedata.h and
    tracedata.cpp are not part of the sources at hand).  The store keeps "a
    single canonical entity per logical identity": an object and a file are
    identified by their name, so the handle of either is its name.  A
    function is an entry of the store's function table (its object can be
    filled in later), and its handle is the index of the entry.  A per-part
    projection, a function-source, a line, an instruction and a call edge
    are identified by the entities they belong to. *)
Record TraceObject := mkObject { objectName : string }.
Record TraceFile := mkFile { fileName : string }.
Record TraceFunction := mkFunction { functionId : nat }.
Record TracePartObject := mkPartObject { partObjectOf : TraceObject }.
Record TracePartFile := mkPartFile { partFileOf : TraceFile }.
Record TracePartFunction := mkPartFunction { partFunctionOf : TraceFunction }.
Record TraceFunctionSource := mkFunctionSource {
  sourceFunction : TraceFunction;
  sourceOfFile : option TraceFile
}.
Record TraceInstr := mkInstr { instrFunction : TraceFunction; instrAddr : Z }.
Record TracePartInstr := mkPartInstr { partInstrOf : TraceInstr }.
Record TraceLine := mkLine { lineSource : TraceFunctionSource; lineno : Z }.
Record TracePartLine := mkPartLine { partLineOf : TraceLine }.
Record TraceCall := mkCall {
  caller : TraceFunction;
  called : option TraceFunction
}.
Record TracePartCall := mkPartCall { partCallOf : TraceCall }.

#[global] Instance TraceObject_eq_dec : EqDecision TraceObject.
Proof. solve_decision. Defined.
#[global] Instance TraceFile_eq_dec : EqDecision TraceFile.
Proof. solve_decision. Defined.
#[global] Instance TraceFunction_eq_dec : EqDecision TraceFunction.
Proof. solve_decision. Defined.
#[global] Instance TracePartFunction_eq_dec : EqDecision TracePartFunction.
Proof. solve_decision. Defined.

(** The event schema an [events:] line declares. *)
Record TraceSubMapping := mkSubMapping { events : list string }.
Definition count (sm : TraceSubMapping) : nat := length (events sm).

(** Modelled from the spec: the per-part cost arena (fixcost.h is not part of
    the sources at hand).  [new (pool) FixCost(...)], [FixCallCost(...)] and
    [FixJump(...)] add one record each, holding the constructor's
    arguments with the event vector decoded from the rest of the line. *)
Record FixCost := mkFixCost {
  fcFunctionSource : option TraceFunctionSource;
  fcPos : PositionSpec;
  fcPartFunction : option TracePartFunction;
  fcCost : list Z
}.

Record FixCallCost := mkFixCallCost {
  fccFunctionSource : option TraceFunctionSource;
  fccLine : Z;
  fccAddr : Z;
  fccPartCall : option TracePartCall;
  fccCallCount : Z;
  fccCost : list Z
}.

Record FixJump := mkFixJump {
  fjLine : Z;
  fjAddr : Z;
  fjPartFunction : option TracePartFunction;
  fjSource : option TraceFunctionSource;
  fjTargetLine : Z;
  fjTargetAddr : Z;
  fjTargetFunction : option TraceFunction;
  fjTargetSource : option TraceFunctionSource;
  fjIsCondJump : bool;
  fjExecuted : Z;
  fjFollowed : Z
}.

Inductive Severity := KdDebug | KdWarning | KdError.
Record Diagnostic := mkDiagnostic { severity : Severity; message : string }.

(** An entry of the store's function table. *)
Record TraceFunctionData := mkFunctionData {
  fnName : string;
  fnFile : option TraceFile;
  fnObject : option TraceObject
}.

#[global] Instance TraceFunctionData_eq_dec : EqDecision TraceFunctionData.
Proof. solve_decision. Defined.

(** Modelled from the spec: the state of the graph store the loader reads
    and writes. *)
Record TraceData := mkTraceData {
  functions : list TraceFunctionData;
  command : string;
  callMax : list Z;
  costTypes : list (string * string * string)
}.

Definition set_functions (v : list TraceFunctionData) (r : TraceData) : TraceData :=
  mkTraceData v (command r) (callMax r) (costTypes r).
Definition set_command (v : string) (r : TraceData) : TraceData :=
  mkTraceData (functions r) v (callMax r) (costTypes r).
Definition set_callMax (v : list Z) (r : TraceData) : TraceData :=
  mkTraceData (functions r) (command r) v (costTypes r).
Definition set_costTypes (v : list (string * string * string)) (r : TraceData) : TraceData :=
  mkTraceData (functions r) (command r) (callMax r) v.

(** Modelled from the spec: the part handle with its metadata, its totals
    and its cost arena. *)
Record TracePart := mkTracePart {
  threadID : Z;
  timeframe : string;
  trigger : string;
  partNumber : Z;
  processID : Z;
  version : string;
  fixSubMapping : option TraceSubMapping;
  totals : list Z;
  fixCosts : list FixCost;
  fixCallCosts : list FixCallCost;
  fixJumps : list FixJump;
  invalidated : bool
}.

Definition set_threadID (v : Z) (r : TracePart) : TracePart :=
  mkTracePart v (timeframe r) (trigger r) (partNumber r) (processID r)
    (version r) (fixSubMapping r) (totals r) (fixCosts r) (fixCallCosts r)
    (fixJumps r) (invalidated r).
Definition set_timeframe (v : string) (r : TracePart) : TracePart :=
  mkTracePart (threadID r) v (trigger r) (partNumber r) (processID r)
    (version r) (fixSubMapping r) (totals r) (fixCosts r) (fixCallCosts r)
    (fixJumps r) (invalidated r).
Definition set_trigger (v : string) (r : TracePart) : TracePart :=
  mkTracePart (threadID r) (timeframe r) v (partNumber r) (processID r)
    (version r) (fixSubMapping r) (totals r) (fixCosts r) (fixCallCosts r)
    (fixJumps r) (invalidated r).
Definition set_partNumber (v : Z) (r : TracePart) : TracePart :=
  mkTracePart (threadID r) (timeframe r) (trigger r) v (processID r)
    (version r) (fixSubMapping r) (totals r) (fixCosts r) (fixCallCosts r)
    (fixJumps r) (invalidated r).
Definition set_processID (v : Z) (r : TracePart) : TracePart :=
  mkTracePart (threadID r) (timeframe r) (trigger r) (partNumber r) v
    (version r) (fixSubMapping r) (totals r) (fixCosts r) (fixCallCosts r)
    (fixJumps r) (invalidated r).
Definition set_version (v : string) (r : TracePart) : TracePart :=
  mkTracePart (threadID r) (timeframe r) (trigger r) (partNumber r)
    (processID r) v (fixSubMapping r) (totals r) (fixCosts r)
    (fixCallCosts r) (fixJumps r) (invalidated r).
Definition set_fixSubMapping (v : option TraceSubMapping) (r : TracePart) : TracePart :=
  mkTracePart (threadID r) (timeframe r) (trigger r) (partNumber r)
    (processID r) (version r) v (totals r) (fixCosts r) (fixCallCosts r)
    (fixJumps r) (invalidated r).
Definition set_totals (v : list Z) (r : TracePart) : TracePart :=
  mkTracePart (threadID r) (timeframe r) (trigger r) (partNumber r)
    (processID r) (version r) (fixSubMapping r) v (fixCosts r)
    (fixCallCosts r) (fixJumps r) (invalidated r).
Definition set_fixCosts (v : list FixCost) (r : TracePart) : TracePart :=
  mkTracePart (threadID r) (timeframe r) (trigger r) (partNumber r)
    (processID r) (version r) (fixSubMapping r) (totals r) v
    (fixCallCosts r) (fixJumps r) (invalidated r).
Definition set_fixCallCosts (v : list FixCallCost) (r : TracePart) : TracePart :=
  mkTracePart (threadID r) (timeframe r) (trigger r) (partNumber r)
    (processID r) (version r) (fixSubMapping r) (totals r) (fixCosts r) v
    (fixJumps r) (invalidated r).
Definition set_fixJumps (v : list FixJump) (r : TracePart) : TracePart :=
  mkTracePart (threadID r) (timeframe r) (trigger r) (partNumber r)
    (processID r) (version r) (fixSubMapping r) (totals r) (fixCosts r)
    (fixCallCosts r) v (invalidated r).
Definition set_invalidated (v : bool) (r : TracePart) : TracePart :=
  mkTracePart (threadID r) (timeframe r) (trigger r) (partNumber r)
    (processID r) (version r) (fixSubMapping r) (totals r) (fixCosts r)
    (fixCallCosts r) (fixJumps r) v.

(** *** The loader object

    The fields of [class CachegrindLoader], in the groups of its
    declaration: "current function/line", "current call", "current jump". *)
Record CurrentFunction := mkCurrentFunction {
  currentObject : option TraceObject;
  currentPartObject : option TracePartObject;
  currentFile : option TraceFile;
  currentPartFile : option TracePartFile;
  currentFunction : option TraceFunction;
  currentPartFunction : option TracePartFunction;
  currentFunctionSource : option TraceFunctionSource;
  currentInstr : option TraceInstr;
  currentPartInstr : option TracePartInstr;
  currentLine : option TraceLine;
  currentPartLine : option TracePartLine
}.

Definition set_currentObject (v : option TraceObject) (r : CurrentFunction) : CurrentFunction :=
  mkCurrentFunction v (currentPartObject r) (currentFile r)
    (currentPartFile r) (currentFunction r) (currentPartFunction r)
    (currentFunctionSource r) (currentInstr r) (currentPartInstr r)
    (currentLine r) (currentPartLine r).
Definition set_currentPartObject (v : option TracePartObject) (r : CurrentFunction) : CurrentFunction :=
  mkCurrentFunction (currentObject r) v (currentFile r) (currentPartFile r)
    (currentFunction r) (currentPartFunction r) (currentFunctionSource r)
    (currentInstr r) (currentPartInstr r) (currentLine r)
    (currentPartLine r).
Definition set_currentFile (v : option TraceFile) (r : CurrentFunction) : CurrentFunction :=
  mkCurrentFunction (currentObject r) (currentPartObject r) v
    (currentPartFile r) (currentFunction r) (currentPartFunction r)
    (currentFunctionSource r) (currentInstr r) (currentPartInstr r)
    (currentLine r) (currentPartLine r).
Definition set_currentPartFile (v : option TracePartFile) (r : CurrentFunction) : CurrentFunction :=
  mkCurrentFunction (currentObject r) (currentPartObject r) (currentFile r)
    v (currentFunction r) (currentPartFunction r) (currentFunctionSource r)
    (currentInstr r) (currentPartInstr r) (currentLine r)
    (currentPartLine r).
Definition set_currentFunction (v : option TraceFunction) (r : CurrentFunction) : CurrentFunction :=
  mkCurrentFunction (currentObject r) (currentPartObject r) (currentFile r)
    (currentPartFile r) v (currentPartFunction r) (currentFunctionSource r)
    (currentInstr r) (currentPartInstr r) (currentLine r)
    (currentPartLine r).
Definition set_currentPartFunction (v : option TracePartFunction) (r : CurrentFunction) : CurrentFunction :=
  mkCurrentFunction (currentObject r) (currentPartObject r) (currentFile r)
    (currentPartFile r) (currentFunction r) v (currentFunctionSource r)
    (currentInstr r) (currentPartInstr r) (currentLine r)
    (currentPartLine r).
Definition set_currentFunctionSource (v : option TraceFunctionSource) (r : CurrentFunction) : CurrentFunction :=
  mkCurrentFunction (currentObject r) (currentPartObject r) (currentFile r)
    (currentPartFile r) (currentFunction r) (currentPartFunction r) v
    (currentInstr r) (currentPartInstr r) (currentLine r)
    (currentPartLine r).
Definition set_currentInstr (v : option TraceInstr) (r : CurrentFunction) : CurrentFunction :=
  mkCurrentFunction (currentObject r) (currentPartObject r) (currentFile r)
    (currentPartFile r) (currentFunction r) (currentPartFunction r)
    (currentFunctionSource r) v (currentPartInstr r) (currentLine r)
    (currentPartLine r).
Definition set_currentPartInstr (v : option TracePartInstr) (r : CurrentFunction) : CurrentFunction :=
  mkCurrentFunction (currentObject r) (currentPartObject r) (currentFile r)
    (currentPartFile r) (currentFunction r) (currentPartFunction r)
    (currentFunctionSource r) (currentInstr r) v (currentLine r)
    (currentPartLine r).
Definition set_currentLine (v : option TraceLine) (r : CurrentFunction) : CurrentFunction :=
  mkCurrentFunction (currentObject r) (currentPartObject r) (currentFile r)
    (currentPartFile r) (currentFunction r) (currentPartFunction r)
    (currentFunctionSource r) (currentInstr r) (currentPartInstr r) v
    (currentPartLine r).
Definition set_currentPartLine (v : option TracePartLine) (r : CurrentFunction) : CurrentFunction :=
  mkCurrentFunction (currentObject r) (currentPartObject r) (currentFile r)
    (currentPartFile r) (currentFunction r) (currentPartFunction r)
    (currentFunctionSource r) (currentInstr r) (currentPartInstr r)
    (currentLine r) v.

Record CurrentCall := mkCurrentCall {
  currentCalledObject : option TraceObject;
  currentCalledPartObject : option TracePartObject;
  currentCalledFile : option TraceFile;
  currentCalledPartFile : option TracePartFile;
  currentCalledFunction : option TraceFunction;
  currentCalledPartFunction : option TracePartFunction;
  currentCallCount : Z
}.

Definition set_currentCalledObject (v : option TraceObject) (r : CurrentCall) : CurrentCall :=
  mkCurrentCall v (currentCalledPartObject r) (currentCalledFile r)
    (currentCalledPartFile r) (currentCalledFunction r)
    (currentCalledPartFunction r) (currentCallCount r).
Definition set_currentCalledPartObject (v : option TracePartObject) (r : CurrentCall) : CurrentCall :=
  mkCurrentCall (currentCalledObject r) v (currentCalledFile r)
    (currentCalledPartFile r) (currentCalledFunction r)
    (currentCalledPartFunction r) (currentCallCount r).
Definition set_currentCalledFile (v : option TraceFile) (r : CurrentCall) : CurrentCall :=
  mkCurrentCall (currentCalledObject r) (currentCalledPartObject r) v
    (currentCalledPartFile r) (currentCalledFunction r)
    (currentCalledPartFunction r) (currentCallCount r).
Definition set_currentCalledPartFile (v : option TracePartFile) (r : CurrentCall) : CurrentCall :=
  mkCurrentCall (currentCalledObject r) (currentCalledPartObject r)
    (currentCalledFile r) v (currentCalledFunction r)
    (currentCalledPartFunction r) (currentCallCount r).
Definition set_currentCalledFunction (v : option TraceFunction) (r : CurrentCall) : CurrentCall :=
  mkCurrentCall (currentCalledObject r) (currentCalledPartObject r)
    (currentCalledFile r) (currentCalledPartFile r) v
    (currentCalledPartFunction r) (currentCallCount r).
Definition set_currentCalledPartFunction (v : option TracePartFunction) (r : CurrentCall) : CurrentCall :=
  mkCurrentCall (currentCalledObject r) (currentCalledPartObject r)
    (currentCalledFile r) (currentCalledPartFile r)
    (currentCalledFunction r) v (currentCallCount r).
Definition set_currentCallCount (v : Z) (r : CurrentCall) : CurrentCall :=
  mkCurrentCall (currentCalledObject r) (currentCalledPartObject r)
    (currentCalledFile r) (currentCalledPartFile r)
    (currentCalledFunction r) (currentCalledPartFunction r) v.

Record CurrentJump := mkCurrentJump {
  currentJumpToFile : option TraceFile;
  currentJumpToFunction : option TraceFunction;
  targetPos : PositionSpec;
  jumpsFollowed : Z;
  jumpsExecuted : Z
}.

Definition set_currentJumpToFile (v : option TraceFile) (r : CurrentJump) : CurrentJump :=
  mkCurrentJump v (currentJumpToFunction r) (targetPos r) (jumpsFollowed r)
    (jumpsExecuted r).
Definition set_currentJumpToFunction (v : option TraceFunction) (r : CurrentJump) : CurrentJump :=
  mkCurrentJump (currentJumpToFile r) v (targetPos r) (jumpsFollowed r)
    (jumpsExecuted r).
Definition set_targetPos (v : PositionSpec) (r : CurrentJump) : CurrentJump :=
  mkCurrentJump (currentJumpToFile r) (currentJumpToFunction r) v
    (jumpsFollowed r) (jumpsExecuted r).
Definition set_jumpsFollowed (v : Z) (r : CurrentJump) : CurrentJump :=
  mkCurrentJump (currentJumpToFile r) (currentJumpToFunction r)
    (targetPos r) v (jumpsExecuted r).
Definition set_jumpsExecuted (v : Z) (r : CurrentJump) : CurrentJump :=
  mkCurrentJump (currentJumpToFile r) (currentJumpToFunction r)
    (targetPos r) (jumpsFollowed r) v.

Record CachegrindLoader := mkCachegrindLoader {
  _lineNo : Z;
  subMapping : option TraceSubMapping;
  _data : TraceData;
  _part : TracePart;
  nextLineType : lineType;
  hasLineInfo : bool;
  hasAddrInfo : bool;
  currentPos : PositionSpec;
  cur : CurrentFunction;
  call : CurrentCall;
  jump : CurrentJump;
  _objectVector : list (option TraceObject);
  _fileVector : list (option TraceFile);
  _functionVector : list (option TraceFunction);
  kdLog : list Diagnostic
}.

Definition set__lineNo (v : Z) (r : CachegrindLoader) : CachegrindLoader :=
  mkCachegrindLoader v (subMapping r) (_data r) (_part r) (nextLineType r)
    (hasLineInfo r) (hasAddrInfo r) (currentPos r) (cur r) (call r)
    (jump r) (_objectVector r) (_fileVector r) (_functionVector r)
    (kdLog r).
Definition set_subMapping (v : option TraceSubMapping) (r : CachegrindLoader) : CachegrindLoader :=
  mkCachegrindLoader (_lineNo r) v (_data r) (_part r) (nextLineType r)
    (hasLineInfo r) (hasAddrInfo r) (currentPos r) (cur r) (call r)
    (jump r) (_objectVector r) (_fileVector r) (_functionVector r)
    (kdLog r).
Definition set__data (v : TraceData) (r : CachegrindLoader) : CachegrindLoader :=
  mkCachegrindLoader (_lineNo r) (subMapping r) v (_part r)
    (nextLineType r) (hasLineInfo r) (hasAddrInfo r) (currentPos r) (cur r)
    (call r) (jump r) (_objectVector r) (_fileVector r) (_functionVector r)
    (kdLog r).
Definition set__part (v : TracePart) (r : CachegrindLoader) : CachegrindLoader :=
  mkCachegrindLoader (_lineNo r) (subMapping r) (_data r) v
    (nextLineType r) (hasLineInfo r) (hasAddrInfo r) (currentPos r) (cur r)
    (call r) (jump r) (_objectVector r) (_fileVector r) (_functionVector r)
    (kdLog r).
Definition set_nextLineType (v : lineType) (r : CachegrindLoader) : CachegrindLoader :=
  mkCachegrindLoader (_lineNo r) (subMapping r) (_data r) (_part r) v
    (hasLineInfo r) (hasAddrInfo r) (currentPos r) (cur r) (call r)
    (jump r) (_objectVector r) (_fileVector r) (_functionVector r)
    (kdLog r).
Definition set_hasLineInfo (v : bool) (r : CachegrindLoader) : CachegrindLoader :=
  mkCachegrindLoader (_lineNo r) (subMapping r) (_data r) (_part r)
    (nextLineType r) v (hasAddrInfo r) (currentPos r) (cur r) (call r)
    (jump r) (_objectVector r) (_fileVector r) (_functionVector r)
    (kdLog r).
Definition set_hasAddrInfo (v : bool) (r : CachegrindLoader) : CachegrindLoader :=
  mkCachegrindLoader (_lineNo r) (subMapping r) (_data r) (_part r)
    (nextLineType r) (hasLineInfo r) v (currentPos r) (cur r) (call r)
    (jump r) (_objectVector r) (_fileVector r) (_functionVector r)
    (kdLog r).
Definition set_currentPos (v : PositionSpec) (r : CachegrindLoader) : CachegrindLoader :=
  mkCachegrindLoader (_lineNo r) (subMapping r) (_data r) (_part r)
    (nextLineType r) (hasLineInfo r) (hasAddrInfo r) v (cur r) (call r)
    (jump r) (_objectVector r) (_fileVector r) (_functionVector r)
    (kdLog r).
Definition set_cur (v : CurrentFunction) (r : CachegrindLoader) : CachegrindLoader :=
  mkCachegrindLoader (_lineNo r) (subMapping r) (_data r) (_part r)
    (nextLineType r) (hasLineInfo r) (hasAddrInfo r) (currentPos r) v
    (call r) (jump r) (_objectVector r) (_fileVector r) (_functionVector r)
    (kdLog r).
Definition set_call (v : CurrentCall) (r : CachegrindLoader) : CachegrindLoader :=
  mkCachegrindLoader (_lineNo r) (subMapping r) (_data r) (_part r)
    (nextLineType r) (hasLineInfo r) (hasAddrInfo r) (currentPos r) (cur r)
    v (jump r) (_objectVector r) (_fileVector r) (_functionVector r)
    (kdLog r).
Definition set_jump (v : CurrentJump) (r : CachegrindLoader) : CachegrindLoader :=
  mkCachegrindLoader (_lineNo r) (subMapping r) (_data r) (_part r)
    (nextLineType r) (hasLineInfo r) (hasAddrInfo r) (currentPos r) (cur r)
    (call r) v (_objectVector r) (_fileVector r) (_functionVector r)
    (kdLog r).
Definition set__objectVector (v : list (option TraceObject)) (r : CachegrindLoader) : CachegrindLoader :=
  mkCachegrindLoader (_lineNo r) (subMapping r) (_data r) (_part r)
    (nextLineType r) (hasLineInfo r) (hasAddrInfo r) (currentPos r) (cur r)
    (call r) (jump r) v (_fileVector r) (_functionVector r) (kdLog r).
Definition set__fileVector (v : list (option TraceFile)) (r : CachegrindLoader) : CachegrindLoader :=
  mkCachegrindLoader (_lineNo r) (subMapping r) (_data r) (_part r)
    (nextLineType r) (hasLineInfo r) (hasAddrInfo r) (currentPos r) (cur r)
    (call r) (jump r) (_objectVector r) v (_functionVector r) (kdLog r).
Definition set__functionVector (v : list (option TraceFunction)) (r : CachegrindLoader) : CachegrindLoader :=
  mkCachegrindLoader (_lineNo r) (subMapping r) (_data r) (_part r)
    (nextLineType r) (hasLineInfo r) (hasAddrInfo r) (currentPos r) (cur r)
    (call r) (jump r) (_objectVector r) (_fileVector r) v (kdLog r).
Definition set_kdLog (v : list Diagnostic) (r : CachegrindLoader) : CachegrindLoader :=
  mkCachegrindLoader (_lineNo r) (subMapping r) (_data r) (_part r)
    (nextLineType r) (hasLineInfo r) (hasAddrInfo r) (currentPos r) (cur r)
    (call r) (jump r) (_objectVector r) (_fileVector r) (_functionVector r)
    v.

Definition upd_cur (f : CurrentFunction -> CurrentFunction) (st : CachegrindLoader) :=
  set_cur (f (cur st)) st.
Definition upd_call (f : CurrentCall -> CurrentCall) (st : CachegrindLoader) :=
  set_call (f (call st)) st.
Definition upd_jump (f : CurrentJump -> CurrentJump) (st : CachegrindLoader) :=
  set_jump (f (jump st)) st.
Definition upd_data (f : TraceData -> TraceData) (st : CachegrindLoader) :=
  set__data (f (_data st)) st.
Definition upd_part (f : TracePart -> TracePart) (st : CachegrindLoader) :=
  set__part (f (_part st)) st.

Definition kdWarning (msg : string) (st : CachegrindLoader) : CachegrindLoader :=
  set_kdLog (kdLog st ++ [mkDiagnostic KdWarning msg]) st.
Definition kdError (msg : string) (st : CachegrindLoader) : CachegrindLoader :=
  set_kdLog (kdLog st ++ [mkDiagnostic KdError msg]) st.
Definition kdDebug (msg : string) (st : CachegrindLoader) : CachegrindLoader :=
  set_kdLog (kdLog st ++ [mkDiagnostic KdDebug msg]) st.

(** What a call that can dereference a null pointer ends in: it returns
    [a], leaving the loader [st], or it faults, the loader being [st] at
    that point. *)
Inductive Outcome (A : Type) : Type :=
| Done (a : A) (st : CachegrindLoader)
| Fault (st : CachegrindLoader).
Arguments Done {A} a st.
Arguments Fault {A} st.

Definition outState {A} (o : Outcome A) : CachegrindLoader :=
  match o with
  | Done _ st => st
  | Fault st => st
  end.

(* ================================================================== *)
(** ** The position parser *)

(** The [PositionSpec&] argument of [parsePosition].  The loader passes its
    own [currentPos] for a cost line and its [targetPos] for a jump line.
    The parser reads [currentPos] and writes through the reference, so with
    [RefCurrentPos] it reads and writes the same object. *)
Inductive PosRef := RefCurrentPos | RefTargetPos.

Definition getPos (r : PosRef) (st : CachegrindLoader) : PositionSpec :=
  match r with
  | RefCurrentPos => currentPos st
  | RefTargetPos => targetPos (jump st)
  end.

Definition updPos (r : PosRef) (f : PositionSpec -> PositionSpec)
    (st : CachegrindLoader) : CachegrindLoader :=
  match r with
  | RefCurrentPos => set_currentPos (f (currentPos st)) st
  | RefTargetPos => upd_jump (fun j => set_targetPos (f (targetPos j)) j) st
  end.

(** "Range specification" of the address column: [+N] widens the range by
    [N], [-V] and [:V] end it at [V]. *)
Definition addrRange (newPos : PosRef) (line : FixString)
    (st : CachegrindLoader) : FixString * CachegrindLoader :=
  match first line with
  | Some c =>
      if Ascii.eqb c "+" then
        let '(_, diff, line) := stripUInt true (tailStr line) in
        (line, updPos newPos (fun p => set_toAddr (wrap64 (fromAddr p + diff)) p) st)
      else if Ascii.eqb c "-" || Ascii.eqb c ":" then
        let '(_, v, line) := stripUInt64 true (tailStr line) in
        (line, updPos newPos (set_toAddr v) st)
      else (line, st)
  | None => (line, st)
  end.

(** "Range specification" of the line column. *)
Definition lineRange (newPos : PosRef) (line : FixString)
    (st : CachegrindLoader) : FixString * CachegrindLoader :=
  match first line with
  | Some c =>
      if Ascii.eqb c "+" then
        let '(_, diff, line) := stripUInt true (tailStr line) in
        (line, updPos newPos (fun p => set_toLine (wrap32 (fromLine p + diff)) p) st)
      else if Ascii.eqb c "-" || Ascii.eqb c ":" then
        let '(_, v, line) := stripUInt true (tailStr line) in
        (line, updPos newPos (set_toLine v) st)
      else (line, st)
  | None => (line, st)
  end.

(** The address column, [if (hasAddrInfo) { ... }]; [None] is
    [return false]. *)
Definition parseAddrColumn (newPos : PosRef) (line : FixString)
    (st : CachegrindLoader) : option (FixString * CachegrindLoader) :=
  match first line with
  | None => None
  | Some c =>
      let column :=
        if Ascii.eqb c "*" then
          (* nothing changed *)
          let st := updPos newPos (set_fromAddr (fromAddr (currentPos st))) st in
          let st := updPos newPos (set_toAddr (toAddr (currentPos st))) st in
          Some (tailStr line, st)
        else if Ascii.eqb c "+" then
          let '(_, diff, line) := stripUInt false (tailStr line) in
          let st := updPos newPos
                      (set_fromAddr (wrap64 (fromAddr (currentPos st) + diff))) st in
          let st := updPos newPos (fun p => set_toAddr (fromAddr p) p) st in
          Some (line, st)
        else if Ascii.eqb c "-" then
          let '(_, diff, line) := stripUInt false (tailStr line) in
          let st := updPos newPos
                      (set_fromAddr (wrap64 (fromAddr (currentPos st) - diff))) st in
          let st := updPos newPos (fun p => set_toAddr (fromAddr p) p) st in
          Some (line, st)
        else if char_le "0" c then
          let '(_, v, line) := stripUInt64 false line in
          let st := updPos newPos (set_fromAddr v) st in
          let st := updPos newPos (fun p => set_toAddr (fromAddr p) p) st in
          Some (line, st)
        else None in
      match column with
      | None => None
      | Some (line, st) =>
          let '(line, st) := addrRange newPos line st in
          Some (stripSpaces line, st)
      end
  end.

(** The line column, [if (hasLineInfo) { ... }]. *)
Definition parseLineColumn (newPos : PosRef) (line : FixString)
    (st : CachegrindLoader) : option (FixString * CachegrindLoader) :=
  match first line with
  | None => None
  | Some c =>
      let column :=
        if char_lt "9" c then None
        else if Ascii.eqb c "*" then
          (* nothing changed *)
          let st := updPos newPos (set_fromLine (fromLine (currentPos st))) st in
          let st := updPos newPos (set_toLine (toLine (currentPos st))) st in
          Some (tailStr line, st)
        else if Ascii.eqb c "+" then
          let '(_, diff, line) := stripUInt false (tailStr line) in
          let st := updPos newPos
                      (set_fromLine (wrap32 (fromLine (currentPos st) + diff))) st in
          let st := updPos newPos (fun p => set_toLine (fromLine p) p) st in
          Some (line, st)
        else if Ascii.eqb c "-" then
          let '(_, diff, line) := stripUInt false (tailStr line) in
          let '(diff, st) :=
            if fromLine (currentPos st) <? diff
            then (Z.b2z (fromLine (currentPos st) <? diff),
                  kdWarning "CachegrindLoader::parsePosition: negative line number ?!" st)
            else (diff, st) in
          let st := updPos newPos
                      (set_fromLine (wrap32 (fromLine (currentPos st) - diff))) st in
          let st := updPos newPos (fun p => set_toLine (fromLine p) p) st in
          Some (line, st)
        else if char_le "0" c then
          let '(_, v, line) := stripUInt false line in
          let st := updPos newPos (set_fromLine v) st in
          let st := updPos newPos (fun p => set_toLine (fromLine p) p) st in
          Some (line, st)
        else None in
      match column with
      | None => None
      | Some (line, st) =>
          let '(line, st) := lineRange newPos line st in
          Some (stripSpaces line, st)
      end
  end.

(** [CachegrindLoader::parsePosition]: "Return false if this is no position
    specification".  The result is the returned flag, what is left of the
    line and the loader. *)
Definition parsePosition (newPos : PosRef) (line : FixString)
    (st : CachegrindLoader) : bool * FixString * CachegrindLoader :=
  let lineColumn line st :=
    if hasLineInfo st then
      match parseLineColumn newPos line st with
      | None => (false, line, st)
      | Some (line, st) => (true, line, st)
      end
    else (true, line, st) in
  if hasAddrInfo st then
    match parseAddrColumn newPos line st with
    | None => (false, line, st)
    | Some (line, st) => lineColumn line st
    end
  else lineColumn line st.

(* ================================================================== *)
(** ** The graph store accessors *)

(** Modelled from the spec: [_data->object(name)] and [_data->file(name)],
    "accessors that return the canonical entity, creating it on first use";
    objects and files are interned by name. *)
Definition data_object (name : string) : TraceObject := mkObject name.
Definition data_file (name : string) : TraceFile := mkFile name.

(** Modelled from the spec: [_data->function(name, file, object)], interned
    by the triple: the entry of the function table with these three fields,
    added at the end of the table when there is none. *)
Definition data_function (name : string) (file : option TraceFile)
    (object : option TraceObject) (d : TraceData) : TraceFunction * TraceData :=
  let key := mkFunctionData name file object in
  match list_find (fun e => e = key) (functions d) with
  | Some (i, _) => (mkFunction i, d)
  | None => (mkFunction (length (functions d)),
             set_functions (functions d ++ [key]) d)
  end.

(** [f->object()] and [f->setObject(object)]; [object->addFunction(f)] adds
    [f] to the functions of the object, which are the entries of the table
    that name the object. *)
Definition function_object (f : TraceFunction) (d : TraceData) : option TraceObject :=
  match functions d !! functionId f with
  | Some e => fnObject e
  | None => None
  end.

Definition function_setObject (f : TraceFunction) (o : option TraceObject)
    (d : TraceData) : TraceData :=
  match functions d !! functionId f with
  | Some e =>
      set_functions
        (<[functionId f := mkFunctionData (fnName e) (fnFile e) o]> (functions d)) d
  | None => d
  end.

(** Per-part projections: [o->partObject(_part)], [f->partFile(_part)],
    [fn->partFunction(_part, partFile, partObject)] on a possibly null
    receiver (null stays null here; the loader only calls them on entities
    it has just set). *)
Definition partObject (o : option TraceObject) : option TracePartObject :=
  mkPartObject <$> o.
Definition partFile (f : option TraceFile) : option TracePartFile :=
  mkPartFile <$> f.
Definition partFunction (f : option TraceFunction) : option TracePartFunction :=
  mkPartFunction <$> f.

(* ================================================================== *)
(** ** The compression dictionary *)

(** [Q3PtrVector<T>]: [size()] slots of nullable pointers.  [resize] keeps
    the slots below the new size and fills with null; [insert] refuses an
    index out of range; [at] reads a slot. *)
Definition vsize {T} (v : list (option T)) : Z := Z.of_nat (length v).

Definition vresize {T} (n : Z) (v : list (option T)) : list (option T) :=
  take (Z.to_nat n) v ++ replicate (Z.to_nat n - length v)%nat None.

Definition vinsert {T} (i : Z) (o : option T) (v : list (option T))
  : list (option T) :=
  if i <? vsize v then <[Z.to_nat i := o]> v else v.

Definition vat {T} (i : Z) (v : list (option T)) : option T :=
  match v !! Z.to_nat i with
  | Some o => o
  | None => None
  end.

(** [clearCompression]: "reset to reasonable init size. We double lengths if
    needed." *)
Definition clearCompression (st : CachegrindLoader) : CachegrindLoader :=
  let st := set__objectVector (vresize 100 []) st in
  let st := set__fileVector (vresize 1000 []) st in
  set__functionVector (vresize 10000 []) st.

(** [(name[0] != '(') || !name[1].isDigit()] *)
Definition isRegularName (name : string) : bool :=
  negb (Ascii.eqb (strAt 0 name) "(") || negb (isDigit (strAt 1 name)).

(** [p++; while(name.at(p).isSpace()) p++; ... name.mid(p)] *)
Definition nameAfter (p : Z) (name : string) : string :=
  dropWhile isSpace (midFrom (p + 1) name).

Definition compressedObject (name : string) (st : CachegrindLoader)
  : option TraceObject * CachegrindLoader :=
  if isRegularName name then (Some (data_object name), st)
  else
    (* compressed format using _objectVector *)
    let p := findChar ")" name in
    if p <? 2 then
      (None, kdError "Loader: Invalid compressed format for ELF object" st)
    else
      let index := wrap32 (toInt (mid 1 (p - 1) name)) in
      if p + 1 <? slen name then
        let o := Some (data_object (nameAfter p name)) in
        let st :=
          if vsize (_objectVector st) <=? index then
            let newSize := wrap32 (index * 2) in
            set__objectVector (vresize newSize (_objectVector st)) st
          else st in
        (o, set__objectVector (vinsert index o (_objectVector st)) st)
      else
        if vsize (_objectVector st) <=? index then
          (None, kdError "Loader: Invalid compressed object index" st)
        else (vat index (_objectVector st), st).

(** "Note: Cachegrind sometimes gives different IDs for same file (when
    references to same source file come from different ELF objects)" *)
Definition compressedFile (name : string) (st : CachegrindLoader)
  : option TraceFile * CachegrindLoader :=
  if isRegularName name then (Some (data_file name), st)
  else
    let p := findChar ")" name in
    if p <? 2 then
      (None, kdError "Loader: Invalid compressed format for file" st)
    else
      let index := toUInt (mid 1 (p - 1) name) in
      if p + 1 <? slen name then
        let f := Some (data_file (nameAfter p name)) in
        let st :=
          if vsize (_fileVector st) <=? index then
            let newSize := wrap32 (index * 2) in
            set__fileVector (vresize newSize (_fileVector st)) st
          else st in
        (f, set__fileVector (vinsert index f (_fileVector st)) st)
      else
        if vsize (_fileVector st) <=? index then
          (None, kdError "Loader: Invalid compressed file index" st)
        else (vat index (_fileVector st), st).

Definition compressedFunction (name : string) (file : option TraceFile)
    (object : option TraceObject) (st : CachegrindLoader)
  : Outcome (option TraceFunction) :=
  if isRegularName name then
    let '(f, d) := data_function name file object (_data st) in
    Done (Some f) (set__data d st)
  else
    (* compressed format using _functionVector *)
    let p := findChar ")" name in
    if p <? 2 then
      Done None (kdError "Loader: Invalid compressed format for function" st)
    else
      (* "many indexes can map to same function!" *)
      let index := toUInt (mid 1 (p - 1) name) in
      if p + 1 <? slen name then
        let '(f, d) := data_function (nameAfter p name) file object (_data st) in
        let st := set__data d st in
        let st :=
          if vsize (_functionVector st) <=? index then
            let newSize := wrap32 (index * 2) in
            set__functionVector (vresize newSize (_functionVector st)) st
          else st in
        Done (Some f)
          (set__functionVector (vinsert index (Some f) (_functionVector st)) st)
      else
        if vsize (_functionVector st) <=? index then
          Done None (kdError "Loader: Invalid compressed function index" st)
        else
          match vat index (_functionVector st) with
          | None =>
              Done None
                (kdError "Loader: Invalid compressed function index without definition" st)
          | Some f =>
              if bool_decide (function_object f (_data st) = None)
                 && bool_decide (object <> None)
              then Done (Some f) (upd_data (function_setObject f object) st)
              else if bool_decide (function_object f (_data st) <> object)
              then
                (* the message is built from [f->object()->name()] and
                   [object->name()]: with [object == 0] the second one
                   dereferences the null pointer *)
                match object with
                | None => Fault st
                | Some _ =>
                    Done (Some f)
                      (kdError "TraceData::compressedFunction: Object mismatch" st)
                end
              else Done (Some f) st
          end.

(* ================================================================== *)
(** ** Position setters *)

Definition _objDummy : string := "???".
Definition _fileDummy : string := "???".
Definition _functionDummy : string := "???".

(** "make sure that a valid object is set, at least dummy '???'" *)
Definition ensureObject (st : CachegrindLoader) : CachegrindLoader :=
  match currentObject (cur st) with
  | Some _ => st
  | None =>
      let st := kdWarning "ELF object name not set. Using '???'" st in
      let st := upd_cur (set_currentObject (Some (data_object _objDummy))) st in
      upd_cur (fun c => set_currentPartObject (partObject (currentObject c)) c) st
  end.

Definition setObject (name : string) (st : CachegrindLoader) : CachegrindLoader :=
  let '(o, st) := compressedObject name st in
  let st := upd_cur (set_currentObject o) st in
  let st :=
    match currentObject (cur st) with
    | None =>
        let st := kdWarning "Invalid object spec, using '???'" st in
        upd_cur (set_currentObject (Some (data_object _objDummy))) st
    | Some _ => st
    end in
  let st := upd_cur (fun c => set_currentPartObject (partObject (currentObject c)) c) st in
  let st := upd_cur (set_currentFunction None) st in
  upd_cur (set_currentPartFunction None) st.

Definition setCalledObject (name : string) (st : CachegrindLoader) : CachegrindLoader :=
  let '(o, st) := compressedObject name st in
  let st := upd_call (set_currentCalledObject o) st in
  let st :=
    match currentCalledObject (call st) with
    | None =>
        let st := kdWarning "Invalid called object spec, using '???'" st in
        upd_call (set_currentCalledObject (Some (data_object _objDummy))) st
    | Some _ => st
    end in
  upd_call (fun c => set_currentCalledPartObject (partObject (currentCalledObject c)) c) st.

(** "make sure that a valid file is set, at least dummy '???'" *)
Definition ensureFile (st : CachegrindLoader) : CachegrindLoader :=
  match currentFile (cur st) with
  | Some _ => st
  | None =>
      let st := kdWarning "Source file name not set. Using '???'" st in
      let st := upd_cur (set_currentFile (Some (data_file _fileDummy))) st in
      upd_cur (fun c => set_currentPartFile (partFile (currentFile c)) c) st
  end.

Definition setFile (name : string) (st : CachegrindLoader) : CachegrindLoader :=
  let '(f, st) := compressedFile name st in
  let st := upd_cur (set_currentFile f) st in
  let st :=
    match currentFile (cur st) with
    | None =>
        let st := kdWarning "Invalid file spec, using '???'" st in
        upd_cur (set_currentFile (Some (data_file _fileDummy))) st
    | Some _ => st
    end in
  let st := upd_cur (fun c => set_currentPartFile (partFile (currentFile c)) c) st in
  let st := upd_cur (set_currentLine None) st in
  upd_cur (set_currentPartLine None) st.

Definition setCalledFile (name : string) (st : CachegrindLoader) : CachegrindLoader :=
  let '(f, st) := compressedFile name st in
  let st := upd_call (set_currentCalledFile f) st in
  let st :=
    match currentCalledFile (call st) with
    | None =>
        let st := kdWarning "Invalid called file spec, using '???'" st in
        upd_call (set_currentCalledFile (Some (data_file _fileDummy))) st
    | Some _ => st
    end in
  upd_call (fun c => set_currentCalledPartFile (partFile (currentCalledFile c)) c) st.

(** [_data->function(_functionDummy, 0, 0)] stored into a cursor field. *)
Definition dummyFunction (st : CachegrindLoader) : TraceFunction * CachegrindLoader :=
  let '(f, d) := data_function _functionDummy None None (_data st) in
  (f, set__data d st).

Definition ensureFunction (st : CachegrindLoader) : CachegrindLoader :=
  match currentFunction (cur st) with
  | Some _ => st
  | None =>
      let st := kdWarning "function name not set. Using '???'" st in
      let '(f, st) := dummyFunction st in
      let st := upd_cur (set_currentFunction (Some f)) st in
      upd_cur (fun c => set_currentPartFunction (partFunction (currentFunction c)) c) st
  end.

Definition setFunction (name : string) (st : CachegrindLoader) : Outcome unit :=
  let st := ensureFile st in
  let st := ensureObject st in
  match compressedFunction name (currentFile (cur st)) (currentObject (cur st)) st with
  | Fault st => Fault st
  | Done f st =>
      let st := upd_cur (set_currentFunction f) st in
      let st :=
        match currentFunction (cur st) with
        | None =>
            let st := kdWarning "Invalid function, using '???'" st in
            let '(f, st) := dummyFunction st in
            upd_cur (set_currentFunction (Some f)) st
        | Some _ => st
        end in
      let st :=
        upd_cur (fun c => set_currentPartFunction (partFunction (currentFunction c)) c) st in
      let st := upd_cur (set_currentFunctionSource None) st in
      let st := upd_cur (set_currentLine None) st in
      Done tt (upd_cur (set_currentPartLine None) st)
  end.

Definition setCalledFunction (name : string) (st : CachegrindLoader) : Outcome unit :=
  (* if called object/file not set, use current object/file *)
  let st :=
    match currentCalledObject (call st) with
    | None =>
        let st := upd_call (set_currentCalledObject (currentObject (cur st))) st in
        upd_call (set_currentCalledPartObject (currentPartObject (cur st))) st
    | Some _ => st
    end in
  let st :=
    match currentCalledFile (call st) with
    | None =>
        (* !=0 as functions needs file *)
        let st := upd_call (set_currentCalledFile (currentFile (cur st))) st in
        upd_call (set_currentCalledPartFile (currentPartFile (cur st))) st
    | Some _ => st
    end in
  match compressedFunction name (currentCalledFile (call st))
          (currentCalledObject (call st)) st with
  | Fault st => Fault st
  | Done f st =>
      let st := upd_call (set_currentCalledFunction f) st in
      let st :=
        match currentCalledFunction (call st) with
        | None =>
            let st := kdWarning "Invalid called function, using '???'" st in
            let '(f, st) := dummyFunction st in
            upd_call (set_currentCalledFunction (Some f)) st
        | Some _ => st
        end in
      Done tt
        (upd_call
           (fun c => set_currentCalledPartFunction
                       (partFunction (currentCalledFunction c)) c) st)
  end.

Definition clearPosition (st : CachegrindLoader) : CachegrindLoader :=
  let st := set_currentPos PositionSpec0 st in
  (* current function/line *)
  let st := set_cur (mkCurrentFunction None None None None None None None
                       None None None None) st in
  (* current call *)
  let st := set_call (mkCurrentCall None None None None None None 0) st in
  (* current jump *)
  let st := set_jump (mkCurrentJump None None PositionSpec0 0 0) st in
  set_subMapping None st.

(* ================================================================== *)
(** ** Event vectors *)

(** Modelled from the spec: an event vector is "the ordered tuple of unsigned
    integer counters declared by [events:]"; a vector shorter than another
    stands for the same vector padded with zeros.  [SubCost] arithmetic is
    that of [uint64]. *)
Fixpoint addCostVec (a b : list Z) : list Z :=
  match a, b with
  | [], _ => b
  | _, [] => a
  | x :: a', y :: b' => wrap64 (x + y) :: addCostVec a' b'
  end.

Fixpoint maxCostVec (a b : list Z) : list Z :=
  match a, b with
  | [], _ => b
  | _, [] => a
  | x :: a', y :: b' => Z.max x y :: maxCostVec a' b'
  end.

Definition sumCosts (l : list (list Z)) : list Z := foldr addCostVec [] l.

(** Modelled from the spec: "every subsequent cost vector has N unsigned
    integers": the vector decoded from the rest of a cost line, at most
    [count] numbers, up to the first column that is no number. *)
Fixpoint parseCostsN (n : nat) (s : FixString) : list Z :=
  match n with
  | O => []
  | S n' =>
      match stripUInt64 true s with
      | (true, v, r) => v :: parseCostsN n' r
      | (false, _, _) => []
      end
  end.

Definition parseCosts (sm : TraceSubMapping) (line : FixString) : list Z :=
  parseCostsN (count sm) (stripSpaces line).

(** The white space separated words of a line. *)
Fixpoint wordsAcc (s : string) (w : string) : list string :=
  match s with
  | EmptyString =>
      match w with
      | EmptyString => []
      | _ => [revStr w EmptyString]
      end
  | String c s' =>
      if isSpace c then
        match w with
        | EmptyString => wordsAcc s' EmptyString
        | _ => revStr w EmptyString :: wordsAcc s' EmptyString
        end
      else wordsAcc s' (String c w)
  end.

(** Modelled from the spec: [_data->mapping()->subMapping(line)], the schema
    of the "N whitespace-separated event names" of an [events:] line. *)
Definition data_subMapping (line : FixString) : TraceSubMapping :=
  mkSubMapping (wordsAcc line EmptyString).

(** Modelled from the spec: the cost of the part as a cost item, "the
    pointwise sum of per-function part projections".  A [FixCost] is
    chained to the part function it was created with
    ([partFunction->setFirstFixCost(this)]); the projection of a function
    sums its chain. *)
Definition partFunctions (p : TracePart) : list TracePartFunction :=
  remove_dups (omap fcPartFunction (fixCosts p)).

Definition partFunctionCost (pf : TracePartFunction) (p : TracePart) : list Z :=
  sumCosts (map fcCost
              (filter (fun fc => fcPartFunction fc = Some pf) (fixCosts p))).

Definition partCost (p : TracePart) : list Z :=
  sumCosts (map (fun pf => partFunctionCost pf p) (partFunctions p)).

(** [TraceCost::clear] and [TraceCost::addCost] of a cost item, on the
    totals. *)
Definition clearCost (c : list Z) : list Z := [].
Definition addCost (c : list Z) (item : list Z) : list Z := addCostVec c item.

(* ================================================================== *)
(** ** The line loop of [loadTraceInternal] *)

(** What a pass through the body of [while (file.nextLine(line))] ends in:
    [continue] (or the end of the body), [return], or the fault of a call
    in the body. *)
Inductive StepResult :=
| Continue (st : CachegrindLoader)
| Return (result : bool) (st : CachegrindLoader)
| Crash (st : CachegrindLoader).

(** A call of a setter followed by [continue]. *)
Definition continueAfter (o : Outcome unit) : StepResult :=
  match o with
  | Done _ st => Continue st
  | Fault st => Crash st
  end.

(** The end of the [else] branch, after the [switch]. *)
Definition invalidLine (st : CachegrindLoader) : StepResult :=
  Continue (kdWarning "invalid line" st).

(** [line.stripUInt64(currentCallCount); nextLineType = CallCost;] *)
Definition armCallCost (line : FixString) (st : CachegrindLoader) : CachegrindLoader :=
  let '(_, v, _) := stripUInt64 true line in
  let st := upd_call (set_currentCallCount v) st in
  set_nextLineType CallCost st.

Definition case_f (line : FixString) (st : CachegrindLoader) : StepResult :=
  (* fl=, fi=, fe= *)
  match stripPrefix "l=" line, stripPrefix "i=" line, stripPrefix "e=" line with
  | Some line, _, _ | None, Some line, _ | None, None, Some line =>
      Continue (setFile line st)
  | None, None, None =>
      (* fn= *)
      match stripPrefix "n=" line with
      | Some line =>
          (* the progress signal of a new function is not part of the state *)
          continueAfter (setFunction line st)
      | None => invalidLine st
      end
  end.

Definition case_c (line : FixString) (st : CachegrindLoader) : StepResult :=
  match stripPrefix "ob=" line with
  | Some line => Continue (setCalledObject line st)
  | None =>
  match stripPrefix "fi=" line with
  | Some line => Continue (setCalledFile line st)
  | None =>
  match stripPrefix "fn=" line with
  | Some line => continueAfter (setCalledFunction line st)
  | None =>
  match stripPrefix "alls=" line with
  | Some line => Continue (armCallCost line st)
  | None =>
  match stripPrefix "md:" line with
  | Some line =>
      let command' := stripWhiteSpace line in
      let st :=
        if negb (String.eqb (command (_data st)) EmptyString)
           && negb (String.eqb (command (_data st)) command')
        then kdWarning "redefined command" st
        else st in
      Continue (upd_data (set_command command') st)
  | None =>
  match stripPrefix "reator:" line with
  | Some _ => Continue st
  | None => invalidLine st
  end end end end end end.

Definition case_j (line : FixString) (st : CachegrindLoader) : StepResult :=
  match stripPrefix "cnd=" line with
  | Some line =>
      let '(ok1, v, line) := stripUInt64 true line in
      let st := upd_jump (set_jumpsFollowed v) st in
      let '(valid, st) :=
        if ok1 then
          match stripPrefix "/" line with
          | Some line =>
              let '(ok2, v, line) := stripUInt64 true line in
              let st := upd_jump (set_jumpsExecuted v) st in
              if ok2 then
                let '(ok3, _, st) := parsePosition RefTargetPos line st in (ok3, st)
              else (false, st)
          | None => (false, st)
          end
        else (false, st) in
      Continue (if valid then set_nextLineType CondJump st
                else kdError "invalid jcnd line" st)
  | None =>
  match stripPrefix "ump=" line with
  | Some line =>
      let '(ok1, v, line) := stripUInt64 true line in
      let st := upd_jump (set_jumpsExecuted v) st in
      let '(valid, st) :=
        if ok1 then
          let '(ok2, _, st) := parsePosition RefTargetPos line st in (ok2, st)
        else (false, st) in
      Continue (if valid then set_nextLineType BoringJump st
                else kdError "invalid jump line" st)
  | None =>
  match stripPrefix "fi=" line with
  | Some line =>
      let '(f, st) := compressedFile line st in
      Continue (upd_jump (set_currentJumpToFile f) st)
  | None =>
  match stripPrefix "fn=" line with
  | Some line =>
      let st :=
        match currentJumpToFile (jump st) with
        | None =>
            (* !=0 as functions needs file *)
            upd_jump (set_currentJumpToFile (currentFile (cur st))) st
        | Some _ => st
        end in
      match compressedFunction line (currentJumpToFile (jump st))
              (currentObject (cur st)) st with
      | Done f st => Continue (upd_jump (set_currentJumpToFunction f) st)
      | Fault st => Crash st
      end
  | None => invalidLine st
  end end end end.

Definition case_o (line : FixString) (st : CachegrindLoader) : StepResult :=
  match stripPrefix "b=" line with
  | Some line => Continue (setObject line st)
  | None => invalidLine st
  end.

Definition case_t (line : FixString) (st : CachegrindLoader) : StepResult :=
  match stripPrefix "otals:" line with
  | Some _ => Continue st
  | None =>
  match stripPrefix "hread:" line with
  | Some line => Continue (upd_part (set_threadID (toInt line)) st)
  | None =>
  match stripPrefix "imeframe (BB):" line with
  | Some line => Continue (upd_part (set_timeframe line) st)
  | None => invalidLine st
  end end end.

Definition case_d (line : FixString) (st : CachegrindLoader) : StepResult :=
  match stripPrefix "esc:" line with
  | Some line =>
      let line := stripSurroundingSpaces line in
      (* desc: Trigger: *)
      match stripPrefix "Trigger:" line with
      | Some line => Continue (upd_part (set_trigger line) st)
      | None => Continue st
      end
  | None => invalidLine st
  end.

Definition case_e (line : FixString) (st : CachegrindLoader) : StepResult :=
  match stripPrefix "vents:" line with
  | Some line =>
      let st := set_subMapping (Some (data_subMapping line)) st in
      Continue (upd_part (set_fixSubMapping (subMapping st)) st)
  | None =>
  (* event:<name>[=<formula>][:<long name>] *)
  match stripPrefix "vent:" line with
  | Some line =>
      let line := stripSurroundingSpaces line in
      match stripName line with
      | None => Continue (kdError "invalid event" st)
      | Some (e, line) =>
          let line := stripSpaces line in
          match stripFirst line with
          | None => Continue st
          | Some (c, line) =>
              let '(f, line) :=
                if Ascii.eqb c "=" then stripUntil ":" line
                else (EmptyString, line) in
              let line := stripSpaces line in
              (* add to known cost types *)
              let line := match line with EmptyString => e | _ => line end in
              Continue (upd_data (fun d => set_costTypes (costTypes d ++ [(e, line, f)]) d) st)
          end
      end
  | None => invalidLine st
  end end.

Definition case_p (line : FixString) (st : CachegrindLoader) : StepResult :=
  match stripPrefix "art:" line with
  | Some line => Continue (upd_part (set_partNumber (toInt line)) st)
  | None =>
  match stripPrefix "id:" line with
  | Some line => Continue (upd_part (set_processID (toInt line)) st)
  | None =>
  match stripPrefix "ositions:" line with
  | Some positions =>
      let st := set_hasLineInfo (0 <=? find "line" positions) st in
      Continue (set_hasAddrInfo (0 <=? find "instr" positions) st)
  | None => invalidLine st
  end end end.

Definition case_v (line : FixString) (st : CachegrindLoader) : StepResult :=
  match stripPrefix "ersion:" line with
  | Some line => Continue (upd_part (set_version line) st)
  | None => invalidLine st
  end.

Definition case_r (line : FixString) (st : CachegrindLoader) : StepResult :=
  (* rcalls= (deprecated) *)
  match stripPrefix "calls=" line with
  | Some line =>
      let st := armCallCost line st in
      Continue (kdDebug "WARNING: This trace dump was generated by an old version" st)
  | None => invalidLine st
  end.

(** [case 's'] has no [break]: a line that is no [summary:] line is tried
    as [case 'r']. *)
Definition case_s (line : FixString) (st : CachegrindLoader) : StepResult :=
  match stripPrefix "ummary:" line with
  | Some line =>
      match subMapping st with
      | None => Return false (kdError "No event line found. Skipping" st)
      | Some sm => Continue (upd_part (set_totals (parseCosts sm line)) st)
      end
  | None => case_r line st
  end.

(** [switch(c)] *)
Definition headerLine (c : ascii) (line : FixString) (st : CachegrindLoader)
  : StepResult :=
  match c with
  | "f"%char => case_f line st
  | "c"%char => case_c line st
  | "j"%char => case_j line st
  | "o"%char => case_o line st
  | "#"%char => Continue st
  | "t"%char => case_t line st
  | "d"%char => case_d line st
  | "e"%char => case_e line st
  | "p"%char => case_p line st
  | "v"%char => case_v line st
  | "s"%char => case_s line st
  | "r"%char => case_r line st
  | _ => invalidLine st
  end.

(** Modelled from the spec: fixcost.h, which is not part of the sources at
    hand, sets [USE_FIXCOST]; the spec's "per-part cost arena" is the pool
    of the [#if USE_FIXCOST] branches, which are the ones embedded here. *)

(** [currentFunction->sourceFile(currentFile, true)] *)
Definition sourceFile (f : option TraceFunction) (file : option TraceFile)
  : option TraceFunctionSource :=
  (fun f => mkFunctionSource f file) <$> f.

(** The rest of the loop body, after the [if (c <= '9') ... else ...]: the
    line is a cost line. *)
Definition costLine (line : FixString) (st : CachegrindLoader) : StepResult :=
  match subMapping st with
  | None => Return false (kdError "No event line found. Skipping" st)
  | Some sm =>
      (* for a cost line, we always need a current function *)
      let st := ensureFunction st in
      let st :=
        match currentFunctionSource (cur st) with
        | Some fs =>
            if bool_decide (sourceOfFile fs <> currentFile (cur st))
            then upd_cur (set_currentFunctionSource
                            (sourceFile (currentFunction (cur st)) (currentFile (cur st)))) st
            else st
        | None =>
            upd_cur (set_currentFunctionSource
                       (sourceFile (currentFunction (cur st)) (currentFile (cur st)))) st
        end in
      (* create cost item *)
      match nextLineType st with
      | SelfCost =>
          let fc := mkFixCost (currentFunctionSource (cur st)) (currentPos st)
                      (currentPartFunction (cur st)) (parseCosts sm line) in
          Continue (upd_part (fun p => set_fixCosts (fixCosts p ++ [fc]) p) st)
      | CallCost =>
          let st := set_nextLineType SelfCost st in
          let calling :=
            (fun f => mkCall f (currentCalledFunction (call st)))
              <$> currentFunction (cur st) in
          let partCalling := mkPartCall <$> calling in
          let fcc := mkFixCallCost (currentFunctionSource (cur st))
                       (if hasLineInfo st then fromLine (currentPos st) else 0)
                       (if hasAddrInfo st then fromAddr (currentPos st) else 0)
                       partCalling (currentCallCount (call st))
                       (parseCosts sm line) in
          let st := upd_part (fun p => set_fixCallCosts (fixCallCosts p ++ [fcc]) p) st in
          let st := upd_data (fun d => set_callMax (maxCostVec (callMax d) (fccCost fcc)) d) st in
          let st := upd_call (set_currentCalledFile None) st in
          let st := upd_call (set_currentCalledPartFile None) st in
          let st := upd_call (set_currentCalledObject None) st in
          let st := upd_call (set_currentCalledPartObject None) st in
          Continue (upd_call (set_currentCallCount 0) st)
      | BoringJump | CondJump =>
          let st :=
            match currentJumpToFunction (jump st) with
            | None => upd_jump (set_currentJumpToFunction (currentFunction (cur st))) st
            | Some _ => st
            end in
          let targetSource :=
            match currentJumpToFile (jump st) with
            | Some file => sourceFile (currentJumpToFunction (jump st)) (Some file)
            | None => currentFunctionSource (cur st)
            end in
          let fj := mkFixJump
                      (* source *)
                      (if hasLineInfo st then fromLine (currentPos st) else 0)
                      (if hasAddrInfo st then fromAddr (currentPos st) else 0)
                      (currentPartFunction (cur st))
                      (currentFunctionSource (cur st))
                      (* target *)
                      (if hasLineInfo st then fromLine (targetPos (jump st)) else 0)
                      (if hasAddrInfo st then fromAddr (targetPos (jump st)) else 0)
                      (currentJumpToFunction (jump st))
                      targetSource
                      (match nextLineType st with CondJump => true | _ => false end)
                      (jumpsExecuted (jump st)) (jumpsFollowed (jump st)) in
          let st := upd_part (fun p => set_fixJumps (fixJumps p ++ [fj]) p) st in
          let st := set_nextLineType SelfCost st in
          let st := upd_jump (set_currentJumpToFunction None) st in
          Continue (upd_jump (set_currentJumpToFile None) st)
      end
  end.

(** The body of [while (file.nextLine(line))]. *)
Definition processLine (line : FixString) (st : CachegrindLoader) : StepResult :=
  let st := set__lineNo (_lineNo st + 1) st in
  (* if we cannot strip a character, this was an empty line *)
  match first line with
  | None => Continue st
  | Some c =>
      if char_le c "9" then
        (* parse position(s) *)
        let '(ok, line, st) := parsePosition RefCurrentPos line st in
        if negb ok then Continue st
        else (* go through after big switch *) costLine line st
      else
        headerLine c (tailStr line) st
  end.

Fixpoint loadLines (lines : list FixString) (st : CachegrindLoader) : StepResult :=
  match lines with
  | [] => Continue st
  | line :: rest =>
      match processLine line st with
      | Continue st => loadLines rest st
      | Return b st => Return b st
      | Crash st => Crash st
      end
  end.

(** The loader at the head of the loop: compression and position cleared,
    part and data attached, "default if there's no positions: line". *)
Definition loaderStart (part : TracePart) (data : TraceData)
    (l : CachegrindLoader) : CachegrindLoader :=
  let st := clearCompression l in
  let st := clearPosition st in
  let st := set__part part st in
  let st := set__data data st in
  let st := set__lineNo 0 st in
  (* current position *)
  let st := set_nextLineType SelfCost st in
  let st := set_hasLineInfo true st in
  set_hasAddrInfo false st.

(** Modelled from the spec: the line-oriented file reader "yields one logical
    line at a time"; the file is the list of its lines, [None] when the part
    has no file or the file does not exist. *)
Definition loadTraceInternal (part : TracePart) (data : TraceData)
    (file : option (list FixString)) (l : CachegrindLoader)
  : Outcome bool :=
  match file with
  | None =>
      let st := clearPosition (clearCompression l) in
      Done false (set__data data (set__part part st))
  | Some lines =>
      let totalsSet := false in
      match loadLines lines (loaderStart part data l) with
      | Crash st => Fault st
      | Return b st => Done b st
      | Continue st =>
          let st := upd_part (set_invalidated true) st in
          let st :=
            if negb totalsSet then
              let st := upd_part (fun p => set_totals (clearCost (totals p)) p) st in
              upd_part (fun p => set_totals (addCost (totals p) (partCost p)) p) st
            else st in
          Done true st
      end
  end.

(** The constructor, and [loadTrace], which does "the loading in a new
    object so parallel load operations do not interfere each other". *)
Definition newCachegrindLoader (part : TracePart) (data : TraceData)
  : CachegrindLoader :=
  mkCachegrindLoader 0 None data part SelfCost false false PositionSpec0
    (mkCurrentFunction None None None None None None None None None None None)
    (mkCurrentCall None None None None None None 0)
    (mkCurrentJump None None PositionSpec0 0 0)
    [] [] [] [].

Definition loadTrace (part : TracePart) (data : TraceData)
    (file : option (list FixString)) : Outcome bool :=
  loadTraceInternal part data file (newCachegrindLoader part data).

(** A part and a graph store nothing has been loaded into. *)
Definition emptyPart : TracePart :=
  mkTracePart 0 EmptyString EmptyString 0 0 EmptyString None [] [] [] [] false.
Definition emptyData : TraceData := mkTraceData [] EmptyString [] [].

(* ================================================================== *)
(** ** Format detection *)

(** The buffer as a C string: the bytes before the first NUL. *)
Definition cString (buf : string) : string :=
  fst (spanStr (fun c => negb (Ascii.eqb c "000")) buf).

(** [CachegrindLoader::canLoadTrace]: "We recognize this as cachegrind format
    if in the first 2047 bytes we see the string \nevents:".  The file is
    its bytes, [None] for a null or unreadable file. *)
Definition canLoadTrace (file : option string) : bool :=
  match file with
  | None => false
  | Some bytes =>
      let buf := takeStr 2047 bytes in
      let s := cString buf in
      let pos := find "events:" s in
      let pos :=
        if (0 <? pos) && negb (Ascii.eqb (strAt (Z.to_nat (pos - 1)) buf) "010")
        then -1 else pos in
      0 <=? pos
  end.

(* ================================================================== *)
(** ** Definitions used by the statements *)

(** Where a pass through the loop body leaves the loader. *)
Definition state_of (r : StepResult) : CachegrindLoader :=
  match r with
  | Continue st => st
  | Return _ st => st
  | Crash st => st
  end.

(** [st'] differs from [st] in the two positions and the log only. *)
Definition posFrame (st st' : CachegrindLoader) : Prop :=
  exists p t log,
    st' = set_kdLog log (set_currentPos p (upd_jump (set_targetPos t) st)).

(** A string that does not go on with a digit. *)
Definition noDigitHead (s : string) : Prop :=
  match s with
  | String c _ => isDigit c = false
  | EmptyString => True
  end.

(** The warning of the line column for a subtraction below zero. *)
Definition negativeLineWarning : Diagnostic :=
  mkDiagnostic KdWarning "CachegrindLoader::parsePosition: negative line number ?!".

(** The line is taken as a cost line by the loop body: its first character
    is at most ['9'] and [parsePosition] accepts it. *)
Definition isCostLine (line : FixString) (st : CachegrindLoader) : bool :=
  match first line with
  | Some c =>
      char_le c "9"
      && fst (fst (parsePosition RefCurrentPos line (set__lineNo (_lineNo st + 1) st)))
  | None => false
  end.

(** The loader [loadTrace] starts the loop with, for a new part and an empty
    graph store. *)
Definition exampleLoader : CachegrindLoader :=
  loaderStart emptyPart emptyData (newCachegrindLoader emptyPart emptyData).

(** A line feed. *)
Definition LF : string := String "010" EmptyString.

(** The fields of the loader that no entity-binding line writes. *)
Definition core (st : CachegrindLoader) :=
  (_lineNo st, subMapping st, _part st, nextLineType st,
   hasLineInfo st, hasAddrInfo st, currentPos st).

(** The cost arena of the loader's part. *)
Definition arena (st : CachegrindLoader) :=
  (fixCosts (_part st), fixCallCosts (_part st), fixJumps (_part st)).

(** The current function comes with its part projection. *)
Definition functionCursorOk (st : CachegrindLoader) : Prop :=
  currentFunction (cur st) <> None -> currentPartFunction (cur st) <> None.

(** What a [fl=], [fi=] or [fe=] line does to the line and instruction
    cursors of the loader: [st] before the line, [st'] after it. *)
Definition fileLineEffect (st st' : CachegrindLoader) : Prop :=
  currentLine (cur st') = None /\
  currentPartLine (cur st') = None /\
  currentInstr (cur st') = currentInstr (cur st) /\
  currentPartInstr (cur st') = currentPartInstr (cur st).

(** What a [fn=] line does to the cursors other than the function: an object
    or file cursor that is set stays, one that is not set becomes the
    ['???'] dummy. *)
Definition functionLineEffect (st st' : CachegrindLoader) : Prop :=
  currentFunctionSource (cur st') = None /\
  currentLine (cur st') = None /\
  currentPartLine (cur st') = None /\
  currentInstr (cur st') = currentInstr (cur st) /\
  currentPartInstr (cur st') = currentPartInstr (cur st) /\
  currentObject (cur st') = Some (default (data_object _objDummy) (currentObject (cur st))) /\
  currentFile (cur st') = Some (default (data_file _fileDummy) (currentFile (cur st))).

(** What the cost line of a call does to the call target cursor and the
    pending record type. *)
Definition callCostLineEffect (st st' : CachegrindLoader) : Prop :=
  nextLineType st' = SelfCost /\
  currentCalledObject (call st') = None /\
  currentCalledPartObject (call st') = None /\
  currentCalledFile (call st') = None /\
  currentCalledPartFile (call st') = None /\
  currentCallCount (call st') = 0 /\
  currentCalledFunction (call st') = currentCalledFunction (call st) /\
  currentCalledPartFunction (call st') = currentCalledPartFunction (call st).

(** The three cursor groups of the loader. *)
Definition cursors (st : CachegrindLoader) := (cur st, call st, jump st).

(** The position columns the loader expects on a cost line. *)
Definition columns (st : CachegrindLoader) := (hasLineInfo st, hasAddrInfo st).

(** The instruction cursor. *)
Definition instrCursor (st : CachegrindLoader) :=
  (currentInstr (cur st), currentPartInstr (cur st)).

(** What every line other than a cost line keeps: the cost arena, the
    instruction cursor, and the part projection of the current function. *)
Definition lineFrame (st st' : CachegrindLoader) : Prop :=
  arena st' = arena st /\
  instrCursor st' = instrCursor st /\
  (functionCursorOk st -> functionCursorOk st').

(** What an entity-binding handler keeps. *)
Definition entityFrame (st st' : CachegrindLoader) : Prop :=
  core st' = core st /\
  instrCursor st' = instrCursor st /\
  (functionCursorOk st -> functionCursorOk st').

(** Every self-cost record of the arena is chained to a part function. *)
Definition arenaOk (st : CachegrindLoader) : Prop :=
  Forall (fun fc => fcPartFunction fc <> None) (fixCosts (_part st)).

(** *** Compression lines

    The value of an entity-binding line in compressed form: a definition
    [(N) name] or a reference [(N)], [N] given by its decimal digits. *)
Inductive CompLine :=
| CompDef (digits name : string)
| CompRef (digits : string).

Definition compDigits (c : CompLine) : string :=
  match c with
  | CompDef ds _ => ds
  | CompRef ds => ds
  end.

Definition compId (c : CompLine) : Z := decimalValue (compDigits c).

Definition compText (c : CompLine) : string :=
  match c with
  | CompDef ds name => "(" +:+ ds +:+ ") " +:+ name
  | CompRef ds => "(" +:+ ds +:+ ")"
  end.

(** The id is a decimal number below 2^31. *)
Definition wfCompLine (c : CompLine) : Prop :=
  compDigits c <> EmptyString /\ allDigits (compDigits c) = true /\ compId c < 2 ^ 31.










(** The slot of a vector as a reference reads it: null beyond the size. *)
Definition vget {T} (v : list (option T)) (i : Z) : option T :=
  if vsize v <=? i then None else vat i v.




(* ================================================================== *)
(** ** Further definitions used by the statements *)

(** A string that does not go on with a range specification. *)
Definition noRangeHead (s : string) : Prop :=
  match s with
  | String c _ =>
      Ascii.eqb c "+" = false /\ Ascii.eqb c "-" = false /\ Ascii.eqb c ":" = false
  | EmptyString => True
  end.

(** The loader expects a line column and no address column, the default. *)
Definition lineOnly (st : CachegrindLoader) : Prop :=
  hasAddrInfo st = false /\ hasLineInfo st = true.

(** A number in decimal digits. *)
Definition isNumber (ds : string) : Prop :=
  ds <> EmptyString /\ allDigits ds = true.

(** [st'] differs from [st] in the target position of the jump cursor and
    the log only. *)
Definition targetFrame (st st' : CachegrindLoader) : Prop :=
  exists t log, st' = set_kdLog log (upd_jump (set_targetPos t) st).

(** The cost arena of [st'] goes on from that of [st]: each of its three
    lists starts with the list of [st]. *)
Definition arenaGrows (st st' : CachegrindLoader) : Prop :=
  fixCosts (_part st) `prefix_of` fixCosts (_part st') /\
  fixCallCosts (_part st) `prefix_of` fixCallCosts (_part st') /\
  fixJumps (_part st) `prefix_of` fixJumps (_part st').

(** The number of records of the cost arena. *)
Definition arenaSize (st : CachegrindLoader) : nat :=
  length (fixCosts (_part st)) + length (fixCallCosts (_part st))
  + length (fixJumps (_part st)).

(** A line that is empty or starts below the digits with a character that
    begins no position: a comment, a blank, a control character or a byte
    above 127 (a negative [char]). *)
Definition belowDigits (line : FixString) : Prop :=
  match line with
  | EmptyString => True
  | String c _ =>
      char_lt c "0" = true /\ Ascii.eqb c "*" = false /\
      Ascii.eqb c "+" = false /\ Ascii.eqb c "-" = false
  end.

(** The loader expects no position column at all, as after a [positions:]
    line that names neither [line] nor [instr]. *)
Definition noColumns (st : CachegrindLoader) : Prop :=
  hasAddrInfo st = false /\ hasLineInfo st = false.

(** The warning of [ensureFunction]. *)
Definition functionNotSetWarning : Diagnostic :=
  mkDiagnostic KdWarning "function name not set. Using '???'".

(** A first character that is above ['9'] and opens none of the cases of
    the [switch]. *)
Definition unknownHead (c : ascii) : Prop :=
  char_le c "9" = false /\
  forallb (fun k => negb (Ascii.eqb c k))
    ["f"; "c"; "j"; "o"; "#"; "t"; "d"; "e"; "p"; "v"; "s"; "r"]%char = true.

(** The results of a pass through the loop body that end the loop. *)
Definition returned (r : StepResult) : Prop :=
  match r with
  | Return _ _ => True
  | _ => False
  end.

Definition crashed (r : StepResult) : Prop :=
  match r with
  | Crash _ => True
  | _ => False
  end.

(** What every pass through the loop body keeps, [st] being the loader
    after the line counter was stepped: the counter and the running
    position (a cost line apart); a schema that is set stays set and the
    pass does not return; an object cursor that is set stays set and the
    pass does not fault. *)
Definition sturdy (st : CachegrindLoader) (r : StepResult) : Prop :=
  _lineNo (state_of r) = _lineNo st /\
  currentPos (state_of r) = currentPos st /\
  (subMapping st <> None -> subMapping (state_of r) <> None /\ ~ returned r) /\
  (currentObject (cur st) <> None ->
   currentObject (cur (state_of r)) <> None /\ ~ crashed r).

(** A line of the header that cannot end the loop: it is empty or starts
    above ['9'], and it is no [summary:], [cfn=] or [jfn=] line. *)
Definition plainHeader (line : FixString) : Prop :=
  (forall c, first line = Some c -> char_le c "9" = false) /\
  stripPrefix "summary:" line = None /\
  stripPrefix "cfn=" line = None /\
  stripPrefix "jfn=" line = None.

(** An [events:] line, and a line that sets the object cursor. *)
Definition eventsLine (line : FixString) : Prop :=
  stripPrefix "events:" line <> None.

Definition objectLine (line : FixString) : Prop :=
  stripPrefix "ob=" line <> None \/ stripPrefix "fn=" line <> None.


(* ================================================================== *)
(** ** Frame of the position parser *)

Ltac split_cases := repeat (case_match; simplify_eq).

Lemma posFrame_refl st : posFrame st st.
Proof.
  exists (currentPos st), (targetPos (jump st)), (kdLog st).
  destruct st as [? ? ? ? ? ? ? ? ? ? [] ? ? ? ?]; reflexivity.
Qed.

Lemma posFrame_trans a b c : posFrame a b -> posFrame b c -> posFrame a c.
Proof.
  intros (p & t & l & ->) (p' & t' & l' & ->).
  exists p', t', l'. destruct a as [? ? ? ? ? ? ? ? ? ? [] ? ? ? ?]; reflexivity.
Qed.

Lemma posFrame_updPos r f st : posFrame st (updPos r f st).
Proof.
  destruct r; unfold updPos.
  - exists (f (currentPos st)), (targetPos (jump st)), (kdLog st).
    destruct st as [? ? ? ? ? ? ? ? ? ? [] ? ? ? ?]; reflexivity.
  - exists (currentPos st), (f (targetPos (jump st))), (kdLog st).
    destruct st as [? ? ? ? ? ? ? ? ? ? [] ? ? ? ?]; reflexivity.
Qed.

Lemma posFrame_kdWarning m st : posFrame st (kdWarning m st).
Proof.
  exists (currentPos st), (targetPos (jump st)), (kdLog st ++ [mkDiagnostic KdWarning m])%list.
  destruct st as [? ? ? ? ? ? ? ? ? ? [] ? ? ? ?]; reflexivity.
Qed.

Ltac posframe_step :=
  first [ apply posFrame_refl
        | apply posFrame_updPos
        | apply posFrame_kdWarning
        | eapply posFrame_trans; [ | apply posFrame_updPos ]
        | eapply posFrame_trans; [ | apply posFrame_kdWarning ] ].

Lemma parseAddrColumn_frame r line st line' st' :
  parseAddrColumn r line st = Some (line', st') -> posFrame st st'.
Proof.
  unfold parseAddrColumn, addrRange. intros H.
  repeat (case_match; simplify_eq); repeat posframe_step.
Qed.

Lemma parseLineColumn_frame r line st line' st' :
  parseLineColumn r line st = Some (line', st') -> posFrame st st'.
Proof.
  unfold parseLineColumn, lineRange. intros H.
  repeat (case_match; simplify_eq); repeat posframe_step.
Qed.

Lemma parsePosition_frame r line st :
  posFrame st (snd (parsePosition r line st)).
Proof.
  unfold parsePosition.
  repeat (case_match; simplify_eq); simpl; try apply posFrame_refl.
  all: repeat match goal with
       | H : parseAddrColumn _ _ _ = Some _ |- _ => apply parseAddrColumn_frame in H
       | H : parseLineColumn _ _ _ = Some _ |- _ => apply parseLineColumn_frame in H
       end; eauto using posFrame_trans.
Qed.

Lemma parseAddrColumn_lines r line st line' st' :
  parseAddrColumn r line st = Some (line', st') ->
  fromLine (getPos r st') = fromLine (getPos r st) /\
  toLine (getPos r st') = toLine (getPos r st).
Proof.
  unfold parseAddrColumn, addrRange. intros H.
  destruct r; repeat (case_match; simplify_eq); auto.
Qed.


(* ================================================================== *)
(** ** Decimal numbers and strings *)

Lemma mod_step M x d : (10 * (x mod M) + d) mod M = (10 * x + d) mod M.
Proof.
  destruct (Z.eq_dec M 0) as [->|HM].
  - now rewrite !Z.mod_0_r.
  - rewrite <- (Z.add_mod_idemp_l (10 * (x mod M))) by assumption.
    rewrite Z.mul_mod_idemp_r by assumption.
    now rewrite Z.add_mod_idemp_l by assumption.
Qed.

Lemma decimalAcc_mod M ds : forall x,
  decimalAcc (x mod M) ds mod M = decimalAcc x ds mod M.
Proof.
  induction ds as [|c ds IH]; intros x; simpl.
  - destruct (Z.eq_dec M 0) as [->|HM]; [now rewrite !Z.mod_0_r | now apply Z.mod_mod].
  - rewrite <- (IH (10 * (x mod M) + digitVal c)), <- (IH (10 * x + digitVal c)).
    now rewrite mod_step.
Qed.

Lemma digitsAcc_app M ds rest : forall v,
  allDigits ds = true ->
  noDigitHead rest ->
  digitsAcc (fun z => z mod M) v (ds +:+ rest)
  = (match ds with EmptyString => v | _ => decimalAcc v ds mod M end, rest).
Proof.
  induction ds as [|c ds IH]; intros v Hd Hr.
  - change (EmptyString +:+ rest) with rest.
    destruct rest as [|c r]; [reflexivity|]. cbn [digitsAcc]. now rewrite Hr.
  - change (String c ds +:+ rest) with (String c (ds +:+ rest)).
    cbn [digitsAcc allDigits decimalAcc] in *.
    apply andb_prop in Hd as [Hc Hd]. rewrite Hc, IH by assumption.
    destruct ds as [|c' ds]; [reflexivity|].
    now rewrite decimalAcc_mod.
Qed.

Lemma stripUInt_digits skip ds rest :
  ds <> EmptyString -> allDigits ds = true -> noDigitHead rest ->
  stripUInt skip (ds +:+ rest)
  = (true, wrap32 (decimalValue ds), if skip then stripSpaces rest else rest).
Proof.
  intros Hne Hd Hr. unfold stripUInt, stripUIntW.
  destruct ds as [|c ds]; [congruence|]. 
  change (String c ds +:+ rest) with (String c (ds +:+ rest)).
  cbv iota beta.
  assert (Hc : isDigit c = true)
    by (cbn [allDigits] in Hd; now apply andb_prop in Hd).
  rewrite Hc.
  change (String c (ds +:+ rest)) with (String c ds +:+ rest).
  change wrap32 with (fun z => z mod 2 ^ 32).
  rewrite digitsAcc_app by assumption. reflexivity.
Qed.

Lemma isDigit_facts c :
  isDigit c = true ->
  Ascii.eqb ")" c = false /\ Ascii.eqb "(" c = false /\ isSpace c = false /\
  c <> "+"%char /\ c <> "-"%char /\ 0 <= digitVal c <= 9.
Proof.
  destruct c as [[] [] [] [] [] [] [] []]; vm_compute; intros H;
    try discriminate H; repeat split; congruence.
Qed.

Lemma app_cons c s t : String c s +:+ t = String c (s +:+ t).
Proof. reflexivity. Qed.

Lemma app_nil_l t : EmptyString +:+ t = t.
Proof. reflexivity. Qed.

Lemma app_nil_r s : s +:+ EmptyString = s.
Proof.
  induction s as [|c s IH]; [reflexivity|]. now rewrite app_cons, IH.
Qed.

Lemma slen_cons c s : slen (String c s) = 1 + slen s.
Proof. unfold slen. cbn [String.length]. lia. Qed.

Lemma slen_app s t : slen (s +:+ t) = slen s + slen t.
Proof.
  induction s as [|c s IH]; [reflexivity|].
  rewrite app_cons, !slen_cons, IH. lia.
Qed.

Lemma slen_nonneg s : 0 <= slen s.
Proof. unfold slen. lia. Qed.

Lemma dropStr_app s t : dropStr (String.length s) (s +:+ t) = t.
Proof. induction s as [|c s IH]; [reflexivity|]. exact IH. Qed.

Lemma takeStr_app s t : takeStr (String.length s) (s +:+ t) = s.
Proof.
  induction s as [|c s IH]; [destruct t; reflexivity|].
  rewrite app_cons. cbn [String.length takeStr]. now rewrite IH.
Qed.

Lemma findFrom_digits ds rest : forall i,
  allDigits ds = true ->
  findFrom ")" (ds +:+ String ")" rest) i = i + slen ds.
Proof.
  induction ds as [|c ds IH]; intros i Hd.
  - rewrite app_nil_l. unfold slen. cbn. lia.
  - cbn [allDigits] in Hd. apply andb_prop in Hd as [Hc Hd].
    rewrite app_cons, slen_cons. cbn [findFrom isPrefix].
    destruct (isDigit_facts c Hc) as (-> & _).
    cbn [andb]. rewrite IH by assumption. lia.
Qed.

Lemma revStr_revStr s : forall a b, revStr (revStr s a) b = revStr a (s +:+ b).
Proof.
  induction s as [|c s IH]; intros a b; [reflexivity|].
  cbn [revStr]. rewrite IH. reflexivity.
Qed.

Lemma allDigits_revStr s : forall a,
  allDigits (revStr s a) = allDigits s && allDigits a.
Proof.
  induction s as [|c s IH]; intros a; [reflexivity|].
  cbn [revStr allDigits]. rewrite IH. cbn [allDigits].
  destruct (isDigit c), (allDigits s), (allDigits a); reflexivity.
Qed.

Lemma dropWhile_isSpace_digits s : allDigits s = true -> dropWhile isSpace s = s.
Proof.
  destruct s as [|c s]; [reflexivity|]. cbn [allDigits dropWhile]. intros H.
  apply andb_prop in H as [Hc _].
  destruct (isDigit_facts c Hc) as (_ & _ & -> & _). reflexivity.
Qed.

Lemma stripWhiteSpace_digits s : allDigits s = true -> stripWhiteSpace s = s.
Proof.
  intros H. unfold stripWhiteSpace.
  rewrite (dropWhile_isSpace_digits s H).
  rewrite dropWhile_isSpace_digits
    by (rewrite allDigits_revStr, H; reflexivity).
  rewrite revStr_revStr. cbn [revStr]. apply app_nil_r.
Qed.

Lemma decimalAcc_nonneg s : forall v,
  allDigits s = true -> 0 <= v -> 0 <= decimalAcc v s.
Proof.
  induction s as [|c s IH]; intros v Hd Hv; [exact Hv|].
  cbn [allDigits] in Hd. apply andb_prop in Hd as [Hc Hd].
  cbn [decimalAcc]. apply IH; [assumption|].
  destruct (isDigit_facts c Hc) as (_ & _ & _ & _ & _ & Hv'). lia.
Qed.

Lemma toUInt_digits ds :
  ds <> EmptyString -> allDigits ds = true -> decimalValue ds < 2 ^ 32 ->
  toUInt ds = decimalValue ds.
Proof.
  intros Hne Hd Hr. unfold toUInt. rewrite (stripWhiteSpace_digits ds Hd).
  destruct ds as [|c ds]; [congruence|].
  assert (Hc : isDigit c = true)
    by (cbn [allDigits] in Hd; apply andb_prop in Hd; tauto).
  destruct (isDigit_facts c Hc) as (_ & _ & _ & Hplus & _).
  assert ((match String c ds with String "+" t' => t' | _ => String c ds end)
          = String c ds) as ->.
  { destruct c as [[] [] [] [] [] [] [] []]; try reflexivity. congruence. }
  rewrite Hd. rewrite (proj2 (Z.ltb_lt _ _)) by assumption. reflexivity.
Qed.

Lemma toInt_digits ds :
  ds <> EmptyString -> allDigits ds = true -> decimalValue ds < 2 ^ 31 ->
  wrap32 (toInt ds) = decimalValue ds.
Proof.
  intros Hne Hd Hr. unfold toInt. rewrite (stripWhiteSpace_digits ds Hd).
  pose proof (decimalAcc_nonneg ds 0 Hd (Z.le_refl 0)) as Hpos.
  fold (decimalValue ds) in Hpos.
  destruct ds as [|c ds]; [congruence|].
  assert (Hc : isDigit c = true)
    by (cbn [allDigits] in Hd; apply andb_prop in Hd; tauto).
  destruct (isDigit_facts c Hc) as (_ & _ & _ & Hplus & Hminus & _).
  assert ((match String c ds with
           | String "-" t' => (true, t')
           | String "+" t' => (false, t')
           | _ => (false, String c ds)
           end) = (false, String c ds)) as ->.
  { destruct c as [[] [] [] [] [] [] [] []]; try reflexivity; congruence. }
  rewrite Hd.
  rewrite (proj2 (Z.leb_le _ _)) by lia.
  rewrite (proj2 (Z.ltb_lt _ _)) by assumption.
  cbn [andb]. unfold wrap32. apply Z.mod_small. lia.
Qed.

Lemma stripPrefix_cons a p c s :
  stripPrefix (String a p) (String c s)
  = if Ascii.eqb a c then stripPrefix p s else None.
Proof. reflexivity. Qed.


(* ================================================================== *)
(** ** Properties of the position parser *)

Lemma lineRange_fromLine line st :
  fromLine (currentPos (snd (lineRange RefCurrentPos line st)))
  = fromLine (currentPos st)
  /\ kdLog (snd (lineRange RefCurrentPos line st)) = kdLog st.
Proof. unfold lineRange. repeat (case_match; simplify_eq); auto. Qed.

Lemma parsePosition_minus_line st ds rest :
  hasAddrInfo st = false -> hasLineInfo st = true ->
  ds <> EmptyString -> allDigits ds = true -> noDigitHead rest ->
  let N := wrap32 (decimalValue ds) in
  exists rest' st',
    parsePosition RefCurrentPos (String "-" (ds +:+ rest)) st = (true, rest', st') /\
    fromLine (currentPos st') =
      (if fromLine (currentPos st) <? N
       then wrap32 (fromLine (currentPos st) - 1)
       else wrap32 (fromLine (currentPos st) - N)) /\
    ((fromLine (currentPos st) <? N) = true -> In negativeLineWarning (kdLog st')).
Proof.
  intros Ha Hl Hne Hd Hr N.
  unfold parsePosition. rewrite Ha, Hl.
  unfold parseLineColumn.
  cbn [first tailStr].
  change (char_lt "9" "-") with false.
  change (Ascii.eqb "-" "*") with false.
  change (Ascii.eqb "-" "+") with false.
  change (Ascii.eqb "-" "-") with true.
  cbv iota.
  rewrite stripUInt_digits by assumption. fold N.
  destruct (fromLine (currentPos st) <? N) eqn:Hlt;
    match goal with |- context [lineRange ?r ?l ?s] =>
      pose proof (lineRange_fromLine l s) as [Hx Hlog];
      destruct (lineRange r l s) as [l1 s1]
    end;
    cbn [snd] in Hx, Hlog;
    (eexists _, _; split; [reflexivity|]); rewrite Hx, Hlog; split.
  - reflexivity.
  - intros _. apply in_or_app. right. left. reflexivity.
  - reflexivity.
  - discriminate.
Qed.

(** C2: after a cost at line 5, the position [-10] of the next cost line is
    resolved to line 4, with the warning; the subtraction is not clamped
    at line 0. *)
Theorem minus_line_underflow_not_clamped :
  exists st,
    loadTrace emptyPart emptyData (Some ["events: Ir"; "5 1"; "-10 1"])
    = Done true st /\
    map (fun fc => fromLine (fcPos fc)) (fixCosts (_part st)) = [5; 4] /\
    In negativeLineWarning (kdLog st).
Proof. vm_compute. eexists. repeat split. right. left. reflexivity. Qed.

(** C3, as the code has it: when [parsePosition] rejects a line, the line
    range of the cursor is as before; the loader is unchanged when the line
    is rejected in the first column parsed, and when the address column was
    accepted first, the loader is the one the address column left. *)
Theorem parsePosition_reject_cursor
    (line rest : FixString) (st st' : CachegrindLoader) :
  parsePosition RefCurrentPos line st = (false, rest, st') ->
  fromLine (currentPos st') = fromLine (currentPos st) /\
  toLine (currentPos st') = toLine (currentPos st) /\
  ((hasAddrInfo st = false \/ parseAddrColumn RefCurrentPos line st = None) -> st' = st) /\
  (forall line1 st1,
      hasAddrInfo st = true ->
      parseAddrColumn RefCurrentPos line st = Some (line1, st1) -> st' = st1).
Proof.
  unfold parsePosition. intros H.
  destruct (hasAddrInfo st) eqn:Ha.
  - destruct (parseAddrColumn RefCurrentPos line st) as [[l1 s1]|] eqn:Hc.
    + pose proof (parseAddrColumn_lines _ _ _ _ _ Hc) as [Hf Ht].
      assert (st' = s1) as ->.
      { destruct (hasLineInfo s1); [|discriminate].
        destruct (parseLineColumn RefCurrentPos l1 s1) as [[]|]; congruence. }
      repeat split; auto.
      * intros [|]; discriminate.
      * intros ? ? _ [= _ ->]. reflexivity.
    + simplify_eq. repeat split; auto. intros; discriminate.
  - assert (st' = st) as ->.
    { destruct (hasLineInfo st); [|discriminate].
      destruct (parseLineColumn RefCurrentPos line st) as [[]|]; congruence. }
    repeat split; auto. intros; discriminate.
Qed.

(** With [positions: instr line], the line [+1] has an address and no
    line: it is rejected after the address column. *)
Lemma parsePosition_reject_cursor_witness :
  let st := state_of (processLine "positions: instr line" exampleLoader) in
  let st' := snd (parsePosition RefCurrentPos "+1" st) in
  fromLine (currentPos st') = fromLine (currentPos st) /\
  toLine (currentPos st') = toLine (currentPos st) /\
  ((hasAddrInfo st = false \/ parseAddrColumn RefCurrentPos "+1" st = None) -> st' = st) /\
  (forall line1 st1,
      hasAddrInfo st = true ->
      parseAddrColumn RefCurrentPos "+1" st = Some (line1, st1) -> st' = st1).
Proof.
  intros st st'.
  apply (parsePosition_reject_cursor "+1" EmptyString st st').
  vm_compute. reflexivity.
Defined.

(** C3 fails as stated: with [positions: instr line], the line [+1] is
    rejected for its missing line column after its address column has moved
    the cursor from address 0 to address 1. *)
Lemma parsePosition_reject_moves_address :
  let st := state_of (processLine "positions: instr line" exampleLoader) in
  let r := parsePosition RefCurrentPos "+1" st in
  fst (fst r) = false /\
  fromAddr (currentPos st) = 0 /\
  fromAddr (currentPos (snd r)) = 1 /\
  currentPos (snd r) <> currentPos st.
Proof. vm_compute. repeat split; congruence. Qed.


(* ================================================================== *)
(** ** Properties of the format detection *)

(** C5: a file whose first [events:] is in the middle of a line is not
    recognised, although an [events:] at the start of a line follows within
    the first 2047 bytes. *)
Theorem canLoadTrace_looks_at_first_occurrence_only :
  let bytes := "xevents:" +:+ LF +:+ "events: Ir" +:+ LF in
  find (LF +:+ "events:") bytes = 8 /\
  canLoadTrace (Some bytes) = false.
Proof. vm_compute. split; reflexivity. Qed.


(* ================================================================== *)
(** ** What the entity-binding handlers leave alone *)

Lemma core_compressedObject n st :
  core (snd (compressedObject n st)) = core st.
Proof. unfold compressedObject. split_cases; reflexivity. Qed.

Lemma core_compressedFile n st :
  core (snd (compressedFile n st)) = core st.
Proof. unfold compressedFile. split_cases; reflexivity. Qed.

Lemma core_compressedFunction n f o st :
  core (outState (compressedFunction n f o st)) = core st.
Proof. unfold compressedFunction. split_cases; reflexivity. Qed.

Lemma core_dummyFunction st : core (snd (dummyFunction st)) = core st.
Proof. unfold dummyFunction. split_cases; reflexivity. Qed.

Ltac core_of_pairs :=
  repeat match goal with
  | H : compressedObject ?n ?s = (_, _) |- _ =>
      let E := fresh "E" in
      pose proof (core_compressedObject n s) as E; rewrite H in E;
      cbn [snd] in E; clear H
  | H : compressedFile ?n ?s = (_, _) |- _ =>
      let E := fresh "E" in
      pose proof (core_compressedFile n s) as E; rewrite H in E;
      cbn [snd] in E; clear H
  | H : compressedFunction ?n ?f ?o ?s = _ |- _ =>
      let E := fresh "E" in
      pose proof (core_compressedFunction n f o s) as E; rewrite H in E;
      cbn [outState] in E; clear H
  | H : dummyFunction ?s = (_, _) |- _ =>
      let E := fresh "E" in
      pose proof (core_dummyFunction s) as E; rewrite H in E;
      cbn [snd] in E; clear H
  end.

Ltac core_solve :=
  intros; split_cases; core_of_pairs;
  unfold core in *; cbn in *; simplify_eq; try congruence; auto.

Lemma core_ensureObject st : core (ensureObject st) = core st.
Proof. unfold ensureObject. core_solve. Qed.

Lemma core_ensureFile st : core (ensureFile st) = core st.
Proof. unfold ensureFile. core_solve. Qed.

Lemma core_ensureFunction st : core (ensureFunction st) = core st.
Proof. unfold ensureFunction. core_solve. Qed.

Lemma core_setObject n st : core (setObject n st) = core st.
Proof. unfold setObject. core_solve. Qed.

Lemma core_setCalledObject n st : core (setCalledObject n st) = core st.
Proof. unfold setCalledObject. core_solve. Qed.

Lemma core_setFile n st : core (setFile n st) = core st.
Proof. unfold setFile. core_solve. Qed.

Lemma core_setCalledFile n st : core (setCalledFile n st) = core st.
Proof. unfold setCalledFile. core_solve. Qed.

Lemma core_setFunction n st : core (outState (setFunction n st)) = core st.
Proof.
  unfold setFunction.
  pose proof (core_ensureFile st) as E1.
  pose proof (core_ensureObject (ensureFile st)) as E2.
  generalize dependent (ensureObject (ensureFile st)). intros s2 E2.
  rewrite <- E1, <- E2. clear E1 E2. core_solve.
Qed.

Lemma core_setCalledFunction n st :
  core (outState (setCalledFunction n st)) = core st.
Proof. unfold setCalledFunction. core_solve. Qed.

Lemma cursors_compressedObject n st :
  cursors (snd (compressedObject n st)) = cursors st.
Proof. unfold compressedObject. split_cases; reflexivity. Qed.

Lemma cursors_compressedFile n st :
  cursors (snd (compressedFile n st)) = cursors st.
Proof. unfold compressedFile. split_cases; reflexivity. Qed.

Lemma cursors_compressedFunction n f o st :
  cursors (outState (compressedFunction n f o st)) = cursors st.
Proof. unfold compressedFunction. split_cases; reflexivity. Qed.

Lemma cursors_dummyFunction st : cursors (snd (dummyFunction st)) = cursors st.
Proof. unfold dummyFunction. split_cases; reflexivity. Qed.

Ltac cursors_of_pairs :=
  repeat match goal with
  | H : compressedObject ?n ?s = (_, _) |- _ =>
      let E := fresh "E" in
      pose proof (cursors_compressedObject n s) as E; rewrite H in E;
      cbn [snd] in E; clear H
  | H : compressedFile ?n ?s = (_, _) |- _ =>
      let E := fresh "E" in
      pose proof (cursors_compressedFile n s) as E; rewrite H in E;
      cbn [snd] in E; clear H
  | H : compressedFunction ?n ?f ?o ?s = _ |- _ =>
      let E := fresh "E" in
      pose proof (cursors_compressedFunction n f o s) as E; rewrite H in E;
      cbn [outState] in E; clear H
  | H : dummyFunction ?s = (_, _) |- _ =>
      let E := fresh "E" in
      pose proof (cursors_dummyFunction s) as E; rewrite H in E;
      cbn [snd] in E; clear H
  end.

Ltac cursors_solve :=
  intros; split_cases; cursors_of_pairs;
  unfold cursors in *; cbn in *; simplify_eq;
  repeat match goal with H : cur _ = cur _ |- _ => rewrite H in * end;
  repeat match goal with H : call _ = call _ |- _ => rewrite H in * end;
  repeat match goal with H : jump _ = jump _ |- _ => rewrite H in * end;
  cbn in *; try congruence; auto.

Lemma setFile_effect n st : fileLineEffect st (setFile n st).
Proof. unfold fileLineEffect, setFile. cursors_solve. Qed.

(** With an object given, [compressedFunction] returns. *)
Lemma compressedFunction_object n f o st :
  o <> None -> exists r st', compressedFunction n f o st = Done r st'.
Proof.
  intros Ho. unfold compressedFunction. split_cases; eauto; congruence.
Qed.

Lemma ensureObject_some st : currentObject (cur (ensureObject st)) <> None.
Proof. unfold ensureObject. cursors_solve. Qed.

(** [setFunction] passes the object cursor, which [ensureObject] has set:
    it returns. *)
Lemma setFunction_done n st : exists st', setFunction n st = Done tt st'.
Proof.
  unfold setFunction.
  destruct (compressedFunction_object n
              (currentFile (cur (ensureObject (ensureFile st))))
              (currentObject (cur (ensureObject (ensureFile st))))
              (ensureObject (ensureFile st))
              (ensureObject_some (ensureFile st))) as (r & s & ->).
  eauto.
Qed.

Lemma setFunction_effect n st :
  exists st', setFunction n st = Done tt st' /\ functionLineEffect st st'.
Proof.
  destruct (setFunction_done n st) as [st' E]. exists st'. split; [exact E|].
  revert E.
  unfold functionLineEffect, setFunction, ensureObject, ensureFile.
  cursors_solve.
  all: repeat split; auto;
    repeat match goal with H : ?x = _ |- context [?x] => rewrite H end;
    cbn; congruence.
Qed.

Ltac entity_solve :=
  unfold entityFrame; split; [auto|];
  unfold functionCursorOk, instrCursor; cursors_solve;
  repeat match goal with H : ?x = _ |- context [?x] => rewrite H end;
  cbn; repeat split; try congruence; auto.

Lemma entityFrame_setObject n st : entityFrame st (setObject n st).
Proof. pose proof (core_setObject n st). unfold setObject. entity_solve. Qed.

Lemma entityFrame_setCalledObject n st : entityFrame st (setCalledObject n st).
Proof.
  pose proof (core_setCalledObject n st). unfold setCalledObject. entity_solve.
Qed.

Lemma entityFrame_setFile n st : entityFrame st (setFile n st).
Proof. pose proof (core_setFile n st). unfold setFile. entity_solve. Qed.

Lemma entityFrame_setCalledFile n st : entityFrame st (setCalledFile n st).
Proof.
  pose proof (core_setCalledFile n st). unfold setCalledFile. entity_solve.
Qed.

Lemma entityFrame_setFunction n st :
  entityFrame st (outState (setFunction n st)).
Proof.
  pose proof (core_setFunction n st).
  unfold setFunction, ensureFile, ensureObject. entity_solve.
Qed.

Lemma entityFrame_setCalledFunction n st :
  entityFrame st (outState (setCalledFunction n st)).
Proof.
  pose proof (core_setCalledFunction n st). unfold setCalledFunction. entity_solve.
Qed.

Lemma entityFrame_ensureFunction st : entityFrame st (ensureFunction st).
Proof.
  pose proof (core_ensureFunction st). unfold ensureFunction. entity_solve.
Qed.


(* ================================================================== *)
(** ** What the header lines leave alone *)

Lemma entityFrame_keeps st st' :
  entityFrame st st' ->
  lineFrame st st' /\ columns st' = columns st /\ subMapping st' = subMapping st.
Proof.
  intros (Hc & Hi & Hf). unfold lineFrame, arena, columns.
  unfold core, instrCursor in *.
  simplify_eq. repeat split; auto; congruence.
Qed.

Ltac facts_of_pairs :=
  repeat match goal with
  | H : parsePosition ?r ?l ?s = (_, _, _) |- _ =>
      let E := fresh "E" in
      pose proof (parsePosition_frame r l s) as E; rewrite H in E;
      cbn [snd] in E; destruct E as (? & ? & ? & ->); clear H
  | H : compressedFile ?n ?s = (_, _) |- _ =>
      let E := fresh "E" in let E' := fresh "E" in
      pose proof (core_compressedFile n s) as E; rewrite H in E;
      pose proof (cursors_compressedFile n s) as E'; rewrite H in E';
      cbn [snd] in E, E'; clear H
  | H : compressedFunction ?n ?f ?o ?s = _ |- _ =>
      let E := fresh "E" in let E' := fresh "E" in
      pose proof (core_compressedFunction n f o s) as E; rewrite H in E;
      pose proof (cursors_compressedFunction n f o s) as E'; rewrite H in E';
      cbn [outState] in E, E'; clear H
  end.

Ltac keeps_finish :=
  unfold lineFrame, arena, columns, functionCursorOk, instrCursor, core,
    cursors in *;
  cbn in *; simplify_eq;
  repeat match goal with H : cur _ = cur _ |- _ => rewrite H in * end;
  repeat split; intros; try congruence; auto.

Lemma state_of_continueAfter o : state_of (continueAfter o) = outState o.
Proof. destruct o; reflexivity. Qed.

Ltac keeps_leaf :=
  rewrite ?state_of_continueAfter; cbn [state_of];
  first
    [ apply entityFrame_keeps;
      first [ apply entityFrame_setFile | apply entityFrame_setFunction
            | apply entityFrame_setObject | apply entityFrame_setCalledObject
            | apply entityFrame_setCalledFile | apply entityFrame_setCalledFunction ]
    | keeps_finish ].

Lemma case_f_keeps line st :
  let st' := state_of (case_f line st) in
  lineFrame st st' /\ columns st' = columns st /\ subMapping st' = subMapping st.
Proof. unfold case_f, invalidLine. split_cases; keeps_leaf. Qed.

Lemma case_c_keeps line st :
  let st' := state_of (case_c line st) in
  lineFrame st st' /\ columns st' = columns st /\ subMapping st' = subMapping st.
Proof. unfold case_c, invalidLine, armCallCost. split_cases; keeps_leaf. Qed.

Lemma case_j_keeps line st :
  let st' := state_of (case_j line st) in
  lineFrame st st' /\ columns st' = columns st /\ subMapping st' = subMapping st.
Proof.
  unfold case_j, invalidLine. split_cases; facts_of_pairs; keeps_leaf.
Qed.

Lemma case_o_keeps line st :
  let st' := state_of (case_o line st) in
  lineFrame st st' /\ columns st' = columns st /\ subMapping st' = subMapping st.
Proof. unfold case_o, invalidLine. split_cases; keeps_leaf. Qed.

Lemma case_t_keeps line st :
  let st' := state_of (case_t line st) in
  lineFrame st st' /\ columns st' = columns st /\ subMapping st' = subMapping st.
Proof. unfold case_t, invalidLine. split_cases; keeps_leaf. Qed.

Lemma case_d_keeps line st :
  let st' := state_of (case_d line st) in
  lineFrame st st' /\ columns st' = columns st /\ subMapping st' = subMapping st.
Proof. unfold case_d, invalidLine. split_cases; keeps_leaf. Qed.

Lemma case_e_keeps line st :
  let st' := state_of (case_e line st) in
  lineFrame st st' /\ columns st' = columns st /\
  (stripPrefix "vents:" line = None -> subMapping st' = subMapping st).
Proof. unfold case_e, invalidLine. split_cases; keeps_leaf. Qed.

Lemma case_p_keeps line st :
  let st' := state_of (case_p line st) in
  lineFrame st st' /\ subMapping st' = subMapping st /\
  (stripPrefix "ositions:" line = None -> columns st' = columns st).
Proof. unfold case_p, invalidLine. split_cases; keeps_leaf. Qed.

Lemma case_v_keeps line st :
  let st' := state_of (case_v line st) in
  lineFrame st st' /\ columns st' = columns st /\ subMapping st' = subMapping st.
Proof. unfold case_v, invalidLine. split_cases; keeps_leaf. Qed.

Lemma case_r_keeps line st :
  let st' := state_of (case_r line st) in
  lineFrame st st' /\ columns st' = columns st /\ subMapping st' = subMapping st.
Proof. unfold case_r, invalidLine, armCallCost. split_cases; keeps_leaf. Qed.

Lemma case_s_keeps line st :
  let st' := state_of (case_s line st) in
  lineFrame st st' /\ columns st' = columns st /\ subMapping st' = subMapping st.
Proof.
  unfold case_s. destruct (stripPrefix "ummary:" line); [|apply case_r_keeps].
  split_cases; keeps_leaf.
Qed.

Lemma headerLine_keeps c line st :
  let st' := state_of (headerLine c line st) in
  lineFrame st st' /\
  (stripPrefix "positions:" (String c line) = None -> columns st' = columns st) /\
  (stripPrefix "events:" (String c line) = None -> subMapping st' = subMapping st).
Proof.
  destruct c as [[] [] [] [] [] [] [] []];
    cbn [headerLine stripPrefix Ascii.eqb Bool.eqb];
    first
      [ pose proof (case_s_keeps line st) as K; cbn zeta in K; tauto
      | pose proof (case_c_keeps line st) as K; cbn zeta in K; tauto
      | pose proof (case_o_keeps line st) as K; cbn zeta in K; tauto
      | pose proof (case_e_keeps line st) as K; cbn zeta in K; tauto
      | pose proof (case_d_keeps line st) as K; cbn zeta in K; tauto
      | pose proof (case_t_keeps line st) as K; cbn zeta in K; tauto
      | pose proof (case_j_keeps line st) as K; cbn zeta in K; tauto
      | pose proof (case_r_keeps line st) as K; cbn zeta in K; tauto
      | pose proof (case_v_keeps line st) as K; cbn zeta in K; tauto
      | pose proof (case_f_keeps line st) as K; cbn zeta in K; tauto
      | pose proof (case_p_keeps line st) as K; cbn zeta in K; tauto
      | unfold invalidLine; keeps_finish ].
Qed.


(* ================================================================== *)
(** ** Cost lines and the loop *)

Lemma ensureFunction_some st : currentFunction (cur (ensureFunction st)) <> None.
Proof. unfold ensureFunction. cursors_solve. Qed.

Lemma costLine_keeps line st :
  let st' := state_of (costLine line st) in
  columns st' = columns st /\
  subMapping st' = subMapping st /\
  instrCursor st' = instrCursor st /\
  (functionCursorOk st -> functionCursorOk st') /\
  (subMapping st = None ->
   arena st' = arena st /\ exists s, costLine line st = Return false s) /\
  (functionCursorOk st -> arenaOk st -> arenaOk st').
Proof.
  unfold costLine.
  destruct (subMapping st) as [sm|] eqn:Hsm.
  2:{ cbn. rewrite Hsm. repeat split; eauto. }
  pose proof (entityFrame_ensureFunction st) as (Hcore & Hinstr & Hok).
  pose proof (ensureFunction_some st) as Hsome.
  generalize dependent (ensureFunction st). intros s1 Hcore Hinstr Hok Hsome.
  unfold core, instrCursor in Hcore, Hinstr. simplify_eq.
  assert (Hp : functionCursorOk st -> currentPartFunction (cur s1) <> None)
    by (intros Hst; apply Hok; auto).
  unfold columns, arenaOk, functionCursorOk, instrCursor in *.
  split_cases; cbn in *; simplify_eq;
    (repeat split; intros; try congruence; auto).
  all: try (apply Forall_app; split; [congruence|]; repeat constructor; cbn; auto).
  all: try match goal with H : _ = None |- _ => rewrite H in *; discriminate end.
  all: try congruence.
Qed.

Lemma first_tail line c : first line = Some c -> String c (tailStr line) = line.
Proof. destruct line; cbn; congruence. Qed.

Lemma processLine_keeps line st :
  let st' := state_of (processLine line st) in
  (stripPrefix "positions:" line = None -> columns st' = columns st) /\
  (stripPrefix "events:" line = None -> subMapping st' = subMapping st) /\
  instrCursor st' = instrCursor st /\
  (functionCursorOk st -> functionCursorOk st') /\
  (subMapping st = None -> arena st' = arena st) /\
  (functionCursorOk st -> arenaOk st -> arenaOk st').
Proof.
  unfold processLine.
  set (s0 := set__lineNo (_lineNo st + 1) st).
  assert (H0 : columns s0 = columns st /\ subMapping s0 = subMapping st /\
               arena s0 = arena st /\ cur s0 = cur st /\
               fixCosts (_part s0) = fixCosts (_part st)) by (repeat split).
  destruct H0 as (Hc0 & Hs0 & Ha0 & Hu0 & Hf0).
  assert (Hok0 : functionCursorOk st -> functionCursorOk s0)
    by (unfold functionCursorOk; rewrite Hu0; auto).
  assert (Hao0 : arenaOk st -> arenaOk s0) by (unfold arenaOk; rewrite Hf0; auto).
  assert (Hi0 : instrCursor s0 = instrCursor st)
    by (unfold instrCursor; rewrite Hu0; reflexivity).
  clearbody s0.
  destruct (first line) as [c|] eqn:Hfirst.
  2:{ cbn. repeat split; auto. }
  destruct (char_le c "9") eqn:Hle.
  - pose proof (parsePosition_frame RefCurrentPos line s0) as (p & t & lg & Hf).
    destruct (parsePosition RefCurrentPos line s0) as [[ok rest] s1].
    cbn [snd] in Hf.
    assert (H1 : columns s1 = columns s0 /\ subMapping s1 = subMapping s0 /\
                 arena s1 = arena s0 /\ cur s1 = cur s0 /\
                 fixCosts (_part s1) = fixCosts (_part s0))
      by (subst s1; repeat split).
    destruct H1 as (Hc1 & Hs1 & Ha1 & Hu1 & Hf1).
    assert (Hok1 : functionCursorOk s0 -> functionCursorOk s1)
      by (unfold functionCursorOk; rewrite Hu1; auto).
    assert (Hao1 : arenaOk s0 -> arenaOk s1) by (unfold arenaOk; rewrite Hf1; auto).
    assert (Hi1 : instrCursor s1 = instrCursor s0)
      by (unfold instrCursor; rewrite Hu1; reflexivity).
    clear Hf. destruct ok; cbn [negb].
    + pose proof (costLine_keeps rest s1) as (Kc & Ks & Ki & Kok & Ka & Kao).
      repeat split; intros; try congruence; auto.
      destruct Ka as [Ka _]; congruence.
    + cbn [state_of]. repeat split; intros; try congruence; auto.
  - pose proof (headerLine_keeps c (tailStr line) s0) as ((Ka & Ki & Kok) & Kc & Ks).
    rewrite (first_tail _ _ Hfirst) in Kc, Ks.
    repeat split; intros; try congruence; auto.
    + rewrite Kc by assumption. congruence.
    + rewrite Ks by assumption. congruence.
    + unfold arenaOk, arena in *. simplify_eq.
      replace (fixCosts (_part (state_of (headerLine c (tailStr line) s0))))
        with (fixCosts (_part s0)) by congruence.
      apply Hao0. assumption.
Qed.

Lemma loadLines_app pre post st :
  loadLines (pre ++ post) st
  = match loadLines pre st with
    | Continue s => loadLines post s
    | Return b s => Return b s
    | Crash s => Crash s
    end.
Proof.
  revert st. induction pre as [|x pre IH]; intros st; cbn [loadLines app].
  - reflexivity.
  - destruct (processLine x st); [apply IH | reflexivity | reflexivity].
Qed.

Lemma loadLines_keeps lines : forall st,
  let st' := state_of (loadLines lines st) in
  (Forall (fun x => stripPrefix "positions:" x = None) lines ->
   columns st' = columns st) /\
  (Forall (fun x => stripPrefix "events:" x = None) lines ->
   subMapping st' = subMapping st /\ (subMapping st = None -> arena st' = arena st)) /\
  instrCursor st' = instrCursor st /\
  (functionCursorOk st -> arenaOk st -> functionCursorOk st' /\ arenaOk st').
Proof.
  induction lines as [|x lines IH]; intros st; cbn [loadLines].
  - cbn. repeat split; auto.
  - pose proof (processLine_keeps x st) as (Kc & Ks & Ki & Kok & Ka & Kao).
    destruct (processLine x st) as [s|b s|s]; cbn [state_of] in *.
    + specialize (IH s). cbn zeta in IH. destruct IH as (Ic & Is & Ii & Iok).
      repeat split.
      * intros H. inversion H; subst. rewrite Ic by assumption. auto.
      * inversion H; subst. destruct Is as [-> _]; auto.
      * intros Hn. inversion H; subst. destruct Is as [Hs Hr]; [assumption|].
        rewrite Hr by (rewrite Ks; assumption). auto.
      * congruence.
      * apply Iok; auto.
      * apply Iok; auto.
    + repeat split; intros;
        try match goal with H : Forall _ (_ :: _) |- _ => inversion H; subst end;
        auto.
    + repeat split; intros;
        try match goal with H : Forall _ (_ :: _) |- _ => inversion H; subst end;
        auto.
Qed.

Lemma loaderStart_facts part data l :
  subMapping (loaderStart part data l) = None /\
  columns (loaderStart part data l) = (true, false) /\
  arena (loaderStart part data l) = (fixCosts part, fixCallCosts part, fixJumps part) /\
  instrCursor (loaderStart part data l) = (None, None) /\
  functionCursorOk (loaderStart part data l).
Proof.
  repeat split. unfold functionCursorOk. intros H. exfalso. apply H. reflexivity.
Qed.


(* ================================================================== *)
(** ** The event schema is required *)

Lemma processLine_cost_without_events line st :
  subMapping st = None -> isCostLine line st = true ->
  exists st', processLine line st = Return false st' /\ arena st' = arena st.
Proof.
  intros Hs Hc. unfold isCostLine in Hc. unfold processLine.
  destruct (first line) as [c|]; [|discriminate].
  apply andb_prop in Hc as [Hc Hp]. rewrite Hc.
  pose proof (parsePosition_frame RefCurrentPos line
                (set__lineNo (_lineNo st + 1) st)) as (p & t & lg & Hf).
  destruct (parsePosition RefCurrentPos line (set__lineNo (_lineNo st + 1) st))
    as [[ok rest] s1].
  cbn [fst snd] in *. subst ok s1. cbn [negb]. unfold costLine.
  cbn [subMapping set_kdLog set_currentPos upd_jump set_jump set__lineNo].
  rewrite Hs. eexists. split; reflexivity.
Qed.

Lemma processLine_summary_without_events line st :
  subMapping st = None -> stripPrefix "summary:" line <> None ->
  exists st', processLine line st = Return false st' /\ arena st' = arena st.
Proof.
  intros Hs Hp. destruct line as [|c line]; [cbn in Hp; congruence|].
  change "summary:" with (String "s" "ummary:") in Hp.
  rewrite stripPrefix_cons in Hp.
  destruct (Ascii.eqb "s" c) eqn:Hc; [|congruence].
  apply Ascii.eqb_eq in Hc. subst c.
  unfold processLine. cbn [first]. change (char_le "s" "9") with false.
  cbn [tailStr headerLine]. unfold case_s.
  destruct (stripPrefix "ummary:" line); [|congruence].
  cbn [subMapping set__lineNo]. rewrite Hs. eexists. split; reflexivity.
Qed.

(** C1: when a cost line or a [summary:] line is reached and no line before
    it was an [events:] line, the load returns failure, and the cost arena
    of the part is as it was before the load. *)
Theorem cost_line_before_events_aborts
    (part : TracePart) (data : TraceData) (l : CachegrindLoader)
    (pre : list FixString) (line : FixString) (post : list FixString)
    (st : CachegrindLoader) :
  Forall (fun x => stripPrefix "events:" x = None) pre ->
  loadLines pre (loaderStart part data l) = Continue st ->
  isCostLine line st = true \/ stripPrefix "summary:" line <> None ->
  exists st',
    loadTraceInternal part data (Some (pre ++ line :: post)%list) l
    = Done false st' /\
    arena st' = (fixCosts part, fixCallCosts part, fixJumps part).
Proof.
  intros Hpre Hrun Hline.
  pose proof (loaderStart_facts part data l) as (Hs0 & _ & Ha0 & _ & _).
  pose proof (loadLines_keeps pre (loaderStart part data l)) as (_ & Ks & _).
  cbn zeta in Ks. rewrite Hrun in Ks. cbn [state_of] in Ks.
  destruct (Ks Hpre) as [Hs Ha]. specialize (Ha Hs0).
  assert (Hnone : subMapping st = None) by congruence.
  assert (Hstep : exists st', processLine line st = Return false st'
                              /\ arena st' = arena st).
  { destruct Hline as [Hc|Hsum].
    - apply processLine_cost_without_events; assumption.
    - apply processLine_summary_without_events; assumption. }
  destruct Hstep as (st' & Hstep & Ha').
  exists st'. split; [|congruence].
  unfold loadTraceInternal. rewrite loadLines_app, Hrun.
  cbn [loadLines]. rewrite Hstep. reflexivity.
Qed.

(** Scenario S6: a cost line after [fl=] and [fn=], and no [events:]
    line. *)
Lemma cost_line_before_events_aborts_witness :
  exists st',
    loadTraceInternal emptyPart emptyData (Some (["fl=a.c"; "fn=f"] ++ "10 100" :: [])%list)
      (newCachegrindLoader emptyPart emptyData) = Done false st' /\
    arena st' = (fixCosts emptyPart, fixCallCosts emptyPart, fixJumps emptyPart).
Proof.
  apply (cost_line_before_events_aborts emptyPart emptyData
           (newCachegrindLoader emptyPart emptyData) ["fl=a.c"; "fn=f"] "10 100" []
           (state_of (loadLines ["fl=a.c"; "fn=f"] exampleLoader))).
  - repeat constructor.
  - vm_compute. reflexivity.
  - left. vm_compute. reflexivity.
Defined.


(* ================================================================== *)
(** ** The default position columns *)

(** C9: as long as no [positions:] line has been read, the loader expects a
    line column and no address column, from the first line of every load
    on, and [parsePosition] decodes the line column only. *)
Theorem default_columns_without_positions
    (part : TracePart) (data : TraceData) (l : CachegrindLoader)
    (pre : list FixString) :
  Forall (fun x => stripPrefix "positions:" x = None) pre ->
  let st := state_of (loadLines pre (loaderStart part data l)) in
  hasLineInfo st = true /\
  hasAddrInfo st = false /\
  forall line,
    parsePosition RefCurrentPos line st
    = match parseLineColumn RefCurrentPos line st with
      | None => (false, line, st)
      | Some (rest, st') => (true, rest, st')
      end.
Proof.
  intros Hpre st.
  pose proof (loaderStart_facts part data l) as (_ & Hc0 & _).
  pose proof (loadLines_keeps pre (loaderStart part data l)) as (Kc & _).
  cbn zeta in Kc. specialize (Kc Hpre). fold st in Kc.
  unfold columns in *. simplify_eq.
  assert (Hl : hasLineInfo st = true) by congruence.
  assert (Ha : hasAddrInfo st = false) by congruence.
  repeat split; auto.
  intros line. unfold parsePosition. rewrite Ha, Hl. reflexivity.
Qed.

(** The head of a file that has no [positions:] line. *)
Lemma default_columns_without_positions_witness :
  let st := state_of (loadLines ["version: 1"; "events: Ir"; "fn=f"] exampleLoader) in
  hasLineInfo st = true /\
  hasAddrInfo st = false /\
  forall line,
    parsePosition RefCurrentPos line st
    = match parseLineColumn RefCurrentPos line st with
      | None => (false, line, st)
      | Some (rest, st') => (true, rest, st')
      end.
Proof.
  apply (default_columns_without_positions emptyPart emptyData
           (newCachegrindLoader emptyPart emptyData)
           ["version: 1"; "events: Ir"; "fn=f"]).
  repeat constructor.
Defined.


(* ================================================================== *)
(** ** Cursor clearing *)

Lemma processLine_fl name st :
  processLine ("fl=" +:+ name) st
  = Continue (setFile name (set__lineNo (_lineNo st + 1) st)).
Proof. reflexivity. Qed.

Lemma processLine_fi name st :
  processLine ("fi=" +:+ name) st
  = Continue (setFile name (set__lineNo (_lineNo st + 1) st)).
Proof. reflexivity. Qed.

Lemma processLine_fe name st :
  processLine ("fe=" +:+ name) st
  = Continue (setFile name (set__lineNo (_lineNo st + 1) st)).
Proof. reflexivity. Qed.

Lemma processLine_fn name st :
  processLine ("fn=" +:+ name) st
  = continueAfter (setFunction name (set__lineNo (_lineNo st + 1) st)).
Proof. reflexivity. Qed.

(** C6, as the code has it: at any point of a load, a [fl=], [fi=] or [fe=]
    line leaves the current line cursor and the current instruction cursor
    cleared (it clears the former and does not write the latter, which no
    line of a load sets); a [fn=] line leaves the function-source, the
    current line and the current instruction cleared, keeps an object or
    file cursor that is set and puts the ['???'] dummy into one that is
    not. *)
Theorem file_and_function_line_cursors
    (part : TracePart) (data : TraceData) (l : CachegrindLoader)
    (pre : list FixString) (name : string) :
  let st := state_of (loadLines pre (loaderStart part data l)) in
  (exists st', processLine ("fl=" +:+ name) st = Continue st' /\
               fileLineEffect st st' /\ instrCursor st' = (None, None)) /\
  (exists st', processLine ("fi=" +:+ name) st = Continue st' /\
               fileLineEffect st st' /\ instrCursor st' = (None, None)) /\
  (exists st', processLine ("fe=" +:+ name) st = Continue st' /\
               fileLineEffect st st' /\ instrCursor st' = (None, None)) /\
  (exists st', processLine ("fn=" +:+ name) st = Continue st' /\
               functionLineEffect st st' /\ instrCursor st' = (None, None)).
Proof.
  intros st.
  pose proof (loaderStart_facts part data l) as (_ & _ & _ & Hi0 & _).
  pose proof (loadLines_keeps pre (loaderStart part data l)) as (_ & _ & Hi & _).
  cbn zeta in Hi. fold st in Hi. rewrite Hi0 in Hi.
  rewrite processLine_fl, processLine_fi, processLine_fe, processLine_fn.
  pose proof (setFile_effect name (set__lineNo (_lineNo st + 1) st)) as Hfile.
  destruct (setFunction_effect name (set__lineNo (_lineNo st + 1) st))
    as (sf & -> & Hfn).
  cbn [continueAfter].
  assert (Hfile' : instrCursor (setFile name (set__lineNo (_lineNo st + 1) st))
                   = (None, None)).
  { destruct Hfile as (_ & _ & H1 & H2). unfold instrCursor in *.
    rewrite H1, H2. exact Hi. }
  assert (Hfn' : instrCursor sf = (None, None)).
  { destruct Hfn as (_ & _ & _ & H1 & H2 & _). unfold instrCursor in *.
    rewrite H1, H2. exact Hi. }
  repeat split; eexists; (split; [reflexivity|]); split; assumption.
Qed.

(** C6 fails as stated: as the first line of a file, [fn=main] changes the
    object and the file cursor, which were not set, to the ['???']
    dummies. *)
Lemma function_line_sets_unset_cursors :
  currentObject (cur exampleLoader) = None /\
  currentFile (cur exampleLoader) = None /\
  currentObject (cur (state_of (processLine "fn=main" exampleLoader)))
    = Some (data_object "???") /\
  currentFile (cur (state_of (processLine "fn=main" exampleLoader)))
    = Some (data_file "???").
Proof. vm_compute. repeat split. Qed.

Lemma ensureFunction_call st :
  call (ensureFunction st) = call st /\ core (ensureFunction st) = core st.
Proof.
  split; [|apply core_ensureFunction].
  unfold ensureFunction. cursors_solve.
Qed.

(** C7, as the code has it: the cost line of an armed [CallCost] record
    clears the called object, the called file, their part projections and
    the pending call count, and the record type reverts to [SelfCost]; the
    called function and its part projection stay as they were. *)
Theorem call_cost_line_clears_call_cursor
    (line : FixString) (st : CachegrindLoader) :
  nextLineType st = CallCost ->
  subMapping st <> None ->
  isCostLine line st = true ->
  exists st', processLine line st = Continue st' /\ callCostLineEffect st st'.
Proof.
  intros Hn Hs Hc. unfold isCostLine in Hc. unfold processLine.
  destruct (first line) as [c|]; [|discriminate].
  apply andb_prop in Hc as [Hc Hp]. rewrite Hc.
  pose proof (parsePosition_frame RefCurrentPos line
                (set__lineNo (_lineNo st + 1) st)) as (p & t & lg & Hf).
  destruct (parsePosition RefCurrentPos line (set__lineNo (_lineNo st + 1) st))
    as [[ok rest] st1].
  cbn [fst snd] in *. subst ok st1. cbn [negb].
  unfold costLine.
  destruct (subMapping st) as [sm|] eqn:Hsm; [|congruence].
  cbn [subMapping set_kdLog set_currentPos upd_jump set_jump set__lineNo].
  rewrite Hsm.
  match goal with |- context [ensureFunction ?s] =>
    pose proof (ensureFunction_call s) as [Ecall Ecore];
    generalize dependent (ensureFunction s) end.
  intros s1 Ecall Ecore. unfold core in Ecore. cbn in Ecall, Ecore.
  simplify_eq.
  match goal with |- context [nextLineType ?s] =>
    assert (nextLineType s = CallCost) as -> by (split_cases; cbn; congruence) end.
  eexists. split; [reflexivity|].
  unfold callCostLineEffect.
  split_cases; cbn; rewrite ?Ecall; cbn; repeat split; reflexivity.
Qed.

(** The cost line of a call from [f] to [g], with one event column. *)
Lemma call_cost_line_clears_call_cursor_witness :
  let st := state_of (loadLines ["events: Ir"; "fn=f"; "cfn=g"; "calls=1 5"] exampleLoader) in
  exists st', processLine "5 10" st = Continue st' /\ callCostLineEffect st st'.
Proof.
  intros st.
  apply (call_cost_line_clears_call_cursor "5 10" st);
    vm_compute; congruence.
Defined.

(** C7 fails as stated: after the cost line of the call from [f] to [g] the
    called function cursor still holds [g]. *)
Lemma call_cost_line_keeps_called_function :
  let st := state_of (loadLines ["events: Ir"; "fn=f"; "cfn=g"; "calls=1 5"; "5 10"]
                        exampleLoader) in
  nextLineType st = SelfCost /\
  length (fixCallCosts (_part st)) = 1%nat /\
  currentCalledFunction (call st) = Some (mkFunction 1) /\
  currentCalledFunction (call st) <> None.
Proof. vm_compute. repeat split; congruence. Qed.


(* ================================================================== *)
(** ** The totals of the part *)

Lemma loadTraceInternal_success part data l lines st :
  loadTraceInternal part data (Some lines) l = Done true st ->
  exists s,
    loadLines lines (loaderStart part data l) = Continue s /\
    st = upd_part (fun p => set_totals (partCost p) p)
           (upd_part (set_invalidated true) s).
Proof.
  unfold loadTraceInternal. intros H.
  pose proof (loadLines_keeps lines (loaderStart part data l)) as K.
  destruct (loadLines lines (loaderStart part data l)) as [s|b s|s] eqn:Hrun;
    [| |discriminate H].
  - exists s. split; [reflexivity|]. cbn [negb] in H. simplify_eq.
    destruct s as [? ? ? [] ? ? ? ? ? ? ? ? ? ? ?]. reflexivity.
  - exfalso. simplify_eq.
    (* a [Return] of the loop body is a failure *)
    revert Hrun. generalize (loaderStart part data l). clear K.
    induction lines as [|x lines IH]; intros s0; cbn [loadLines]; [discriminate|].
    destruct (processLine x s0) as [s1|b1 s1|s1] eqn:Hx;
      [apply IH| |discriminate].
    intros [= -> ->]. revert Hx. unfold processLine.
    split_cases; try discriminate.
    + unfold costLine. split_cases; discriminate.
    + unfold headerLine, case_f, case_c, case_j, case_o, case_t, case_d, case_e,
        case_p, case_v, case_s, case_r, invalidLine, continueAfter.
      split_cases; discriminate.
Qed.

(** C10: at the end of every successful load the totals of the part are
    cleared and set to the cost of the part's own arena, whatever a
    [summary:] line had stored in them, and the part is marked invalid. *)
Theorem summary_totals_are_recomputed
    (part : TracePart) (data : TraceData) (l : CachegrindLoader)
    (lines : list FixString) (st : CachegrindLoader) :
  loadTraceInternal part data (Some lines) l = Done true st ->
  totals (_part st) = addCost (clearCost (totals part)) (partCost (_part st)) /\
  totals (_part st) = partCost (_part st) /\
  invalidated (_part st) = true.
Proof.
  intros H. apply loadTraceInternal_success in H as (s & _ & ->).
  repeat split.
Qed.

(** A file whose [summary:] line says 999 and whose only cost is 100: the
    totals are 100. *)
Lemma summary_totals_are_recomputed_witness :
  let r := loadTrace emptyPart emptyData
             (Some ["events: Ir"; "summary: 999"; "fn=f"; "10 100"]) in
  (totals (_part (outState r))
   = addCost (clearCost (totals emptyPart)) (partCost (_part (outState r))) /\
   totals (_part (outState r)) = partCost (_part (outState r)) /\
   invalidated (_part (outState r)) = true) /\
  totals (_part (outState r)) = [100].
Proof.
  intros r. split; [|vm_compute; reflexivity].
  apply (summary_totals_are_recomputed emptyPart emptyData
           (newCachegrindLoader emptyPart emptyData)
           ["events: Ir"; "summary: 999"; "fn=f"; "10 100"] (outState r)).
  vm_compute. reflexivity.
Defined.

Lemma wrap64_add_assoc x y z :
  wrap64 (wrap64 (x + y) + z) = wrap64 (x + wrap64 (y + z)).
Proof.
  unfold wrap64.
  rewrite Z.add_mod_idemp_l, Z.add_mod_idemp_r by lia.
  f_equal. lia.
Qed.

Lemma addCostVec_comm a : forall b, addCostVec a b = addCostVec b a.
Proof.
  induction a as [|x a IH]; intros [|y b]; cbn [addCostVec]; try reflexivity.
  rewrite (Z.add_comm x y), IH. reflexivity.
Qed.

Lemma addCostVec_assoc a : forall b c,
  addCostVec (addCostVec a b) c = addCostVec a (addCostVec b c).
Proof.
  induction a as [|x a IH]; intros [|y b] [|z c]; cbn [addCostVec]; try reflexivity.
  rewrite wrap64_add_assoc, IH. reflexivity.
Qed.

(** Adding [a] to the summand of one key of a duplicate-free list adds [a]
    to the sum. *)
Lemma sumCosts_add_at {K} `{EqDecision K} (f : K -> list Z) (a : list Z) (k0 : K)
    (ks : list K) :
  NoDup ks -> k0 ∈ ks ->
  sumCosts (map (fun k => if decide (k = k0) then addCostVec a (f k) else f k) ks)
  = addCostVec a (sumCosts (map f ks)).
Proof.
  induction 1 as [|k ks Hk Hnd IH]; intros Hin.
  - inversion Hin.
  - cbn [map sumCosts foldr]. fold (sumCosts (map f ks)).
    fold (sumCosts (map (fun k => if decide (k = k0) then addCostVec a (f k) else f k) ks)).
    destruct (decide (k = k0)) as [->|Hne].
    + assert (Hsame : map (fun k => if decide (k = k0) then addCostVec a (f k) else f k) ks
                      = map f ks).
      { apply map_ext_in. intros k Hk'. destruct (decide (k = k0)) as [->|]; [|reflexivity].
        exfalso. apply Hk. apply list_elem_of_In. exact Hk'. }
      rewrite Hsame. apply addCostVec_assoc.
    + rewrite IH by (inversion Hin; subst; [congruence | assumption]).
      rewrite <- !addCostVec_assoc. f_equal. apply addCostVec_comm.
Qed.

Lemma sumCosts_nil {K} (ks : list K) :
  sumCosts (map (fun _ => []) ks) = [].
Proof. induction ks as [|k ks IH]; [reflexivity|]. cbn. exact IH. Qed.

(** Grouping the records of an arena by their part function and summing the
    groups gives the sum of all records. *)
Lemma sumCosts_by_partFunction (ks : list TracePartFunction) (rs : list FixCost) :
  NoDup ks ->
  Forall (fun fc => exists pf, fcPartFunction fc = Some pf /\ pf ∈ ks) rs ->
  sumCosts (map (fun pf =>
                   sumCosts (map fcCost
                     (filter (fun fc => fcPartFunction fc = Some pf) rs))) ks)
  = sumCosts (map fcCost rs).
Proof.
  intros Hnd. induction 1 as [|r rs (pf & Hr & Hin) Hrs IH].
  - apply (sumCosts_nil ks).
  - cbn [map sumCosts foldr]. fold (sumCosts (map fcCost rs)).
    rewrite <- IH.
    rewrite <- (sumCosts_add_at _ (fcCost r) pf ks Hnd Hin).
    f_equal. apply map_ext. intros k.
    rewrite filter_cons.
    destruct (decide (k = pf)) as [->|Hne].
    + rewrite decide_True by assumption. reflexivity.
    + rewrite decide_False by congruence. reflexivity.
Qed.

Lemma partCost_sum (p : TracePart) :
  Forall (fun fc => fcPartFunction fc <> None) (fixCosts p) ->
  partCost p = sumCosts (map fcCost (fixCosts p)).
Proof.
  intros H. unfold partCost, partFunctionCost, partFunctions.
  apply sumCosts_by_partFunction.
  - apply NoDup_remove_dups.
  - apply Forall_forall. intros fc Hfc.
    rewrite Forall_forall in H. specialize (H fc Hfc).
    destruct (fcPartFunction fc) as [pf|] eqn:Hpf; [|congruence].
    exists pf. split; [reflexivity|].
    apply elem_of_remove_dups. apply list_elem_of_omap. exists fc. split; assumption.
Qed.

(** C8: after a successful load into a new part of a file without a
    [summary:] line, the totals of the part are the pointwise sum of the
    costs of its part functions, which is the pointwise sum of all the
    event vectors the cost lines of the file attributed. *)
Theorem totals_are_sum_of_part_costs
    (part : TracePart) (data : TraceData) (l : CachegrindLoader)
    (lines : list FixString) (st : CachegrindLoader) :
  fixCosts part = [] ->
  Forall (fun x => stripPrefix "summary:" x = None) lines ->
  loadTraceInternal part data (Some lines) l = Done true st ->
  totals (_part st)
  = sumCosts (map (fun pf => partFunctionCost pf (_part st)) (partFunctions (_part st)))
  /\ totals (_part st) = sumCosts (map fcCost (fixCosts (_part st))).
Proof.
  intros Hnew _ H.
  apply loadTraceInternal_success in H as (s & Hrun & ->).
  pose proof (loaderStart_facts part data l) as (_ & _ & Ha0 & _ & Hok0).
  pose proof (loadLines_keeps lines (loaderStart part data l)) as (_ & _ & _ & K).
  cbn zeta in K. rewrite Hrun in K. cbn [state_of] in K.
  destruct K as [_ Hao]; [assumption| |].
  { unfold arenaOk. unfold arena in Ha0. simplify_eq.
    replace (fixCosts (_part (loaderStart part data l))) with (fixCosts part)
      by congruence.
    rewrite Hnew. constructor. }
  split; [reflexivity|].
  cbn [totals _part upd_part set__part set_totals].
  rewrite partCost_sum; [reflexivity|].
  exact Hao.
Qed.

(** Scenario S2: two cost lines of one function, with totals 150. *)
Lemma totals_are_sum_of_part_costs_witness :
  let r := loadTrace emptyPart emptyData
             (Some ["events: Ir"; "fl=(1) a.c"; "fn=(1) f"; "10 100"; "fn=(1)"; "11 50"]) in
  (totals (_part (outState r))
   = sumCosts (map (fun pf => partFunctionCost pf (_part (outState r)))
                 (partFunctions (_part (outState r))))
   /\ totals (_part (outState r)) = sumCosts (map fcCost (fixCosts (_part (outState r)))))
  /\ totals (_part (outState r)) = [150].
Proof.
  intros r. split; [|vm_compute; reflexivity].
  apply (totals_are_sum_of_part_costs emptyPart emptyData
           (newCachegrindLoader emptyPart emptyData)
           ["events: Ir"; "fl=(1) a.c"; "fn=(1) f"; "10 100"; "fn=(1)"; "11 50"]
           (outState r)).
  - reflexivity.
  - repeat constructor.
  - vm_compute. reflexivity.
Defined.


(* ================================================================== *)
(** ** Properties of the compression dictionary *)







(** What the three [compressed...] functions compute from the text of a
    line, [rest] being what follows the closing parenthesis. *)
Lemma compText_shape ds rest :
  ds <> EmptyString -> allDigits ds = true ->
  let text := String "(" (ds +:+ String ")" rest) in
  let p := findChar ")" text in
  isRegularName text = false /\
  p = 1 + slen ds /\
  (p <? 2) = false /\
  mid 1 (p - 1) text = ds /\
  (p + 1 <? slen text) = negb (String.eqb rest EmptyString) /\
  midFrom (p + 1) text = rest.
Proof.
  intros Hne Hd text p.
  assert (Hp : p = 1 + slen ds).
  { unfold p, findChar, find, text. cbn [findFrom isPrefix].
    change (Ascii.eqb ")" "(") with false. cbn [andb].
    rewrite findFrom_digits by assumption. lia. }
  assert (Hlen : 1 <= slen ds).
  { destruct ds; [congruence|]. rewrite slen_cons. pose proof (slen_nonneg ds). lia. }
  repeat split.
  - unfold isRegularName, text. cbn [strAt]. destruct ds as [|c ds]; [congruence|].
    rewrite app_cons. cbn [strAt].
    cbn [allDigits] in Hd. apply andb_prop in Hd as [-> _]. reflexivity.
  - exact Hp.
  - apply Z.ltb_ge. lia.
  - rewrite Hp. unfold mid, text.
    replace (Z.to_nat 1) with 1%nat by reflexivity. cbn [dropStr].
    replace (Z.to_nat (1 + slen ds - 1)) with (String.length ds)
      by (unfold slen; lia).
    apply takeStr_app.
  - rewrite Hp. unfold text. rewrite slen_cons, slen_app, slen_cons.
    destruct rest as [|c rest].
    + cbn [String.eqb negb]. apply Z.ltb_ge. unfold slen at 2. cbn. lia.
    + cbn [String.eqb negb]. apply Z.ltb_lt. rewrite slen_cons.
      pose proof (slen_nonneg rest). lia.
  - rewrite Hp. unfold midFrom, text.
    replace (Z.to_nat (1 + slen ds + 1)) with (S (String.length ds + 1))
      by (unfold slen; lia).
    cbn [dropStr]. 
    replace (String.length ds + 1)%nat with (String.length (ds +:+ ")"))
      by (pose proof (slen_app ds ")") as E; unfold slen in E; cbn in E; lia).
    replace (ds +:+ String ")" rest) with ((ds +:+ ")") +:+ rest).
    + apply dropStr_app.
    + clear. induction ds as [|c ds IH]; [reflexivity|].
      rewrite !app_cons, IH. reflexivity.
Qed.


Lemma compText_ref ds :
  compText (CompRef ds) = String "(" (ds +:+ String ")" EmptyString).
Proof. reflexivity. Qed.

Lemma wfCompLine_id l :
  wfCompLine l ->
  0 <= compId l < 2 ^ 31 /\
  toUInt (compDigits l) = compId l /\
  wrap32 (toInt (compDigits l)) = compId l.
Proof.
  intros (Hne & Hd & Hr). unfold compId in *. repeat split.
  - apply decimalAcc_nonneg; [assumption|lia].
  - assumption.
  - apply toUInt_digits; [assumption..|lia].
  - apply toInt_digits; assumption.
Qed.











(* ================================================================== *)
(** ** Further properties of the position parser *)

Lemma digit_head_facts c :
  isDigit c = true ->
  char_lt "9" c = false /\ Ascii.eqb c "*" = false /\ Ascii.eqb c "+" = false /\
  Ascii.eqb c "-" = false /\ Ascii.eqb c ":" = false /\ char_le "0" c = true /\
  Ascii.eqb " " c = false /\ char_le c "9" = true.
Proof.
  destruct c as [[] [] [] [] [] [] [] []]; vm_compute; intros H;
    try discriminate H; repeat split.
Qed.

Lemma stripUInt64_digits skip ds rest :
  isNumber ds -> noDigitHead rest ->
  stripUInt64 skip (ds +:+ rest)
  = (true, wrap64 (decimalValue ds), if skip then stripSpaces rest else rest).
Proof.
  intros [Hne Hd] Hr. unfold stripUInt64, stripUIntW.
  destruct ds as [|c ds]; [congruence|].
  rewrite app_cons. cbv iota beta.
  assert (Hc : isDigit c = true)
    by (cbn [allDigits] in Hd; now apply andb_prop in Hd).
  rewrite Hc. rewrite <- app_cons.
  change wrap64 with (fun z => z mod 2 ^ 64).
  rewrite digitsAcc_app by assumption. reflexivity.
Qed.

Lemma lineRange_none r rest st : noRangeHead rest -> lineRange r rest st = (rest, st).
Proof.
  unfold lineRange, noRangeHead. destruct rest as [|c rest]; [reflexivity|].
  cbn [first]. intros (-> & -> & ->). reflexivity.
Qed.

Lemma addrRange_none r rest st : noRangeHead rest -> addrRange r rest st = (rest, st).
Proof.
  unfold addrRange, noRangeHead. destruct rest as [|c rest]; [reflexivity|].
  cbn [first]. intros (-> & -> & ->). reflexivity.
Qed.

Lemma getPos_updPos r f st : getPos r (updPos r f st) = f (getPos r st).
Proof. destruct r; reflexivity. Qed.

Lemma flags_updPos r f st :
  hasLineInfo (updPos r f st) = hasLineInfo st /\
  hasAddrInfo (updPos r f st) = hasAddrInfo st.
Proof. destruct r; split; reflexivity. Qed.

Lemma digits_head ds rest :
  isNumber ds -> exists c tl, ds +:+ rest = String c tl /\ isDigit c = true.
Proof.
  intros [Hne Hd]. destruct ds as [|c ds]; [congruence|].
  exists c, (ds +:+ rest). split; [reflexivity|].
  cbn [allDigits] in Hd. now apply andb_prop in Hd.
Qed.

(** The line column of a literal number, before its range. *)
Lemma parseLineColumn_literal r ds rest st :
  isNumber ds -> noDigitHead rest ->
  parseLineColumn r (ds +:+ rest) st
  = (let st1 := updPos r (set_fromLine (wrap32 (decimalValue ds))) st in
     let st2 := updPos r (fun p => set_toLine (fromLine p) p) st1 in
     let '(line, st3) := lineRange r rest st2 in
     Some (stripSpaces line, st3)).
Proof.
  intros Hn Hr. destruct (digits_head ds rest Hn) as (c & tl & E & Hc).
  unfold parseLineColumn. rewrite E. cbn [first].
  destruct (digit_head_facts c Hc) as (-> & -> & -> & -> & _ & -> & _).
  rewrite <- E. destruct Hn as [Hne Hd].
  rewrite stripUInt_digits by assumption. reflexivity.
Qed.

(** The line column [+N], before its range. *)
Lemma parseLineColumn_plus r ds rest st :
  isNumber ds -> noDigitHead rest ->
  parseLineColumn r (String "+" (ds +:+ rest)) st
  = (let st1 := updPos r (set_fromLine
                  (wrap32 (fromLine (currentPos st) + wrap32 (decimalValue ds)))) st in
     let st2 := updPos r (fun p => set_toLine (fromLine p) p) st1 in
     let '(line, st3) := lineRange r rest st2 in
     Some (stripSpaces line, st3)).
Proof.
  intros [Hne Hd] Hr. unfold parseLineColumn. cbn [first tailStr].
  change (char_lt "9" "+") with false.
  change (Ascii.eqb "+" "*") with false.
  change (Ascii.eqb "+" "+") with true. cbv iota.
  rewrite stripUInt_digits by assumption. reflexivity.
Qed.

Lemma parsePosition_lineOnly r line st :
  lineOnly st ->
  parsePosition r line st
  = match parseLineColumn r line st with
    | None => (false, line, st)
    | Some (rest, st') => (true, rest, st')
    end.
Proof. intros [Ha Hl]. unfold parsePosition. rewrite Ha, Hl. reflexivity. Qed.

Lemma stripSpaces_idem s : stripSpaces (stripSpaces s) = stripSpaces s.
Proof.
  unfold stripSpaces. induction s as [|c s IH]; [reflexivity|].
  cbn [dropWhile]. destruct (Ascii.eqb " " c) eqn:E; [exact IH|].
  cbn [dropWhile]. now rewrite E.
Qed.

(** X1: with the default columns, the position [*] of a cost line leaves the
    running cursor, and the whole loader, as it was; as the target of a jump
    line, [*] gives the target the line range of the cursor. *)
Theorem star_inherits_cursor (rest : FixString) (st : CachegrindLoader) :
  lineOnly st -> noRangeHead rest ->
  parsePosition RefCurrentPos (String "*" rest) st = (true, stripSpaces rest, st) /\
  exists st',
    parsePosition RefTargetPos (String "*" rest) st = (true, stripSpaces rest, st') /\
    fromLine (targetPos (jump st')) = fromLine (currentPos st) /\
    toLine (targetPos (jump st')) = toLine (currentPos st) /\
    currentPos st' = currentPos st.
Proof.
  intros Hcols Hr. rewrite !parsePosition_lineOnly by assumption.
  unfold parseLineColumn. cbn [first tailStr].
  change (char_lt "9" "*") with false.
  change (Ascii.eqb "*" "*") with true. cbv iota.
  rewrite !lineRange_none by assumption. split.
  - f_equal. cbn [updPos currentPos set_currentPos].
    destruct st as [? ? ? ? ? ? ? p ? ? ? ? ? ? ?]. destruct p. reflexivity.
  - eexists. split; [reflexivity|]. repeat split.
Qed.

(** A cursor at line 7 and the position [*] before a cost of 100. *)
Lemma star_inherits_cursor_witness :
  let st := set_currentPos (mkPositionSpec 7 7 0 0) exampleLoader in
  parsePosition RefCurrentPos "* 100" st = (true, "100", st) /\
  exists st',
    parsePosition RefTargetPos "* 100" st = (true, "100", st') /\
    fromLine (targetPos (jump st')) = fromLine (currentPos st) /\
    toLine (targetPos (jump st')) = toLine (currentPos st) /\
    currentPos st' = currentPos st.
Proof.
  intros st.
  apply (star_inherits_cursor " 100" st); vm_compute; repeat split.
Defined.

(** X2: with the default columns, a literal line number [N] that no range
    follows sets both ends of the line range to [N] (modulo 2^32) and leaves
    the address range as it was, whatever the cursor held. *)
Theorem literal_line_sets_both_ends
    (r : PosRef) (ds rest : string) (st : CachegrindLoader) :
  lineOnly st -> isNumber ds -> noDigitHead rest -> noRangeHead rest ->
  exists st',
    parsePosition r (ds +:+ rest) st = (true, stripSpaces rest, st') /\
    getPos r st'
    = mkPositionSpec (wrap32 (decimalValue ds)) (wrap32 (decimalValue ds))
        (fromAddr (getPos r st)) (toAddr (getPos r st)).
Proof.
  intros Hcols Hn Hd Hr. rewrite parsePosition_lineOnly by assumption.
  rewrite parseLineColumn_literal by assumption. cbv zeta.
  rewrite lineRange_none by assumption.
  eexists. split; [reflexivity|].
  rewrite !getPos_updPos. destruct (getPos r st). reflexivity.
Qed.

(** The cost line [10 100] of scenario S1. *)
Lemma literal_line_sets_both_ends_witness :
  exists st',
    parsePosition RefCurrentPos ("10" +:+ " 100") exampleLoader
    = (true, stripSpaces " 100", st') /\
    getPos RefCurrentPos st'
    = mkPositionSpec (wrap32 (decimalValue "10")) (wrap32 (decimalValue "10"))
        (fromAddr (getPos RefCurrentPos exampleLoader))
        (toAddr (getPos RefCurrentPos exampleLoader)).
Proof.
  apply (literal_line_sets_both_ends RefCurrentPos "10" " 100" exampleLoader);
    vm_compute; repeat split; congruence.
Defined.

(** X3: with the default columns, the ranges [a:b] and [a-b] give the line
    range from [a] to [b], and [a+d] gives the range from [a] to [a+d]
    (all modulo 2^32). *)
Theorem line_ranges
    (r : PosRef) (a b rest : string) (st : CachegrindLoader) :
  lineOnly st -> isNumber a -> isNumber b -> noDigitHead rest ->
  let A := wrap32 (decimalValue a) in
  let B := wrap32 (decimalValue b) in
  (exists st',
      parsePosition r (a +:+ ":" +:+ b +:+ rest) st = (true, stripSpaces rest, st') /\
      fromLine (getPos r st') = A /\ toLine (getPos r st') = B) /\
  (exists st',
      parsePosition r (a +:+ "-" +:+ b +:+ rest) st = (true, stripSpaces rest, st') /\
      fromLine (getPos r st') = A /\ toLine (getPos r st') = B) /\
  (exists st',
      parsePosition r (a +:+ "+" +:+ b +:+ rest) st = (true, stripSpaces rest, st') /\
      fromLine (getPos r st') = A /\ toLine (getPos r st') = wrap32 (A + B)).
Proof.
  intros Hcols Ha Hb Hr A B. destruct Hb as [Hbn Hbd].
  rewrite !parsePosition_lineOnly by assumption.
  change (":" +:+ b +:+ rest) with (String ":" (b +:+ rest)).
  change ("-" +:+ b +:+ rest) with (String "-" (b +:+ rest)).
  change ("+" +:+ b +:+ rest) with (String "+" (b +:+ rest)).
  rewrite !parseLineColumn_literal by (first [assumption | reflexivity]).
  cbv zeta. unfold lineRange. cbn [first tailStr].
  change (Ascii.eqb ":" "+") with false.
  change (Ascii.eqb "-" "+") with false.
  change (Ascii.eqb "+" "+") with true.
  change (Ascii.eqb ":" "-" || Ascii.eqb ":" ":") with true.
  change (Ascii.eqb "-" "-" || Ascii.eqb "-" ":") with true.
  cbv iota.
  rewrite !stripUInt_digits by assumption. rewrite !stripSpaces_idem.
  repeat split; eexists; (split; [reflexivity|]);
    rewrite !getPos_updPos; destruct (getPos r st); split; reflexivity.
Qed.

(** The range from line 10 to line 12 in its three spellings. *)
Lemma line_ranges_witness :
  let A := wrap32 (decimalValue "10") in
  let B := wrap32 (decimalValue "12") in
  let st := exampleLoader in
  let r := RefCurrentPos in
  (exists st',
      parsePosition r ("10" +:+ ":" +:+ "12" +:+ " 5") st = (true, stripSpaces " 5", st') /\
      fromLine (getPos r st') = A /\ toLine (getPos r st') = B) /\
  (exists st',
      parsePosition r ("10" +:+ "-" +:+ "12" +:+ " 5") st = (true, stripSpaces " 5", st') /\
      fromLine (getPos r st') = A /\ toLine (getPos r st') = B) /\
  (exists st',
      parsePosition r ("10" +:+ "+" +:+ "12" +:+ " 5") st = (true, stripSpaces " 5", st') /\
      fromLine (getPos r st') = A /\ toLine (getPos r st') = wrap32 (A + B)).
Proof.
  apply (line_ranges RefCurrentPos "10" "12" " 5" exampleLoader);
    vm_compute; repeat split; congruence.
Defined.

(** X4: with the default columns, the relative position [+N] that no range
    follows moves both ends of the line range to the from-line of the
    running cursor plus [N] (modulo 2^32); the to-line of the cursor plays
    no part. *)
Theorem plus_line_is_relative_to_cursor
    (r : PosRef) (ds rest : string) (st : CachegrindLoader) :
  lineOnly st -> isNumber ds -> noDigitHead rest -> noRangeHead rest ->
  let L := wrap32 (fromLine (currentPos st) + wrap32 (decimalValue ds)) in
  exists st',
    parsePosition r (String "+" (ds +:+ rest)) st = (true, stripSpaces rest, st') /\
    fromLine (getPos r st') = L /\ toLine (getPos r st') = L.
Proof.
  intros Hcols Hn Hd Hr L. rewrite parsePosition_lineOnly by assumption.
  rewrite parseLineColumn_plus by assumption. cbv zeta.
  rewrite lineRange_none by assumption.
  eexists. split; [reflexivity|].
  rewrite !getPos_updPos. destruct (getPos r st). split; reflexivity.
Qed.

(** A cursor on the lines 7 to 9 and the position [+3]. *)
Lemma plus_line_is_relative_to_cursor_witness :
  let st := set_currentPos (mkPositionSpec 7 9 0 0) exampleLoader in
  exists st',
    parsePosition RefCurrentPos (String "+" ("3" +:+ " 1")) st
    = (true, stripSpaces " 1", st') /\
    fromLine (getPos RefCurrentPos st') = 10 /\
    toLine (getPos RefCurrentPos st') = 10.
Proof.
  intros st.
  apply (plus_line_is_relative_to_cursor RefCurrentPos "3" " 1" st);
    vm_compute; repeat split; congruence.
Defined.

(** X5: with the default columns, the relative position [-N] subtracts [N]
    from the from-line of the running cursor when [N] is at most that line;
    when [N] is larger it logs the warning and subtracts 1 instead (the
    result wraps modulo 2^32 when the cursor is at line 0). *)
Theorem minus_line_subtracts_or_steps_back
    (ds rest : string) (st : CachegrindLoader) :
  lineOnly st -> isNumber ds -> noDigitHead rest ->
  let N := wrap32 (decimalValue ds) in
  exists rest' st',
    parsePosition RefCurrentPos (String "-" (ds +:+ rest)) st = (true, rest', st') /\
    fromLine (currentPos st')
    = (if fromLine (currentPos st) <? N
       then wrap32 (fromLine (currentPos st) - 1)
       else wrap32 (fromLine (currentPos st) - N)) /\
    ((fromLine (currentPos st) <? N) = true -> In negativeLineWarning (kdLog st')).
Proof.
  intros [Ha Hl] [Hne Hd] Hr. apply parsePosition_minus_line; assumption.
Qed.

(** A cursor at line 0 and the position [-1]: the from-line wraps. *)
Lemma minus_line_subtracts_or_steps_back_witness :
  exists rest' st',
    parsePosition RefCurrentPos (String "-" ("1" +:+ " 5")) exampleLoader
    = (true, rest', st') /\
    fromLine (currentPos st') = 4294967295 /\
    ((fromLine (currentPos exampleLoader) <? wrap32 (decimalValue "1")) = true ->
     In negativeLineWarning (kdLog st')).
Proof.
  apply (minus_line_subtracts_or_steps_back "1" " 5" exampleLoader);
    vm_compute; repeat split; congruence.
Defined.

Lemma parseAddrColumn_plus r ds rest st :
  isNumber ds -> noDigitHead rest ->
  parseAddrColumn r (String "+" (ds +:+ rest)) st
  = (let st1 := updPos r (set_fromAddr
                  (wrap64 (fromAddr (currentPos st) + wrap32 (decimalValue ds)))) st in
     let st2 := updPos r (fun p => set_toAddr (fromAddr p) p) st1 in
     let '(line, st3) := addrRange r rest st2 in
     Some (stripSpaces line, st3)).
Proof.
  intros [Hne Hd] Hr. unfold parseAddrColumn. cbn [first tailStr].
  change (Ascii.eqb "+" "*") with false.
  change (Ascii.eqb "+" "+") with true. cbv iota.
  rewrite stripUInt_digits by assumption. reflexivity.
Qed.

Lemma parseAddrColumn_literal r ds rest st :
  isNumber ds -> noDigitHead rest ->
  parseAddrColumn r (ds +:+ rest) st
  = (let st1 := updPos r (set_fromAddr (wrap64 (decimalValue ds))) st in
     let st2 := updPos r (fun p => set_toAddr (fromAddr p) p) st1 in
     let '(line, st3) := addrRange r rest st2 in
     Some (stripSpaces line, st3)).
Proof.
  intros Hn Hr. destruct (digits_head ds rest Hn) as (c & tl & E & Hc).
  unfold parseAddrColumn. rewrite E. cbn [first].
  destruct (digit_head_facts c Hc) as (_ & -> & -> & -> & _ & -> & _).
  rewrite <- E. rewrite stripUInt64_digits by assumption. reflexivity.
Qed.

(** X6: with [positions: instr line], a cost line gives the address first
    and the line second.  [+N *] moves the address of the cursor by [N]
    (modulo 2^64) and keeps its line range; [a l], two literal numbers, sets
    the address to [a] and the line to [l]. *)
Theorem address_then_line
    (a l rest : string) (st : CachegrindLoader) :
  hasAddrInfo st = true -> hasLineInfo st = true ->
  isNumber a -> isNumber l -> noDigitHead rest -> noRangeHead rest ->
  let cursor := currentPos st in
  (exists st',
      parsePosition RefCurrentPos (String "+" (a +:+ " *" +:+ rest)) st
      = (true, stripSpaces rest, st') /\
      currentPos st'
      = mkPositionSpec (fromLine cursor) (toLine cursor)
          (wrap64 (fromAddr cursor + wrap32 (decimalValue a)))
          (wrap64 (fromAddr cursor + wrap32 (decimalValue a)))) /\
  (exists st',
      parsePosition RefCurrentPos (a +:+ " " +:+ l +:+ rest) st
      = (true, stripSpaces rest, st') /\
      currentPos st'
      = mkPositionSpec (wrap32 (decimalValue l)) (wrap32 (decimalValue l))
          (wrap64 (decimalValue a)) (wrap64 (decimalValue a))).
Proof.
  intros Ha Hl Hna Hnl Hd Hr cursor. unfold parsePosition. rewrite Ha.
  change (" *" +:+ rest) with (String " " (String "*" rest)).
  change (" " +:+ l +:+ rest) with (String " " (l +:+ rest)).
  rewrite parseAddrColumn_plus, parseAddrColumn_literal
    by (first [assumption | reflexivity]).
  cbv zeta. rewrite !addrRange_none by (repeat split).
  destruct (flags_updPos RefCurrentPos (fun p => set_toAddr (fromAddr p) p)
              (updPos RefCurrentPos
                 (set_fromAddr (wrap64 (fromAddr (currentPos st)
                                        + wrap32 (decimalValue a)))) st))
    as [E1 _].
  destruct (flags_updPos RefCurrentPos (fun p => set_toAddr (fromAddr p) p)
              (updPos RefCurrentPos (set_fromAddr (wrap64 (decimalValue a))) st))
    as [E2 _].
  rewrite E1, E2.
  cbn [updPos hasLineInfo set_currentPos]. rewrite Hl.
  split.
  - change (stripSpaces (String " " (String "*" rest))) with (String "*" rest).
    unfold parseLineColumn. cbn [first tailStr].
    change (char_lt "9" "*") with false.
    change (Ascii.eqb "*" "*") with true. cbv iota.
    rewrite lineRange_none by assumption.
    eexists. split; [reflexivity|].
    cbn [updPos currentPos set_currentPos]. subst cursor.
    destruct (currentPos st). reflexivity.
  - assert (Hs : stripSpaces (String " " (l +:+ rest)) = l +:+ rest).
    { destruct (digits_head l rest Hnl) as (c & tl & E & Hc). rewrite E.
      unfold stripSpaces. cbn [dropWhile].
      change (Ascii.eqb " " " ") with true. cbv iota. cbn [dropWhile].
      destruct (digit_head_facts c Hc) as (_ & _ & _ & _ & _ & _ & -> & _).
      reflexivity. }
    rewrite Hs. rewrite parseLineColumn_literal by assumption.
    cbv zeta. rewrite lineRange_none by assumption.
    eexists. split; [reflexivity|].
    cbn [updPos currentPos set_currentPos].
    destruct (currentPos st). reflexivity.
Qed.

(** Scenario S4 in decimal: after [positions: instr line], the lines
    [+4 * 5] and [4 10 5]. *)
Lemma address_then_line_witness :
  let st := state_of (processLine "positions: instr line" exampleLoader) in
  let cursor := currentPos st in
  (exists st',
      parsePosition RefCurrentPos (String "+" ("4" +:+ " *" +:+ " 5")) st
      = (true, stripSpaces " 5", st') /\
      currentPos st'
      = mkPositionSpec (fromLine cursor) (toLine cursor)
          (wrap64 (fromAddr cursor + wrap32 (decimalValue "4")))
          (wrap64 (fromAddr cursor + wrap32 (decimalValue "4")))) /\
  (exists st',
      parsePosition RefCurrentPos ("4" +:+ " " +:+ "10" +:+ " 5") st
      = (true, stripSpaces " 5", st') /\
      currentPos st'
      = mkPositionSpec (wrap32 (decimalValue "10")) (wrap32 (decimalValue "10"))
          (wrap64 (decimalValue "4")) (wrap64 (decimalValue "4"))).
Proof.
  intros st.
  apply (address_then_line "4" "10" " 5" st); vm_compute; repeat split; congruence.
Defined.

(* ================================================================== *)
(** ** The target position of a jump *)

Lemma targetFrame_refl st : targetFrame st st.
Proof.
  exists (targetPos (jump st)), (kdLog st).
  destruct st as [? ? ? ? ? ? ? ? ? ? [] ? ? ? ?]; reflexivity.
Qed.

Lemma targetFrame_trans a b c : targetFrame a b -> targetFrame b c -> targetFrame a c.
Proof.
  intros (t & l & ->) (t' & l' & ->).
  exists t', l'. destruct a as [? ? ? ? ? ? ? ? ? ? [] ? ? ? ?]; reflexivity.
Qed.

Lemma targetFrame_updPos f st : targetFrame st (updPos RefTargetPos f st).
Proof.
  exists (f (targetPos (jump st))), (kdLog st).
  destruct st as [? ? ? ? ? ? ? ? ? ? [] ? ? ? ?]; reflexivity.
Qed.

Lemma targetFrame_kdWarning m st : targetFrame st (kdWarning m st).
Proof.
  exists (targetPos (jump st)), (kdLog st ++ [mkDiagnostic KdWarning m])%list.
  destruct st as [? ? ? ? ? ? ? ? ? ? [] ? ? ? ?]; reflexivity.
Qed.

Ltac targetframe_step :=
  first [ apply targetFrame_refl
        | apply targetFrame_updPos
        | apply targetFrame_kdWarning
        | eapply targetFrame_trans; [ | apply targetFrame_updPos ]
        | eapply targetFrame_trans; [ | apply targetFrame_kdWarning ] ].

Lemma parseAddrColumn_targetFrame line st line' st' :
  parseAddrColumn RefTargetPos line st = Some (line', st') -> targetFrame st st'.
Proof.
  unfold parseAddrColumn, addrRange. intros H.
  repeat (case_match; simplify_eq); repeat targetframe_step.
Qed.

Lemma parseLineColumn_targetFrame line st line' st' :
  parseLineColumn RefTargetPos line st = Some (line', st') -> targetFrame st st'.
Proof.
  unfold parseLineColumn, lineRange. intros H.
  repeat (case_match; simplify_eq); repeat targetframe_step.
Qed.

Lemma parsePosition_targetFrame line st :
  targetFrame st (snd (parsePosition RefTargetPos line st)).
Proof.
  unfold parsePosition.
  repeat (case_match; simplify_eq); simpl; try apply targetFrame_refl.
  all: repeat match goal with
       | H : parseAddrColumn _ _ _ = Some _ |- _ => apply parseAddrColumn_targetFrame in H
       | H : parseLineColumn _ _ _ = Some _ |- _ => apply parseLineColumn_targetFrame in H
       end; eauto using targetFrame_trans.
Qed.

Ltac target_of_pairs :=
  repeat match goal with
  | H : parsePosition RefTargetPos ?l ?s = (_, _, _) |- _ =>
      let E := fresh "E" in
      pose proof (parsePosition_targetFrame l s) as E; rewrite H in E;
      cbn [snd] in E; destruct E as (? & ? & ->); clear H
  end.

(* ================================================================== *)
(** ** The loop as a whole *)

(** [compressedFunction] faults only when it is given no object, and the
    loader is then as it was. *)
Lemma compressedFunction_fault n f o st c :
  compressedFunction n f o st = Fault c -> o = None /\ c = st.
Proof. unfold compressedFunction. split_cases; intros; simplify_eq; auto. Qed.

Lemma sturdy_continue st s :
  _lineNo s = _lineNo st -> currentPos s = currentPos st ->
  (subMapping st <> None -> subMapping s <> None) ->
  (currentObject (cur st) <> None -> currentObject (cur s) <> None) ->
  sturdy st (Continue s).
Proof. unfold sturdy. cbn. intuition. Qed.

Lemma sturdy_core st s :
  core s = core st ->
  (currentObject (cur st) <> None -> currentObject (cur s) <> None) ->
  sturdy st (Continue s).
Proof.
  intros Hc Ho. unfold core in Hc. simplify_eq.
  apply sturdy_continue; auto; congruence.
Qed.

Lemma sturdy_invalidLine st : sturdy st (invalidLine st).
Proof. apply sturdy_continue; auto. Qed.

Lemma object_setObject n st : currentObject (cur (setObject n st)) <> None.
Proof. unfold setObject. cursors_solve. Qed.

Lemma object_setFile n st :
  currentObject (cur (setFile n st)) = currentObject (cur st).
Proof. unfold setFile. cursors_solve. Qed.

Lemma cur_setCalledObject n st : cur (setCalledObject n st) = cur st.
Proof. unfold setCalledObject. cursors_solve. Qed.

Lemma cur_setCalledFile n st : cur (setCalledFile n st) = cur st.
Proof. unfold setCalledFile. cursors_solve. Qed.

Lemma object_setFunction n st :
  currentObject (cur (outState (setFunction n st))) <> None.
Proof.
  destruct (setFunction_effect n st) as (s & -> & E). cbn [outState].
  destruct E as (_ & _ & _ & _ & _ & -> & _). discriminate.
Qed.

Lemma cur_setCalledFunction n st : cur (outState (setCalledFunction n st)) = cur st.
Proof. unfold setCalledFunction. cursors_solve. Qed.

(** With the object cursor set, [setCalledFunction] returns: the object it
    passes is the called object, or the current one. *)
Lemma setCalledFunction_done n st :
  currentObject (cur st) <> None -> exists st', setCalledFunction n st = Done tt st'.
Proof.
  intros Ho. unfold setCalledFunction.
  match goal with |- context [compressedFunction ?a ?f ?o ?s] =>
    destruct (compressedFunction a f o s) as [r s1|s1] eqn:E end; [eauto|].
  exfalso. apply compressedFunction_fault in E as [E _].
  revert E. split_cases; cbn; congruence.
Qed.

Lemma sturdy_setFunction n st : sturdy st (continueAfter (setFunction n st)).
Proof.
  pose proof (core_setFunction n st) as Hc.
  pose proof (object_setFunction n st) as Ho.
  destruct (setFunction_done n st) as [s E]. rewrite E in *.
  cbn [outState continueAfter] in *. apply sturdy_core; auto.
Qed.

Lemma sturdy_setCalledFunction n st :
  sturdy st (continueAfter (setCalledFunction n st)).
Proof.
  pose proof (core_setCalledFunction n st) as Hc.
  pose proof (cur_setCalledFunction n st) as Hu.
  pose proof (setCalledFunction_done n st) as Hd.
  destruct (setCalledFunction n st) as [[] s|s]; cbn [outState continueAfter] in *.
  - apply sturdy_core; [assumption|]. rewrite Hu. auto.
  - unfold core in Hc. simplify_eq. unfold sturdy. cbn [state_of returned crashed].
    split; [congruence|]. split; [congruence|]. split.
    + intros Hs. split; [congruence|auto].
    + intros Ho. destruct (Hd Ho) as [s' E]. discriminate E.
Qed.

Ltac sturdy_leaf :=
  repeat match goal with H : stripPrefix _ _ = _ |- _ => clear H end;
  first
    [ apply sturdy_invalidLine
    | apply sturdy_setFunction
    | apply sturdy_setCalledFunction
    | apply sturdy_core;
      [ first [ apply core_setFile | apply core_setObject
              | apply core_setCalledObject | apply core_setCalledFile ]
      | first [ intros _; apply object_setObject
              | rewrite object_setFile; auto
              | rewrite cur_setCalledObject; auto
              | rewrite cur_setCalledFile; auto ] ]
    | apply sturdy_continue; cbn; first [reflexivity | congruence | auto] ].

Lemma case_f_sturdy line st : sturdy st (case_f line st).
Proof. unfold case_f. split_cases; sturdy_leaf. Qed.

Lemma case_c_sturdy line st : sturdy st (case_c line st).
Proof. unfold case_c, armCallCost. split_cases; sturdy_leaf. Qed.

Lemma case_j_sturdy line st : sturdy st (case_j line st).
Proof.
  unfold case_j. split_cases; target_of_pairs.
  all: try match goal with
       | H : compressedFunction _ _ _ _ = Fault _ |- _ =>
           apply compressedFunction_fault in H as [Ho ->]
       end.
  all: facts_of_pairs.
  all: try solve [sturdy_leaf].
  all: unfold sturdy, core, cursors in *; cbn in *; simplify_eq;
       repeat match goal with H : cur _ = cur _ |- _ => rewrite H in * end;
       repeat split; intros; cbn in *; try congruence; auto.
Qed.

Lemma case_o_sturdy line st : sturdy st (case_o line st).
Proof. unfold case_o. split_cases; sturdy_leaf. Qed.

Lemma case_t_sturdy line st : sturdy st (case_t line st).
Proof. unfold case_t. split_cases; sturdy_leaf. Qed.

Lemma case_d_sturdy line st : sturdy st (case_d line st).
Proof. unfold case_d. split_cases; sturdy_leaf. Qed.

Lemma case_e_sturdy line st : sturdy st (case_e line st).
Proof. unfold case_e. split_cases; sturdy_leaf. Qed.

Lemma case_p_sturdy line st : sturdy st (case_p line st).
Proof. unfold case_p. split_cases; sturdy_leaf. Qed.

Lemma case_v_sturdy line st : sturdy st (case_v line st).
Proof. unfold case_v. split_cases; sturdy_leaf. Qed.

Lemma case_r_sturdy line st : sturdy st (case_r line st).
Proof. unfold case_r, armCallCost. split_cases; sturdy_leaf. Qed.

Lemma case_s_sturdy line st : sturdy st (case_s line st).
Proof.
  unfold case_s. destruct (stripPrefix "ummary:" line); [|apply case_r_sturdy].
  destruct (subMapping st) eqn:E.
  - apply sturdy_continue; cbn; auto; congruence.
  - unfold sturdy. cbn. repeat split; auto; congruence.
Qed.

Lemma headerLine_sturdy c line st : sturdy st (headerLine c line st).
Proof.
  destruct c as [[] [] [] [] [] [] [] []]; cbn [headerLine];
    first
      [ apply case_s_sturdy | apply case_c_sturdy | apply case_o_sturdy
      | apply case_e_sturdy | apply case_d_sturdy | apply case_t_sturdy
      | apply case_j_sturdy | apply case_r_sturdy | apply case_v_sturdy
      | apply case_f_sturdy | apply case_p_sturdy
      | apply sturdy_invalidLine
      | apply sturdy_continue; auto ].
Qed.

Lemma ensureFunction_object st :
  currentObject (cur (ensureFunction st)) = currentObject (cur st).
Proof. unfold ensureFunction. cursors_solve. Qed.

Lemma costLine_sturdy line st :
  _lineNo (state_of (costLine line st)) = _lineNo st /\
  currentPos (state_of (costLine line st)) = currentPos st /\
  subMapping (state_of (costLine line st)) = subMapping st /\
  currentObject (cur (state_of (costLine line st))) = currentObject (cur st) /\
  ~ crashed (costLine line st) /\
  (subMapping st <> None -> ~ returned (costLine line st)).
Proof.
  unfold costLine.
  destruct (subMapping st) as [sm|] eqn:Hsm.
  2:{ cbn. rewrite Hsm. repeat split; auto. }
  pose proof (core_ensureFunction st) as Hcore.
  pose proof (ensureFunction_object st) as Hobj.
  generalize dependent (ensureFunction st). intros s1 Hcore Hobj.
  unfold core in Hcore. simplify_eq.
  split_cases; cbn [state_of returned crashed]; cbn;
    repeat split; auto; congruence.
Qed.

Lemma processLine_sturdy line st :
  _lineNo (state_of (processLine line st)) = _lineNo st + 1 /\
  (subMapping st <> None ->
   subMapping (state_of (processLine line st)) <> None /\
   ~ returned (processLine line st)) /\
  (currentObject (cur st) <> None ->
   currentObject (cur (state_of (processLine line st))) <> None /\
   ~ crashed (processLine line st)) /\
  ((forall c, first line = Some c -> char_le c "9" = false) ->
   currentPos (state_of (processLine line st)) = currentPos st).
Proof.
  unfold processLine.
  set (s0 := set__lineNo (_lineNo st + 1) st).
  assert (H0 : _lineNo s0 = _lineNo st + 1 /\ subMapping s0 = subMapping st /\
               currentPos s0 = currentPos st /\ cur s0 = cur st) by (repeat split).
  destruct H0 as (Hn0 & Hs0 & Hp0 & Hu0). clearbody s0.
  destruct (first line) as [c|] eqn:Hfirst.
  2:{ cbn [state_of returned crashed]. rewrite Hu0, Hs0. repeat split; auto. }
  destruct (char_le c "9") eqn:Hle.
  - pose proof (parsePosition_frame RefCurrentPos line s0) as (p & t & lg & Hf).
    destruct (parsePosition RefCurrentPos line s0) as [[ok rest] s1].
    cbn [snd] in Hf.
    assert (H1 : _lineNo s1 = _lineNo s0 /\ subMapping s1 = subMapping s0 /\
                 cur s1 = cur s0)
      by (subst s1; repeat split).
    destruct H1 as (Hn1 & Hs1 & Hu1). clear Hf.
    destruct ok; cbn [negb].
    + pose proof (costLine_sturdy rest s1) as (Kn & _ & Ks & Ko & Kc & Kr).
      rewrite Ks, Ko, Kn, Hu1, Hu0, Hs1, Hs0, Hn1.
      split; [congruence|]. split; [|split].
      * intros H. split; [assumption|]. apply Kr. congruence.
      * intros H. split; assumption.
      * intros H. specialize (H c eq_refl). congruence.
    + cbn [state_of returned crashed]. rewrite Hu1, Hu0, Hs1, Hs0, Hn1.
      split; [congruence|]. split; [|split]; auto.
      intros H. specialize (H c eq_refl). congruence.
  - pose proof (headerLine_sturdy c (tailStr line) s0) as (Kn & Kp & Ks & Ko).
    rewrite Hs0 in Ks. rewrite Hu0 in Ko.
    repeat split; try congruence.
    + apply Ks. assumption.
    + apply Ks. assumption.
    + apply Ko. assumption.
    + apply Ko. assumption.
Qed.

Lemma loadLines_running lines : forall st,
  subMapping st <> None -> currentObject (cur st) <> None ->
  exists s, loadLines lines st = Continue s /\
            subMapping s <> None /\ currentObject (cur s) <> None.
Proof.
  induction lines as [|x lines IH]; intros st Hs Ho; cbn [loadLines].
  - eauto.
  - destruct (processLine_sturdy x st) as (_ & Ks & Ko & _).
    destruct (Ks Hs) as [Ks1 Ks2]. destruct (Ko Ho) as [Ko1 Ko2].
    destruct (processLine x st) as [s|b s|s]; cbn in *; [|tauto|tauto].
    apply IH; assumption.
Qed.

Lemma loadLines_never_returns lines : forall st,
  subMapping st <> None -> ~ returned (loadLines lines st).
Proof.
  induction lines as [|x lines IH]; intros st Hs; cbn [loadLines].
  - cbn. auto.
  - destruct (processLine_sturdy x st) as (_ & Ks & _).
    destruct (Ks Hs) as [Ks1 Ks2].
    destruct (processLine x st) as [s|b s|s]; cbn in *; [|tauto|tauto].
    apply IH; assumption.
Qed.

Lemma arenaGrows_refl st : arenaGrows st st.
Proof. repeat split; reflexivity. Qed.

Lemma arenaGrows_trans a b c : arenaGrows a b -> arenaGrows b c -> arenaGrows a c.
Proof.
  intros (H1 & H2 & H3) (K1 & K2 & K3).
  repeat split; etrans; eassumption.
Qed.

Lemma arenaGrows_same st st' : arena st' = arena st -> arenaGrows st st'.
Proof.
  unfold arena, arenaGrows. intros H. simplify_eq.
  repeat split;
    match goal with E : ?x = _ |- _ `prefix_of` ?x => rewrite E end; reflexivity.
Qed.

Lemma costLine_arenaGrows line st :
  arenaGrows st (state_of (costLine line st)).
Proof.
  unfold costLine.
  destruct (subMapping st) as [sm|] eqn:Hsm.
  2:{ cbn. apply arenaGrows_same. reflexivity. }
  pose proof (core_ensureFunction st) as Hcore.
  generalize dependent (ensureFunction st). intros s1 Hcore.
  unfold core in Hcore. simplify_eq.
  unfold arenaGrows.
  repeat match goal with E : _part s1 = _ |- _ => rewrite <- E; clear E end.
  split_cases; cbn [state_of]; cbn;
    repeat split; first [ reflexivity | apply prefix_app_r; reflexivity ].
Qed.

Lemma processLine_arenaGrows line st :
  arenaGrows st (state_of (processLine line st)).
Proof.
  unfold processLine.
  set (s0 := set__lineNo (_lineNo st + 1) st).
  assert (H0 : arena s0 = arena st) by reflexivity. clearbody s0.
  eapply arenaGrows_trans; [apply arenaGrows_same, H0|]. clear H0.
  destruct (first line) as [c|] eqn:Hfirst; [|apply arenaGrows_refl].
  destruct (char_le c "9") eqn:Hle.
  - pose proof (parsePosition_frame RefCurrentPos line s0) as (p & t & lg & Hf).
    destruct (parsePosition RefCurrentPos line s0) as [[ok rest] s1].
    cbn [snd] in Hf.
    assert (H1 : arena s1 = arena s0) by (subst s1; reflexivity). clear Hf.
    eapply arenaGrows_trans; [apply arenaGrows_same, H1|].
    destruct ok; cbn [negb]; [apply costLine_arenaGrows | apply arenaGrows_refl].
  - pose proof (headerLine_keeps c (tailStr line) s0) as ((Ka & _) & _).
    apply arenaGrows_same, Ka.
Qed.

Lemma stripPrefix_heads a b p q line r :
  a <> b -> stripPrefix (String a p) line = Some r ->
  stripPrefix (String b q) line = None.
Proof.
  intros Hab H. destruct line as [|c line]; [reflexivity|].
  cbn [stripPrefix] in *.
  destruct (Ascii.eqb_spec a c) as [->|]; [|discriminate].
  destruct (Ascii.eqb_spec b c); [congruence|reflexivity].
Qed.

Lemma case_f_plain line st :
  exists s, case_f line st = Continue s /\
            (stripPrefix "n=" line <> None -> currentObject (cur s) <> None).
Proof.
  unfold case_f.
  destruct (stripPrefix "l=" line) as [l1|] eqn:E1.
  { eexists. split; [reflexivity|].
    rewrite (stripPrefix_heads "l" "n" "=" "=" line l1); [congruence|discriminate|exact E1]. }
  destruct (stripPrefix "i=" line) as [l2|] eqn:E2.
  { eexists. split; [reflexivity|].
    rewrite (stripPrefix_heads "i" "n" "=" "=" line l2); [congruence|discriminate|exact E2]. }
  destruct (stripPrefix "e=" line) as [l3|] eqn:E3.
  { eexists. split; [reflexivity|].
    rewrite (stripPrefix_heads "e" "n" "=" "=" line l3); [congruence|discriminate|exact E3]. }
  destruct (stripPrefix "n=" line) as [l4|].
  - pose proof (object_setFunction l4 st) as Ho.
    destruct (setFunction_done l4 st) as [s E]. rewrite E in *.
    cbn [continueAfter outState] in *. eauto.
  - eexists. split; [reflexivity|]. congruence.
Qed.

Lemma case_c_plain line st :
  stripPrefix "fn=" line = None -> exists s, case_c line st = Continue s.
Proof. intros H. unfold case_c, invalidLine. rewrite H. split_cases; eauto. Qed.

Lemma case_j_plain line st :
  stripPrefix "fn=" line = None -> exists s, case_j line st = Continue s.
Proof. intros H. unfold case_j, invalidLine. rewrite H. split_cases; eauto. Qed.

Lemma case_s_plain line st :
  stripPrefix "ummary:" line = None -> exists s, case_s line st = Continue s.
Proof.
  intros H. unfold case_s, case_r, invalidLine. rewrite H. split_cases; eauto.
Qed.

Lemma case_o_plain line st :
  exists s, case_o line st = Continue s /\
            (stripPrefix "b=" line <> None -> currentObject (cur s) <> None).
Proof.
  unfold case_o, invalidLine. destruct (stripPrefix "b=" line) as [l1|].
  - eexists. split; [reflexivity|]. intros _. apply object_setObject.
  - eexists. split; [reflexivity|]. congruence.
Qed.

Lemma case_e_plain line st :
  exists s, case_e line st = Continue s /\
            (stripPrefix "vents:" line <> None -> subMapping s <> None).
Proof.
  unfold case_e, invalidLine. destruct (stripPrefix "vents:" line) as [l1|].
  - eexists. split; [reflexivity|]. cbn. congruence.
  - split_cases; (eexists; split; [reflexivity|]); congruence.
Qed.

Lemma headerLine_plain c line st :
  stripPrefix "summary:" (String c line) = None ->
  stripPrefix "cfn=" (String c line) = None ->
  stripPrefix "jfn=" (String c line) = None ->
  exists s,
    headerLine c line st = Continue s /\
    (eventsLine (String c line) -> subMapping s <> None) /\
    (objectLine (String c line) -> currentObject (cur s) <> None).
Proof.
  unfold eventsLine, objectLine.
  destruct c as [[] [] [] [] [] [] [] []];
    cbn [headerLine stripPrefix Ascii.eqb Bool.eqb]; intros Hs Hc Hj.
  all: first
    [ solve [ eexists; split; [reflexivity|]; split; [congruence|];
              intros [K|K]; congruence ]
    | solve [ unfold case_t, case_d, case_p, case_v, case_r, invalidLine,
                armCallCost;
              split_cases;
              (eexists; split; [reflexivity|]; split; [congruence|];
               intros [K|K]; congruence) ]
    | destruct (case_s_plain line st Hs) as [s E]; exists s;
      split; [exact E|]; split; [congruence|]; intros [K|K]; congruence
    | destruct (case_c_plain line st Hc) as [s E]; exists s;
      split; [exact E|]; split; [congruence|]; intros [K|K]; congruence
    | destruct (case_j_plain line st Hj) as [s E]; exists s;
      split; [exact E|]; split; [congruence|]; intros [K|K]; congruence
    | destruct (case_o_plain line st) as (s & E & Ho); exists s;
      split; [exact E|]; split; [congruence|]; intros [K|K]; [auto|congruence]
    | destruct (case_e_plain line st) as (s & E & He); exists s;
      split; [exact E|]; split; [exact He|]; intros [K|K]; congruence
    | destruct (case_f_plain line st) as (s & E & Ho); exists s;
      split; [exact E|]; split; [congruence|]; intros [K|K]; [congruence|auto] ].
Qed.

Lemma processLine_plainHeader line st :
  plainHeader line ->
  exists s,
    processLine line st = Continue s /\
    (eventsLine line -> subMapping s <> None) /\
    (objectLine line -> currentObject (cur s) <> None).
Proof.
  intros (Hc & Hs & Hcf & Hjf). unfold processLine.
  destruct line as [|c line].
  - cbn [first]. eexists. split; [reflexivity|].
    unfold eventsLine, objectLine. cbn. split; [congruence|].
    intros [H|H]; congruence.
  - cbn [first tailStr]. rewrite (Hc c eq_refl).
    apply headerLine_plain; assumption.
Qed.

Lemma loadLines_header pre : forall st,
  Forall plainHeader pre ->
  exists s,
    loadLines pre st = Continue s /\
    (subMapping st <> None \/ Exists eventsLine pre -> subMapping s <> None) /\
    (currentObject (cur st) <> None \/ Exists objectLine pre ->
     currentObject (cur s) <> None).
Proof.
  induction pre as [|x pre IH]; intros st Hp; cbn [loadLines].
  - exists st. split; [reflexivity|].
    split; (intros [H|H]; [assumption|inversion H]).
  - inversion Hp as [|? ? Hx Hpre]; subst.
    destruct (processLine_plainHeader x st Hx) as (s1 & E & He & Ho).
    destruct (processLine_sturdy x st) as (_ & Ks & Ko & _).
    rewrite E in *. cbn [state_of] in *.
    destruct (IH s1 Hpre) as (s & Es & Hs & Hob).
    exists s. split; [exact Es|]. split.
    + intros [H|H]; [apply Hs; left; apply Ks; exact H|].
      inversion H; subst; [apply Hs; left; auto|apply Hs; right; assumption].
    + intros [H|H]; [apply Hob; left; apply Ko; exact H|].
      inversion H; subst; [apply Hob; left; auto|apply Hob; right; assumption].
Qed.

(** X7: the line counter counts the lines the loop has taken: after a run
    over the whole file it has grown by the number of lines, and when the
    loop returns early or faults it has grown by at least 1 and by no more
    than that number. *)
Theorem line_counter_counts_lines (lines : list FixString) (st : CachegrindLoader) :
  match loadLines lines st with
  | Continue st' => _lineNo st' = _lineNo st + Z.of_nat (length lines)
  | Return _ st' | Crash st' =>
      _lineNo st < _lineNo st' <= _lineNo st + Z.of_nat (length lines)
  end.
Proof.
  revert st. induction lines as [|x lines IH]; intros st; cbn [loadLines length].
  - lia.
  - destruct (processLine_sturdy x st) as (Hn & _ & _).
    destruct (processLine x st) as [s|b s|s]; cbn [state_of] in Hn.
    + specialize (IH s). destruct (loadLines lines s); lia.
    + lia.
    + lia.
Qed.

(** X8: once an event schema is set, the loop never returns early,
    whatever the lines hold.  Once an object is set as well, by an [ob=] or
    [fn=] line, the loop does not fault either: every line is taken, and
    the schema and the object stay set. *)
Theorem schema_keeps_loop_running (lines : list FixString) (st : CachegrindLoader) :
  subMapping st <> None ->
  ~ returned (loadLines lines st) /\
  (currentObject (cur st) <> None ->
   exists st',
     loadLines lines st = Continue st' /\
     subMapping st' <> None /\ currentObject (cur st') <> None).
Proof.
  intros Hs. split.
  - apply loadLines_never_returns. assumption.
  - intros Ho. apply loadLines_running; assumption.
Qed.

Lemma schema_keeps_loop_running_witness :
  let st := state_of (loadLines ["events: Ir"; "fn=main"] exampleLoader) in
  let lines := ["cob=libB"; "cfn=(1) g"; "jfn=(1)"; "junk"; "5 1"; "summary: 1"] in
  ~ returned (loadLines lines st) /\
  (currentObject (cur st) <> None ->
   exists st',
     loadLines lines st = Continue st' /\
     subMapping st' <> None /\ currentObject (cur st') <> None).
Proof.
  intros st lines.
  apply (schema_keeps_loop_running lines st).
  vm_compute. congruence.
Defined.

(** X9: a file loads whenever its first lines are header lines with an
    [events:] line and an [ob=] or [fn=] line among them, and no
    [summary:], [cfn=] or [jfn=] line: whatever follows these lines,
    [loadTrace] returns true. *)
Theorem header_with_events_and_object_loads
    (part : TracePart) (data : TraceData) (pre lines : list FixString) :
  Forall plainHeader pre -> Exists eventsLine pre -> Exists objectLine pre ->
  exists st, loadTrace part data (Some (pre ++ lines)%list) = Done true st.
Proof.
  intros Hp He Ho. unfold loadTrace, loadTraceInternal.
  rewrite loadLines_app.
  destruct (loadLines_header pre
              (loaderStart part data (newCachegrindLoader part data)) Hp)
    as (s & -> & Hs & Hob).
  destruct (loadLines_running lines s) as (s' & -> & _); eauto.
Qed.

(** A header with [events:] and [fn=], followed by the lines that fault
    when no object is set. *)
Lemma header_with_events_and_object_loads_witness :
  exists st,
    loadTrace emptyPart emptyData
      (Some (["version: 1"; "events: Ir"; "fn=main"]
             ++ ["cob=libB"; "cfn=(1) g"; "jfn=(1)"; "5 1"])%list)
    = Done true st.
Proof.
  apply (header_with_events_and_object_loads emptyPart emptyData
           ["version: 1"; "events: Ir"; "fn=main"]
           ["cob=libB"; "cfn=(1) g"; "jfn=(1)"; "5 1"]).
  - repeat constructor; first [ intros c [= <-]; reflexivity | reflexivity ].
  - apply Exists_cons_tl, Exists_cons_hd. vm_compute. congruence.
  - apply Exists_cons_tl, Exists_cons_tl, Exists_cons_hd. right.
    vm_compute. congruence.
Defined.

(** X10: an empty line and every line that starts with a character above
    ['9'], the lines the [switch] handles, [jump=] and [jcnd=] among them,
    leave the running position [currentPos] as it is. *)
Theorem header_lines_keep_position (line : FixString) (st : CachegrindLoader) :
  (forall c, first line = Some c -> char_le c "9" = false) ->
  currentPos (state_of (processLine line st)) = currentPos st.
Proof. intros H. apply processLine_sturdy. assumption. Qed.

Lemma header_lines_keep_position_witness :
  currentPos (state_of (processLine "jump=3 40" exampleLoader))
  = currentPos exampleLoader.
Proof.
  apply (header_lines_keep_position "jump=3 40" exampleLoader).
  intros c [= <-]. reflexivity.
Defined.

(** X11: the cost arena only grows: over any run of the loop each of the
    three record lists of the part keeps the records it had, in their order,
    and new records come after them. *)
Theorem arena_only_grows (lines : list FixString) (st : CachegrindLoader) :
  arenaGrows st (state_of (loadLines lines st)).
Proof.
  revert st. induction lines as [|x lines IH]; intros st; cbn [loadLines].
  - apply arenaGrows_refl.
  - pose proof (processLine_arenaGrows x st) as H.
    destruct (processLine x st) as [s|b s|s]; cbn [state_of] in *.
    + eapply arenaGrows_trans; [exact H | apply IH].
    + exact H.
    + exact H.
Qed.

(* ================================================================== *)
(** ** Records of the cost lines *)

Lemma ensureFunction_jump st : jump (ensureFunction st) = jump st.
Proof. unfold ensureFunction. cursors_solve. Qed.

(** X12: with the schema set, every cost line adds exactly one record to the
    arena, to the list chosen by the pending record type: a self cost, or
    the call cost or jump that a [calls=], [jump=] or [jcnd=] line has
    armed.  The arming lasts for this one line: the pending type is
    [SelfCost] afterwards. *)
Theorem cost_line_appends_one_record (line : FixString) (st : CachegrindLoader) :
  subMapping st <> None ->
  isCostLine line st = true ->
  exists st',
    processLine line st = Continue st' /\
    nextLineType st' = SelfCost /\
    arenaSize st' = S (arenaSize st) /\
    match nextLineType st with
    | SelfCost =>
        length (fixCosts (_part st')) = S (length (fixCosts (_part st)))
    | CallCost =>
        length (fixCallCosts (_part st')) = S (length (fixCallCosts (_part st)))
    | BoringJump | CondJump =>
        length (fixJumps (_part st')) = S (length (fixJumps (_part st)))
    end.
Proof.
  intros Hs Hc. unfold isCostLine in Hc. unfold processLine.
  destruct (first line) as [c|]; [|discriminate].
  apply andb_prop in Hc as [Hc Hp]. rewrite Hc.
  pose proof (parsePosition_frame RefCurrentPos line
                (set__lineNo (_lineNo st + 1) st)) as (p & t & lg & Hf).
  destruct (parsePosition RefCurrentPos line (set__lineNo (_lineNo st + 1) st))
    as [[ok rest] st1].
  cbn [fst snd] in *. subst ok st1. cbn [negb].
  unfold costLine.
  destruct (subMapping st) as [sm|] eqn:Hsm; [|congruence].
  cbn [subMapping set_kdLog set_currentPos upd_jump set_jump set__lineNo].
  rewrite Hsm.
  match goal with |- context [ensureFunction ?s] =>
    pose proof (core_ensureFunction s) as Ecore;
    generalize dependent (ensureFunction s) end.
  intros s1 Ecore. unfold core in Ecore. cbn in Ecore. simplify_eq.
  unfold arenaSize.
  match goal with |- context [nextLineType ?s] =>
    assert (En : nextLineType s = nextLineType st) by (split_cases; cbn; congruence);
    assert (Ep : _part s = _part st) by (split_cases; cbn; congruence);
    generalize dependent s end.
  intros s2 En Ep. rewrite En.
  destruct (nextLineType st); split_cases;
    (eexists; split; [reflexivity|]); cbn;
    rewrite Ep, ?length_app; cbn; repeat split;
    first [assumption | reflexivity | lia].
Qed.

Lemma cost_line_appends_one_record_witness :
  let st := state_of (loadLines ["events: Ir"; "fn=f"; "jump=3 7"] exampleLoader) in
  exists st',
    processLine "5 10" st = Continue st' /\
    nextLineType st' = SelfCost /\
    arenaSize st' = S (arenaSize st) /\
    match nextLineType st with
    | SelfCost =>
        length (fixCosts (_part st')) = S (length (fixCosts (_part st)))
    | CallCost =>
        length (fixCallCosts (_part st')) = S (length (fixCallCosts (_part st)))
    | BoringJump | CondJump =>
        length (fixJumps (_part st')) = S (length (fixJumps (_part st)))
    end.
Proof.
  intros st.
  apply (cost_line_appends_one_record "5 10" st); vm_compute; congruence.
Defined.

(* ================================================================== *)
(** ** Jump lines *)

Lemma stripSpaces_space_number l rest :
  isNumber l -> stripSpaces (String " " (l +:+ rest)) = l +:+ rest.
Proof.
  intros Hn. destruct (digits_head l rest Hn) as (c & tl & E & Hc). rewrite E.
  unfold stripSpaces. cbn [dropWhile].
  change (Ascii.eqb " " " ") with true. cbv iota. cbn [dropWhile].
  destruct (digit_head_facts c Hc) as (_ & _ & _ & _ & _ & _ & -> & _).
  reflexivity.
Qed.

Lemma stripSpaces_space_number0 l :
  isNumber l -> stripSpaces (String " " l) = l.
Proof.
  intros H. pose proof (stripSpaces_space_number l EmptyString H) as E.
  rewrite app_nil_r in E. exact E.
Qed.

Lemma parsePosition_number r l st :
  lineOnly st -> isNumber l ->
  parsePosition r l st
  = (true, EmptyString,
     updPos r (fun p => set_toLine (fromLine p) p)
       (updPos r (set_fromLine (wrap32 (decimalValue l))) st)).
Proof.
  intros Hlo Hn. rewrite parsePosition_lineOnly by assumption.
  rewrite <- (app_nil_r l) at 1.
  rewrite parseLineColumn_literal by (first [assumption | exact I]).
  reflexivity.
Qed.

(** X13: with the default columns, [jcnd=F/E L] arms a conditional jump
    with [F] followed and [E] executed, and [jump=E L] an unconditional
    one with [E] executed; both set the target line to [L] and leave the
    running position alone. *)
Theorem jump_lines_arm (f e l : string) (st : CachegrindLoader) :
  lineOnly st -> isNumber f -> isNumber e -> isNumber l ->
  (exists st',
      processLine ("jcnd=" +:+ f +:+ "/" +:+ e +:+ " " +:+ l) st = Continue st' /\
      nextLineType st' = CondJump /\
      jumpsFollowed (jump st') = wrap64 (decimalValue f) /\
      jumpsExecuted (jump st') = wrap64 (decimalValue e) /\
      fromLine (targetPos (jump st')) = wrap32 (decimalValue l) /\
      currentPos st' = currentPos st) /\
  (exists st',
      processLine ("jump=" +:+ e +:+ " " +:+ l) st = Continue st' /\
      nextLineType st' = BoringJump /\
      jumpsFollowed (jump st') = jumpsFollowed (jump st) /\
      jumpsExecuted (jump st') = wrap64 (decimalValue e) /\
      fromLine (targetPos (jump st')) = wrap32 (decimalValue l) /\
      currentPos st' = currentPos st).
Proof.
  intros [Ha Hl] Hf He Hn. split.
  - unfold processLine.
    change ("jcnd=" +:+ f +:+ "/" +:+ e +:+ " " +:+ l)
      with (String "j" ("cnd=" +:+ f +:+ String "/" (e +:+ String " " l))).
    cbn [first tailStr]. change (char_le "j" "9") with false. cbv iota.
    cbn [headerLine]. unfold case_j.
    change (stripPrefix "cnd=" ("cnd=" +:+ f +:+ String "/" (e +:+ String " " l)))
      with (Some (f +:+ String "/" (e +:+ String " " l))).
    cbv iota.
    rewrite stripUInt64_digits by (first [assumption | reflexivity]).
    change (stripSpaces (String "/" (e +:+ String " " l)))
      with (String "/" (e +:+ String " " l)).
    change (stripPrefix "/" (String "/" (e +:+ String " " l)))
      with (Some (e +:+ String " " l)).
    cbv iota.
    rewrite stripUInt64_digits by (first [assumption | reflexivity]).
    cbv iota. rewrite stripSpaces_space_number0 by assumption.
    rewrite parsePosition_number by (first [assumption | split; assumption]).
    eexists. split; [reflexivity|]. repeat split.
  - unfold processLine.
    change ("jump=" +:+ e +:+ " " +:+ l)
      with (String "j" ("ump=" +:+ e +:+ String " " l)).
    cbn [first tailStr]. change (char_le "j" "9") with false. cbv iota.
    cbn [headerLine]. unfold case_j.
    change (stripPrefix "cnd=" ("ump=" +:+ e +:+ String " " l)) with (@None string).
    change (stripPrefix "ump=" ("ump=" +:+ e +:+ String " " l))
      with (Some (e +:+ String " " l)).
    cbv iota.
    rewrite stripUInt64_digits by (first [assumption | reflexivity]).
    cbv iota. rewrite stripSpaces_space_number0 by assumption.
    rewrite parsePosition_number by (first [assumption | split; assumption]).
    eexists. split; [reflexivity|]. repeat split.
Qed.

Lemma jump_lines_arm_witness :
  (exists st',
      processLine ("jcnd=" +:+ "2" +:+ "/" +:+ "10" +:+ " " +:+ "40") exampleLoader
      = Continue st' /\
      nextLineType st' = CondJump /\
      jumpsFollowed (jump st') = wrap64 (decimalValue "2") /\
      jumpsExecuted (jump st') = wrap64 (decimalValue "10") /\
      fromLine (targetPos (jump st')) = wrap32 (decimalValue "40") /\
      currentPos st' = currentPos exampleLoader) /\
  (exists st',
      processLine ("jump=" +:+ "10" +:+ " " +:+ "40") exampleLoader = Continue st' /\
      nextLineType st' = BoringJump /\
      jumpsFollowed (jump st') = jumpsFollowed (jump exampleLoader) /\
      jumpsExecuted (jump st') = wrap64 (decimalValue "10") /\
      fromLine (targetPos (jump st')) = wrap32 (decimalValue "40") /\
      currentPos st' = currentPos exampleLoader).
Proof.
  apply (jump_lines_arm "2" "10" "40" exampleLoader);
    vm_compute; repeat split; congruence.
Defined.

(** X14: the cost line of an armed jump adds one jump record that carries
    the pending counts and the kind of the jump; its target function is the
    one a [jfn=] line has set, and the current function otherwise, never
    null.  The line clears the target function and file of the jump cursor
    and the pending type reverts to [SelfCost]. *)
Theorem jump_cost_line_uses_and_clears_jump_cursor
    (line : FixString) (st : CachegrindLoader) :
  nextLineType st = BoringJump \/ nextLineType st = CondJump ->
  subMapping st <> None ->
  isCostLine line st = true ->
  exists st' fj,
    processLine line st = Continue st' /\
    fixJumps (_part st') = (fixJumps (_part st) ++ [fj])%list /\
    fjIsCondJump fj = match nextLineType st with CondJump => true | _ => false end /\
    fjExecuted fj = jumpsExecuted (jump st) /\
    fjFollowed fj = jumpsFollowed (jump st) /\
    fjTargetFunction fj
    = match currentJumpToFunction (jump st) with
      | Some g => Some g
      | None => currentFunction (cur st')
      end /\
    fjTargetFunction fj <> None /\
    nextLineType st' = SelfCost /\
    currentJumpToFunction (jump st') = None /\
    currentJumpToFile (jump st') = None.
Proof.
  intros Hn Hs Hc. unfold isCostLine in Hc. unfold processLine.
  destruct (first line) as [c|]; [|discriminate].
  apply andb_prop in Hc as [Hc Hp]. rewrite Hc.
  pose proof (parsePosition_frame RefCurrentPos line
                (set__lineNo (_lineNo st + 1) st)) as (p & t & lg & Hf).
  destruct (parsePosition RefCurrentPos line (set__lineNo (_lineNo st + 1) st))
    as [[ok rest] st1].
  cbn [fst snd] in *. subst ok st1. cbn [negb].
  unfold costLine.
  destruct (subMapping st) as [sm|] eqn:Hsm; [|congruence].
  cbn [subMapping set_kdLog set_currentPos upd_jump set_jump set__lineNo].
  rewrite Hsm.
  match goal with |- context [ensureFunction ?s] =>
    pose proof (ensureFunction_jump s) as Ejump;
    pose proof (core_ensureFunction s) as Ecore;
    pose proof (ensureFunction_some s) as Esome;
    generalize dependent (ensureFunction s) end.
  intros s1 Ejump Ecore Esome. unfold core in Ecore. cbn in Ejump, Ecore.
  simplify_eq.
  match goal with |- context [nextLineType ?s] =>
    assert (En : nextLineType s = nextLineType st) by (split_cases; cbn; congruence);
    assert (Ep : _part s = _part st) by (split_cases; cbn; congruence);
    assert (Ej : jump s = jump s1) by (split_cases; reflexivity);
    assert (Ef : currentFunction (cur s) = currentFunction (cur s1))
      by (split_cases; reflexivity);
    generalize dependent s end.
  intros s2 En Ep Ej Ef. rewrite En.
  destruct (currentFunction (cur s1)) as [g|] eqn:Eg; [|congruence].
  destruct Hn as [Hn|Hn]; rewrite Hn in *;
    destruct (currentJumpToFunction (jump st)) as [h|] eqn:Eh;
    (destruct (currentJumpToFunction (jump s2)) as [h'|] eqn:Eh';
     [|]; rewrite Ej, Ejump in Eh'; cbn in Eh'; rewrite Eh in Eh'; simplify_eq);
    (do 2 eexists; split; [reflexivity|]); cbn;
    rewrite ?Ep, ?Ej, ?Ejump, ?Ef, ?En, ?Hn; cbn; rewrite ?Eh;
    repeat split; cbn; rewrite ?Ejump; cbn; rewrite ?Eh; congruence.
Qed.

(** A jump from [f], without a [jfn=] line: the target is [f]. *)
Lemma jump_cost_line_uses_and_clears_jump_cursor_witness :
  let st := state_of (loadLines ["events: Ir"; "fn=f"; "jump=3 7"] exampleLoader) in
  exists st' fj,
    processLine "5 10" st = Continue st' /\
    fixJumps (_part st') = (fixJumps (_part st) ++ [fj])%list /\
    fjIsCondJump fj = match nextLineType st with CondJump => true | _ => false end /\
    fjExecuted fj = jumpsExecuted (jump st) /\
    fjFollowed fj = jumpsFollowed (jump st) /\
    fjTargetFunction fj
    = match currentJumpToFunction (jump st) with
      | Some g => Some g
      | None => currentFunction (cur st')
      end /\
    fjTargetFunction fj <> None /\
    nextLineType st' = SelfCost /\
    currentJumpToFunction (jump st') = None /\
    currentJumpToFile (jump st') = None.
Proof.
  intros st.
  apply (jump_cost_line_uses_and_clears_jump_cursor "5 10" st);
    vm_compute; first [left; reflexivity | congruence].
Defined.

(* ================================================================== *)
(** ** Lines that are no header and no cost line *)

Lemma low_head_facts c :
  char_lt c "0" = true ->
  char_le c "9" = true /\ char_le "0" c = false /\ char_lt "9" c = false.
Proof.
  destruct c as [[] [] [] [] [] [] [] []]; vm_compute; intros H;
    try discriminate H; repeat split.
Qed.

(** X15: while a position column is expected, a line that is empty or
    starts below the digits with none of [*], [+], [-] is passed over:
    nothing but the line counter changes and nothing is logged.  This is how
    comment lines are skipped: [#] is below ['9'], so such a line goes to
    the position parser, which rejects it, and not to the [switch]. *)
Theorem lines_below_digits_are_skipped (line : FixString) (st : CachegrindLoader) :
  hasAddrInfo st = true \/ hasLineInfo st = true ->
  belowDigits line ->
  processLine line st = Continue (set__lineNo (_lineNo st + 1) st).
Proof.
  intros Hcol Hb. unfold processLine.
  destruct line as [|c rest]; [reflexivity|].
  cbn [first]. destruct Hb as (Hlt & Hs & Hp & Hm).
  destruct (low_head_facts c Hlt) as (Hle & Hge & Hgt). rewrite Hle.
  unfold parsePosition.
  cbn [hasAddrInfo hasLineInfo set__lineNo].
  destruct (hasAddrInfo st) eqn:Ha.
  - unfold parseAddrColumn. cbn [first]. rewrite Hs, Hp, Hm, Hge. reflexivity.
  - destruct Hcol as [Hcol|Hcol]; [discriminate|]. rewrite Hcol.
    unfold parseLineColumn. cbn [first]. rewrite Hgt, Hs, Hp, Hm, Hge.
    reflexivity.
Qed.

Lemma lines_below_digits_are_skipped_witness :
  processLine "# callgrind format" exampleLoader
  = Continue (set__lineNo (_lineNo exampleLoader + 1) exampleLoader).
Proof.
  apply (lines_below_digits_are_skipped "# callgrind format" exampleLoader);
    vm_compute; [right; reflexivity | repeat split].
Defined.

(** X16: when no position column is expected, every line that starts with
    a character up to ['9'] is a cost line, a [#] comment too: with the
    schema set and no call or jump pending it adds a self-cost record. *)
Theorem without_columns_comments_are_cost_lines
    (c : ascii) (rest : FixString) (st : CachegrindLoader) :
  noColumns st -> char_le c "9" = true ->
  subMapping st <> None -> nextLineType st = SelfCost ->
  exists st' fc,
    processLine (String c rest) st = Continue st' /\
    fixCosts (_part st') = (fixCosts (_part st) ++ [fc])%list /\
    fcPos fc = currentPos st.
Proof.
  intros [Ha Hl] Hc Hs Hn. unfold processLine. cbn [first]. rewrite Hc.
  unfold parsePosition. cbn [hasAddrInfo hasLineInfo set__lineNo].
  rewrite Ha, Hl. cbn [negb]. unfold costLine.
  destruct (subMapping st) as [sm|] eqn:Hsm; [|congruence].
  cbn [subMapping set__lineNo]. rewrite Hsm.
  match goal with |- context [ensureFunction ?s] =>
    pose proof (core_ensureFunction s) as Ecore;
    generalize dependent (ensureFunction s) end.
  intros s1 Ecore. unfold core in Ecore. cbn in Ecore. simplify_eq.
  match goal with |- context [nextLineType ?s] =>
    assert (En : nextLineType s = SelfCost) by (split_cases; cbn; congruence);
    assert (Ep : _part s = _part st) by (split_cases; cbn; congruence);
    assert (Ec : currentPos s = currentPos st) by (split_cases; cbn; congruence);
    generalize dependent s end.
  intros s2 En Ep Ec. rewrite En.
  do 2 eexists. split; [reflexivity|]. cbn. rewrite Ep, Ec. split; reflexivity.
Qed.

Lemma without_columns_comments_are_cost_lines_witness :
  let st := state_of (loadLines ["events: Ir"; "positions: none"] exampleLoader) in
  exists st' fc,
    processLine (String "#" " a comment") st = Continue st' /\
    fixCosts (_part st') = (fixCosts (_part st) ++ [fc])%list /\
    fcPos fc = currentPos st.
Proof.
  intros st.
  apply (without_columns_comments_are_cost_lines "#" " a comment" st);
    vm_compute; first [split; reflexivity | congruence].
Defined.

(** X17: [calls=N] arms a call cost with the count [N] and changes nothing
    else but the line counter: what follows the count on the line, the
    position of the call target, is not read. *)
Theorem calls_line_arms_call (n rest : string) (st : CachegrindLoader) :
  isNumber n -> noDigitHead rest ->
  processLine ("calls=" +:+ n +:+ rest) st
  = Continue (set_nextLineType CallCost
                (upd_call (set_currentCallCount (wrap64 (decimalValue n)))
                   (set__lineNo (_lineNo st + 1) st))).
Proof.
  intros Hn Hr. unfold processLine.
  change ("calls=" +:+ n +:+ rest) with (String "c" ("alls=" +:+ n +:+ rest)).
  cbn [first tailStr]. change (char_le "c" "9") with false. cbv iota.
  cbn [headerLine]. unfold case_c.
  change (stripPrefix "ob=" ("alls=" +:+ n +:+ rest)) with (@None string).
  change (stripPrefix "fi=" ("alls=" +:+ n +:+ rest)) with (@None string).
  change (stripPrefix "fn=" ("alls=" +:+ n +:+ rest)) with (@None string).
  change (stripPrefix "alls=" ("alls=" +:+ n +:+ rest)) with (Some (n +:+ rest)).
  cbv iota. unfold armCallCost.
  rewrite stripUInt64_digits by assumption. reflexivity.
Qed.

Lemma calls_line_arms_call_witness :
  processLine ("calls=" +:+ "3" +:+ " 120") exampleLoader
  = Continue (set_nextLineType CallCost
                (upd_call (set_currentCallCount (wrap64 (decimalValue "3")))
                   (set__lineNo (_lineNo exampleLoader + 1) exampleLoader))).
Proof.
  apply (calls_line_arms_call "3" " 120" exampleLoader);
    vm_compute; repeat split; congruence.
Defined.

(* ================================================================== *)
(** ** Properties of the position setters *)

(** What [setFunction] leaves in the cursors when it returns. *)
Lemma setFunction_cursors n st st' :
  setFunction n st = Done tt st' ->
  currentFunction (cur st') <> None /\
  currentPartFunction (cur st') <> None /\
  currentObject (cur st') <> None /\
  currentFile (cur st') <> None.
Proof.
  unfold setFunction, ensureFile, ensureObject. cursors_solve.
  all: repeat match goal with H : ?x = _ |- context [?x] => rewrite H end;
       cbn; repeat split; congruence.
Qed.

Lemma setCalledFunction_cursors n st st' :
  setCalledFunction n st = Done tt st' ->
  currentCalledFunction (call st') <> None /\
  currentCalledPartFunction (call st') <> None.
Proof.
  unfold setCalledFunction. cursors_solve.
  all: repeat match goal with H : ?x = _ |- context [?x] => rewrite H end;
       cbn; repeat split; congruence.
Qed.

Lemma setCalledFunction_fault n st c :
  setCalledFunction n st = Fault c ->
  currentCalledObject (call st) = None /\ currentObject (cur st) = None.
Proof.
  unfold setCalledFunction.
  match goal with |- context [compressedFunction ?a ?f ?o ?s] =>
    destruct (compressedFunction a f o s) as [r s1|s1] eqn:E end;
    [discriminate|].
  intros _. apply compressedFunction_fault in E as [E _].
  revert E. split_cases; cbn; intros; split; congruence.
Qed.

(** X18: a binding line never leaves its cursor null.  After [ob=], [fl=]
    and [fn=] the object, file and function cursor hold an entity (the
    ['???'] dummy when the line resolves to none) and its part projection,
    and so do the call target cursors after [cob=], [cfi=] and [cfn=];
    [fn=] fills the object and the file cursor as well.  [setFunction]
    always returns; [setCalledFunction] returns unless neither a called
    object nor a current object is set, where it can fault. *)
Theorem binding_lines_never_leave_null (name : string) (st : CachegrindLoader) :
  (currentObject (cur (setObject name st)) <> None /\
   currentPartObject (cur (setObject name st)) <> None) /\
  (currentFile (cur (setFile name st)) <> None /\
   currentPartFile (cur (setFile name st)) <> None) /\
  (exists st',
      setFunction name st = Done tt st' /\
      currentFunction (cur st') <> None /\
      currentPartFunction (cur st') <> None /\
      currentObject (cur st') <> None /\
      currentFile (cur st') <> None) /\
  (currentCalledObject (call (setCalledObject name st)) <> None /\
   currentCalledPartObject (call (setCalledObject name st)) <> None) /\
  (currentCalledFile (call (setCalledFile name st)) <> None /\
   currentCalledPartFile (call (setCalledFile name st)) <> None) /\
  match setCalledFunction name st with
  | Done _ st' =>
      currentCalledFunction (call st') <> None /\
      currentCalledPartFunction (call st') <> None
  | Fault _ =>
      currentCalledObject (call st) = None /\ currentObject (cur st) = None
  end.
Proof.
  split; [|split; [|split; [|split; [|split]]]].
  1, 2, 4, 5:
    split; unfold setObject, setFile, setCalledObject, setCalledFile;
    cursors_solve;
    repeat match goal with H : ?x = _ |- context [?x] => rewrite H end;
    cbn; congruence.
  - destruct (setFunction_done name st) as [st' E]. exists st'.
    split; [exact E|]. apply (setFunction_cursors name st st' E).
  - destruct (setCalledFunction name st) as [[] st'|c] eqn:E.
    + apply (setCalledFunction_cursors name st st' E).
    + apply (setCalledFunction_fault name st c E).
Qed.

Lemma setObject_function n st :
  currentFunction (cur (setObject n st)) = None /\
  currentPartFunction (cur (setObject n st)) = None.
Proof. unfold setObject. cursors_solve. Qed.

Lemma kdLog_dummyFunction st : kdLog (snd (dummyFunction st)) = kdLog st.
Proof. unfold dummyFunction. split_cases; reflexivity. Qed.

Lemma ensureFunction_warns st :
  currentFunction (cur st) = None ->
  kdLog (ensureFunction st) = (kdLog st ++ [functionNotSetWarning])%list.
Proof.
  intros H. unfold ensureFunction. rewrite H.
  match goal with |- context [dummyFunction ?s] =>
    pose proof (kdLog_dummyFunction s) as E; destruct (dummyFunction s) end.
  cbn [snd] in E. cbn. rewrite E. reflexivity.
Qed.

(** X19: an [ob=] line detaches the current function: it clears the
    function cursor, so that the next cost line, if no [fn=] line comes
    first, falls back to the ['???'] function with the warning of
    [ensureFunction]. *)
Theorem object_line_detaches_function
    (name : string) (line : FixString) (st : CachegrindLoader) :
  subMapping st <> None ->
  isCostLine line (state_of (processLine ("ob=" +:+ name) st)) = true ->
  exists st1 st2,
    processLine ("ob=" +:+ name) st = Continue st1 /\
    currentFunction (cur st1) = None /\
    currentPartFunction (cur st1) = None /\
    processLine line st1 = Continue st2 /\
    In functionNotSetWarning (kdLog st2) /\
    currentFunction (cur st2) <> None.
Proof.
  intros Hs.
  assert (E1 : processLine ("ob=" +:+ name) st
               = Continue (setObject name (set__lineNo (_lineNo st + 1) st)))
    by reflexivity.
  rewrite E1. clear E1. cbn [state_of].
  destruct (setObject_function name (set__lineNo (_lineNo st + 1) st)) as [Ef Epf].
  pose proof (core_setObject name (set__lineNo (_lineNo st + 1) st)) as Ecore.
  generalize dependent (setObject name (set__lineNo (_lineNo st + 1) st)).
  intros st1 Ef Epf Ecore Hc. unfold core in Ecore. cbn in Ecore. simplify_eq.
  exists st1. 
  unfold isCostLine in Hc. unfold processLine.
  destruct (first line) as [c|]; [|discriminate].
  apply andb_prop in Hc as [Hc Hp]. rewrite Hc.
  pose proof (parsePosition_frame RefCurrentPos line
                (set__lineNo (_lineNo st1 + 1) st1)) as (p & t & lg & Hf).
  destruct (parsePosition RefCurrentPos line (set__lineNo (_lineNo st1 + 1) st1))
    as [[ok rest] s2].
  cbn [fst snd] in *. subst ok s2. cbn [negb].
  unfold costLine.
  destruct (subMapping st) as [sm|] eqn:Hsm; [|congruence].
  cbn [subMapping set_kdLog set_currentPos upd_jump set_jump set__lineNo].
  match goal with H : subMapping st1 = _ |- _ => rewrite H end.
  match goal with |- context [ensureFunction ?s] =>
    pose proof (ensureFunction_warns s Ef) as Elog;
    pose proof (ensureFunction_some s) as Esome;
    generalize dependent (ensureFunction s) end.
  intros s3 Elog Esome.
  match goal with |- context [nextLineType ?s] =>
    assert (El : kdLog s = kdLog s3) by (split_cases; reflexivity);
    assert (Ec : currentFunction (cur s) = currentFunction (cur s3))
      by (split_cases; reflexivity);
    generalize dependent s end.
  intros s4 El Ec.
  destruct (nextLineType s4); split_cases;
    (eexists; split; [reflexivity|]; split; [assumption|]; split; [assumption|];
     split; [reflexivity|]); cbn; rewrite ?El, ?Ec, ?Elog;
    (split; [apply in_or_app; right; left; reflexivity | assumption]).
Qed.

Lemma object_line_detaches_function_witness :
  let st := state_of (loadLines ["events: Ir"; "fn=main"; "5 1"] exampleLoader) in
  exists st1 st2,
    processLine ("ob=" +:+ "libc.so") st = Continue st1 /\
    currentFunction (cur st1) = None /\
    currentPartFunction (cur st1) = None /\
    processLine "6 1" st1 = Continue st2 /\
    In functionNotSetWarning (kdLog st2) /\
    currentFunction (cur st2) <> None.
Proof.
  intros st.
  apply (object_line_detaches_function "libc.so" "6 1" st);
    vm_compute; congruence.
Defined.

(** X20: a [cfn=] line takes the current object and file for the call
    target when no [cob=] or [cfi=] line has set them, and keeps the ones
    such a line has set.  The defaults are in place before
    [compressedFunction] is called, so they are there whether it returns
    or faults. *)
Theorem called_function_defaults_to_current (name : string) (st : CachegrindLoader) :
  let st' := outState (setCalledFunction name st) in
  currentCalledObject (call st')
  = match currentCalledObject (call st) with
    | Some o => Some o
    | None => currentObject (cur st)
    end /\
  currentCalledPartObject (call st')
  = match currentCalledObject (call st) with
    | Some _ => currentCalledPartObject (call st)
    | None => currentPartObject (cur st)
    end /\
  currentCalledFile (call st')
  = match currentCalledFile (call st) with
    | Some f => Some f
    | None => currentFile (cur st)
    end /\
  currentCalledPartFile (call st')
  = match currentCalledFile (call st) with
    | Some _ => currentCalledPartFile (call st)
    | None => currentPartFile (cur st)
    end /\
  cur st' = cur st.
Proof.
  unfold setCalledFunction. cursors_solve.
  all: repeat match goal with H : ?x = _ |- context [?x] => rewrite H end;
       cbn; repeat split; congruence.
Qed.

(* ================================================================== *)
(** ** References without a definition *)

(** X21: a reference [(N)] to an id that has no definition resolves to
    null, and the binding line then takes the ['???'] dummy and logs a
    warning: [ob=(N)] binds the dummy object, [fl=(N)] the dummy file. *)
Theorem undefined_reference_binds_dummy (ds : string) (st : CachegrindLoader) :
  wfCompLine (CompRef ds) ->
  vget (_objectVector st) (decimalValue ds) = None ->
  vget (_fileVector st) (decimalValue ds) = None ->
  (currentObject (cur (setObject (compText (CompRef ds)) st))
   = Some (data_object _objDummy) /\
   In (mkDiagnostic KdWarning "Invalid object spec, using '???'")
      (kdLog (setObject (compText (CompRef ds)) st))) /\
  (currentFile (cur (setFile (compText (CompRef ds)) st))
   = Some (data_file _fileDummy) /\
   In (mkDiagnostic KdWarning "Invalid file spec, using '???'")
      (kdLog (setFile (compText (CompRef ds)) st))).
Proof.
  intros Hwf Ho Hf.
  destruct (wfCompLine_id _ Hwf) as (Hid & Hidu & Hidx).
  destruct Hwf as (Hne & Hd & _).
  cbn [compDigits] in *. unfold compId in *. cbn [compDigits] in *.
  rewrite compText_ref.
  destruct (compText_shape ds EmptyString Hne Hd)
    as (Hreg & Hp & Hp2 & Hmid & Hlen & Hrest).
  unfold vget in Ho, Hf.
  split.
  - unfold setObject, compressedObject.
    rewrite Hreg, Hp2, Hmid, Hlen, Hidx. cbn [String.eqb negb].
    destruct (vsize (_objectVector st) <=? decimalValue ds); [|rewrite Ho];
      cbn; (split; [reflexivity|]);
      rewrite ?in_app_iff; cbn; tauto.
  - unfold setFile, compressedFile.
    rewrite Hreg, Hp2, Hmid, Hlen, Hidu. cbn [String.eqb negb].
    destruct (vsize (_fileVector st) <=? decimalValue ds); [|rewrite Hf];
      cbn; (split; [reflexivity|]);
      rewrite ?in_app_iff; cbn; tauto.
Qed.

(** In a loader that has seen no definition, id 7 is undefined. *)
Lemma undefined_reference_binds_dummy_witness :
  (currentObject (cur (setObject (compText (CompRef "7")) exampleLoader))
   = Some (data_object _objDummy) /\
   In (mkDiagnostic KdWarning "Invalid object spec, using '???'")
      (kdLog (setObject (compText (CompRef "7")) exampleLoader))) /\
  (currentFile (cur (setFile (compText (CompRef "7")) exampleLoader))
   = Some (data_file _fileDummy) /\
   In (mkDiagnostic KdWarning "Invalid file spec, using '???'")
      (kdLog (setFile (compText (CompRef "7")) exampleLoader))).
Proof.
  apply (undefined_reference_binds_dummy "7" exampleLoader);
    vm_compute; repeat split; congruence.
Defined.

(* ================================================================== *)
(** ** The null dereference of [compressedFunction] *)

Lemma compressedFunction_reference_fault ds file f st :
  wfCompLine (CompRef ds) ->
  vget (_functionVector st) (decimalValue ds) = Some f ->
  function_object f (_data st) <> None ->
  compressedFunction (compText (CompRef ds)) file None st = Fault st.
Proof.
  intros Hwf Hv Hf.
  destruct (wfCompLine_id _ Hwf) as (Hid & Hidu & _).
  destruct Hwf as (Hne & Hd & _).
  cbn [compDigits] in *. unfold compId in *. cbn [compDigits] in *.
  rewrite compText_ref.
  destruct (compText_shape ds EmptyString Hne Hd)
    as (Hreg & Hp & Hp2 & Hmid & Hlen & Hrest).
  unfold compressedFunction. rewrite Hreg, Hp2, Hmid, Hlen, Hidu.
  cbn [String.eqb negb]. unfold vget in Hv.
  destruct (vsize (_functionVector st) <=? decimalValue ds); [discriminate|].
  rewrite Hv.
  rewrite (bool_decide_eq_false_2 (function_object f (_data st) = None)) by assumption.
  cbn [andb].
  rewrite (bool_decide_eq_true_2 (function_object f (_data st) <> None)) by assumption.
  reflexivity.
Qed.

(** X27: a reference [(N)] to a function that has an object, read while no
    object is set, ends the load in a fault.  A [jfn=(N)] line passes the
    current object and a [cfn=(N)] line the called object or, when that is
    not set, the current one; with a null object [compressedFunction]
    takes the branch of the mismatch message, which reads the name of the
    null object. *)
Theorem reference_without_object_faults
    (ds : string) (f : TraceFunction) (st : CachegrindLoader) :
  wfCompLine (CompRef ds) ->
  vget (_functionVector st) (decimalValue ds) = Some f ->
  function_object f (_data st) <> None ->
  currentObject (cur st) = None ->
  crashed (processLine ("jfn=" +:+ compText (CompRef ds)) st) /\
  (currentCalledObject (call st) = None ->
   crashed (processLine ("cfn=" +:+ compText (CompRef ds)) st)).
Proof.
  intros Hwf Hv Hf Ho. split.
  - unfold processLine.
    change ("jfn=" +:+ compText (CompRef ds))
      with (String "j" (String "f" (String "n" (String "=" (compText (CompRef ds)))))).
    cbn [first tailStr]. change (char_le "j" "9") with false. cbv iota.
    cbn [headerLine]. unfold case_j.
    cbn [stripPrefix Ascii.eqb Bool.eqb].
    match goal with |- context [compressedFunction ?a ?b ?o ?s] =>
      assert (E : o = None) by (split_cases; cbn; assumption);
      rewrite E;
      rewrite (compressedFunction_reference_fault ds b f s Hwf)
    end.
    + exact I.
    + split_cases; cbn; assumption.
    + split_cases; cbn; assumption.
  - intros Hc. unfold processLine.
    change ("cfn=" +:+ compText (CompRef ds))
      with (String "c" (String "f" (String "n" (String "=" (compText (CompRef ds)))))).
    cbn [first tailStr]. change (char_le "c" "9") with false. cbv iota.
    cbn [headerLine]. unfold case_c.
    cbn [stripPrefix Ascii.eqb Bool.eqb]. unfold setCalledFunction.
    match goal with |- context [compressedFunction ?a ?b ?o ?s] =>
      assert (E : o = None) by (cbn; rewrite Hc; split_cases; cbn; assumption);
      rewrite E;
      rewrite (compressedFunction_reference_fault ds b f s Hwf)
    end.
    + exact I.
    + cbn. rewrite Hc. split_cases; cbn; assumption.
    + cbn. rewrite Hc. split_cases; cbn; assumption.
Qed.

(** The function [g] of [libB] is bound to id 1 by [cfn=(1) g]; no [ob=] or
    [fn=] line has set an object.  The reference [jfn=(1)] faults, and so
    does the load of the file with these lines. *)
Lemma reference_without_object_faults_witness :
  let st := state_of (loadLines ["events: Ir"; "cob=libB"; "cfi=b.c"; "cfn=(1) g"]
                        exampleLoader) in
  (crashed (processLine ("jfn=" +:+ compText (CompRef "1")) st) /\
   (currentCalledObject (call st) = None ->
    crashed (processLine ("cfn=" +:+ compText (CompRef "1")) st))) /\
  match loadTrace emptyPart emptyData
          (Some ["events: Ir"; "cob=libB"; "cfi=b.c"; "cfn=(1) g"; "jfn=(1)"]) with
  | Fault _ => True
  | Done _ _ => False
  end.
Proof.
  intros st. split; [|vm_compute; exact I].
  apply (reference_without_object_faults "1" (mkFunction 0) st);
    vm_compute; repeat split; congruence.
Defined.

(* ================================================================== *)
(** ** What the format detection accepts *)

Lemma app_assoc_str a b c : (a +:+ b) +:+ c = a +:+ (b +:+ c).
Proof. induction a as [|x a IH]; [reflexivity|]. rewrite !app_cons, IH. reflexivity. Qed.

Lemma isPrefix_app p s : isPrefix p s = true -> exists post, s = p +:+ post.
Proof.
  revert s. induction p as [|a p IH]; intros s H.
  - exists s. reflexivity.
  - destruct s as [|b s]; cbn [isPrefix] in H; [discriminate|].
    apply andb_prop in H as [Hab Hp]. apply Ascii.eqb_eq in Hab. subst b.
    destruct (IH s Hp) as [post ->]. exists post. reflexivity.
Qed.

Lemma findFrom_found pat s : forall i k,
  findFrom pat s i = k -> 0 <= i -> 0 <= k ->
  exists pre post, s = pre +:+ pat +:+ post /\ slen pre = k - i.
Proof.
  induction s as [|c s IH]; intros i k H Hi Hk; cbn [findFrom] in H.
  - destruct (isPrefix pat EmptyString) eqn:E; [|lia].
    destruct (isPrefix_app _ _ E) as [post Hp].
    exists EmptyString, post. split; [exact Hp|]. unfold slen. cbn. lia.
  - destruct (isPrefix pat (String c s)) eqn:E.
    + destruct (isPrefix_app _ _ E) as [post Hp].
      exists EmptyString, post. split; [exact Hp|]. unfold slen. cbn. lia.
    + destruct (IH (i + 1) k H ltac:(lia) Hk) as (pre & post & -> & Hl).
      exists (String c pre), post. split; [reflexivity|].
      rewrite slen_cons. lia.
Qed.

Lemma spanStr_app f s : s = fst (spanStr f s) +:+ snd (spanStr f s).
Proof.
  induction s as [|c s IH]; [reflexivity|]. cbn [spanStr].
  destruct (f c); [|reflexivity].
  destruct (spanStr f s) as [a b]. cbn [fst snd] in *.
  rewrite app_cons, <- IH. reflexivity.
Qed.

Lemma takeStr_prefix n : forall s,
  exists b, s = takeStr n s +:+ b /\ slen (takeStr n s) <= Z.of_nat n.
Proof.
  induction n as [|n IH]; intros s.
  - exists s. destruct s; split; try reflexivity; unfold slen; cbn; lia.
  - destruct s as [|c s].
    + exists EmptyString. split; [reflexivity|]. unfold slen. cbn. lia.
    + destruct (IH s) as (b & Hb & Hl). exists b. cbn [takeStr]. split.
      * rewrite app_cons, <- Hb. reflexivity.
      * rewrite slen_cons. lia.
Qed.

Lemma snoc_str s : s <> EmptyString -> exists s' c, s = s' +:+ String c EmptyString.
Proof.
  induction s as [|x s IH]; [congruence|]. intros _.
  destruct s as [|y s].
  - exists EmptyString, x. reflexivity.
  - destruct IH as (s' & c & E); [congruence|].
    exists (String x s'), c. rewrite app_cons, <- E. reflexivity.
Qed.

Lemma strAt_app s c t : strAt (String.length s) (s +:+ String c t) = c.
Proof. induction s as [|x s IH]; [reflexivity|]. rewrite app_cons. exact IH. Qed.

(** X22: what [canLoadTrace] accepts has the marker: the file holds
    [events:] within its first 2047 bytes, at the very start or right
    after a line feed. *)
Theorem canLoadTrace_accepts_only_with_marker (bytes : string) :
  canLoadTrace (Some bytes) = true ->
  exists pre post,
    bytes = pre +:+ "events:" +:+ post /\
    slen pre + 7 <= 2047 /\
    (pre = EmptyString \/ exists pre', pre = pre' +:+ LF).
Proof.
  unfold canLoadTrace. intros H.
  destruct (takeStr_prefix 2047 bytes) as (b2 & Hb2 & Hlen).
  set (buf := takeStr 2047 bytes) in *.
  pose proof (spanStr_app (fun c => negb (Ascii.eqb c "000")) buf) as Hb1.
  fold (cString buf) in Hb1.
  set (b1 := snd (spanStr (fun c => negb (Ascii.eqb c "000")) buf)) in *.
  set (s := cString buf) in *.
  set (k := find "events:" s) in *.
  assert (Hk : 0 <= k /\
               (k = 0 \/ 0 < k /\ strAt (Z.to_nat (k - 1)) buf = "010"%char)).
  { destruct (Z.ltb_spec 0 k) as [Hpos|Hnp].
    - destruct (Ascii.eqb_spec (strAt (Z.to_nat (k - 1)) buf) "010") as [E|E].
      + split; [lia|]. right. split; [exact Hpos | exact E].
      + cbn [negb andb] in H. discriminate H.
    - cbn [andb] in H. apply Z.leb_le in H. split; [lia|]. left. lia. }
  destruct Hk as [Hk0 Hk1].
  destruct (findFrom_found "events:" s 0 k eq_refl ltac:(lia) Hk0)
    as (pre & post & Hs & Hpre).
  exists pre, (post +:+ b1 +:+ b2). split; [|split].
  - rewrite Hb2, Hb1, Hs. rewrite !app_assoc_str. reflexivity.
  - rewrite Hb1, Hs in Hlen. rewrite !slen_app in Hlen.
    change (slen "events:") with 7 in Hlen.
    pose proof (slen_nonneg post). pose proof (slen_nonneg b1). lia.
  - destruct Hk1 as [Hz|[Hpos Hlf]].
    + left. destruct pre; [reflexivity|]. rewrite slen_cons in Hpre.
      pose proof (slen_nonneg pre). lia.
    + right. destruct (string_dec pre EmptyString) as [->|Hne].
      * exfalso. unfold slen in Hpre. cbn in Hpre. lia.
      * destruct (snoc_str pre Hne) as (pre' & c & ->).
        exists pre'. unfold LF.
        assert (c = "010"%char) as ->; [|reflexivity].
        rewrite <- Hlf, Hb1, Hs.
        rewrite slen_app in Hpre. unfold slen in Hpre. cbn in Hpre.
        replace (Z.to_nat (k - 1)) with (String.length pre') by lia.
        rewrite !app_assoc_str. rewrite app_cons. symmetry. apply strAt_app.
Qed.

Lemma canLoadTrace_accepts_only_with_marker_witness :
  exists pre post,
    "version: 1" +:+ LF +:+ "events: Ir" +:+ LF = pre +:+ "events:" +:+ post /\
    slen pre + 7 <= 2047 /\
    (pre = EmptyString \/ exists pre', pre = pre' +:+ LF).
Proof.
  apply (canLoadTrace_accepts_only_with_marker
           ("version: 1" +:+ LF +:+ "events: Ir" +:+ LF)).
  vm_compute. reflexivity.
Defined.

Lemma takeStr_S n c s : takeStr (S n) (String c s) = String c (takeStr n s).
Proof. reflexivity. Qed.

(** X23: a file that starts with [events:] is recognised, whatever
    follows. *)
Theorem canLoadTrace_accepts_leading_marker (rest : string) :
  canLoadTrace (Some ("events:" +:+ rest)) = true.
Proof.
  unfold canLoadTrace.
  assert (E : exists t, cString (takeStr 2047 ("events:" +:+ rest)) = "events:" +:+ t).
  { change ("events:" +:+ rest)
      with (String "e" (String "v" (String "e" (String "n" (String "t"
             (String "s" (String ":" rest))))))).
    change 2047%nat with (S (S (S (S (S (S (S 2040%nat))))))).
    rewrite !takeStr_S. generalize (takeStr 2040 rest). intros u.
    unfold cString. cbn [spanStr].
    change (negb (Ascii.eqb "e" "000")) with true.
    change (negb (Ascii.eqb "v" "000")) with true.
    change (negb (Ascii.eqb "n" "000")) with true.
    change (negb (Ascii.eqb "t" "000")) with true.
    change (negb (Ascii.eqb "s" "000")) with true.
    change (negb (Ascii.eqb ":" "000")) with true.
    cbv iota.
    destruct (spanStr (fun c => negb (Ascii.eqb c "000")) u) as [a b].
    exists a. reflexivity. }
  destruct E as [t ->].
  assert (F : find "events:" ("events:" +:+ t) = 0).
  { unfold find.
    change ("events:" +:+ t)
      with (String "e" (String "v" (String "e" (String "n" (String "t"
             (String "s" (String ":" t))))))).
    reflexivity. }
  rewrite F. reflexivity.
Qed.

(* ================================================================== *)
(** ** Start of a load, and lines the switch does not know *)

(** X24: a load starts from scratch.  [loadTraceInternal] clears the
    compression vectors, the cursors, the schema and the columns before the
    first line, so two loaders that differ in anything but their log give
    the same result on the same file. *)
Theorem load_starts_from_scratch
    (part : TracePart) (data : TraceData) (lines : list FixString)
    (l1 l2 : CachegrindLoader) :
  kdLog l1 = kdLog l2 ->
  loadTraceInternal part data (Some lines) l1
  = loadTraceInternal part data (Some lines) l2.
Proof.
  intros H. unfold loadTraceInternal.
  assert (E : loaderStart part data l1 = loaderStart part data l2).
  { destruct l1, l2. cbn in H. subst. reflexivity. }
  rewrite E. reflexivity.
Qed.

(** A loader left behind by a load of another file, against a new one. *)
Lemma load_starts_from_scratch_witness :
  let used :=
    set_kdLog []
      (state_of (loadLines ["events: Ir"; "positions: instr"; "fn=(1) f"; "16 1"]
                   exampleLoader)) in
  loadTraceInternal emptyPart emptyData (Some ["events: Ir"; "fn=(1)"; "5 1"]) used
  = loadTraceInternal emptyPart emptyData (Some ["events: Ir"; "fn=(1)"; "5 1"])
      (newCachegrindLoader emptyPart emptyData).
Proof.
  intros used.
  apply (load_starts_from_scratch emptyPart emptyData
           ["events: Ir"; "fn=(1)"; "5 1"] used
           (newCachegrindLoader emptyPart emptyData)).
  reflexivity.
Defined.

(** X25: [case 's'] has no [break]: a line that starts with [s] and is no
    [summary:] line is handled as if it started with [r], so [scalls=] is
    taken for [rcalls=]. *)
Theorem s_line_falls_through_to_r (rest : FixString) (st : CachegrindLoader) :
  stripPrefix "ummary:" rest = None ->
  processLine (String "s" rest) st = processLine (String "r" rest) st.
Proof.
  intros H. unfold processLine. cbn [first tailStr].
  change (char_le "s" "9") with false. change (char_le "r" "9") with false.
  cbv iota. cbn [headerLine]. unfold case_s. rewrite H. reflexivity.
Qed.

Lemma s_line_falls_through_to_r_witness :
  processLine (String "s" "calls=3 120") exampleLoader
  = processLine (String "r" "calls=3 120") exampleLoader.
Proof.
  apply (s_line_falls_through_to_r "calls=3 120" exampleLoader). reflexivity.
Defined.

(** X26: a line whose first character is above ['9'] and opens no case of
    the [switch] is passed over with the warning [invalid line]: nothing
    else but the line counter changes, and the loop goes on. *)
Theorem unknown_line_is_passed_over
    (c : ascii) (rest : FixString) (st : CachegrindLoader) :
  unknownHead c ->
  processLine (String c rest) st
  = Continue (kdWarning "invalid line" (set__lineNo (_lineNo st + 1) st)).
Proof.
  intros [Hc Hk]. unfold processLine. cbn [first tailStr]. rewrite Hc.
  revert Hk. clear Hc.
  destruct c as [[] [] [] [] [] [] [] []]; intros Hk;
    first [discriminate Hk | reflexivity].
Qed.

Lemma unknown_line_is_passed_over_witness :
  processLine (String "x" "yz: 1") exampleLoader
  = Continue (kdWarning "invalid line"
                (set__lineNo (_lineNo exampleLoader + 1) exampleLoader)).
Proof.
  apply (unknown_line_is_passed_over "x" "yz: 1" exampleLoader).
  vm_compute. split; reflexivity.
Defined.
